(** * recursive-file-move: a shallow embedding of [main.py]

    The program flattens every patient directory of a disk: it lists the
    patient directories, walks each one, moves every file whose name ends
    with the extension to the top of the patient directory, and logs counts.

    The embedding has three layers.

    - A file system made of regular files, directories and symbolic links
      whose target is missing, as a tree; a path is the list of its
      components, so [os.path.join p name] appends a component and
      [os.path.basename p] is the last one.  Symbolic links that lead
      somewhere, hard links and mount points are outside the model.
    - The operating system calls the program makes ([os.listdir], [os.walk],
      [os.path.exists], [os.path.isdir], [shutil.move]) over a [world]: the
      tree, a schedule of externally caused failures (permission, I/O, races)
      consumed by the calls that can raise, and the chronological record of
      the calls of the program and of its log records.  [shutil.move] is
      modelled call by call after [shutil.py]: [os.rename] first, and when
      that raises the copy and the removal of the source, each of which can
      fail on its own.
    - The five functions of [main.py] that do the work, written in a state and
      exception monad in the order of the source; the logger of
      [setup_logging] is the record of log records in the [world]. *)

From Stdlib Require Import List String Ascii Bool Arith Lia Permutation Sorted.
Import ListNotations.

Set Warnings "-register-all".

(** ** Strings and paths *)

(** [str.endswith]: the last [len(suffix)] characters of [s] are [suffix]. *)
Definition endswith (s suffix : string) : bool :=
  let n := String.length s in
  let k := String.length suffix in
  if k <=? n then String.eqb (substring (n - k) k s) suffix else false.

Definition path := list string.

Definition os_path_join (p : path) (name : string) : path := p ++ [name].

Definition os_path_basename (p : path) : string := last p EmptyString.

Definition os_path_dirname (p : path) : path := removelast p.

Definition path_eqb (p q : path) : bool :=
  if list_eq_dec string_dec p q then true else false.

(** [is_prefix p q]: [q] is [p] or lies below [p]. *)
Fixpoint is_prefix (p q : path) : bool :=
  match p, q with
  | [], _ => true
  | _ :: _, [] => false
  | a :: p', b :: q' => String.eqb a b && is_prefix p' q'
  end.

(** ** The file system *)

(** [Link target] is a symbolic link whose target does not exist, nor the
    directory the target would be in: following it fails. *)
Inductive node : Type :=
| File (data : string)
| Dir (entries : list (string * node))
| Link (target : string).

Inductive kind : Type :=
| KFile (data : string)
| KDir
| KLink (target : string).

Definition is_dir_node (n : node) : bool :=
  match n with Dir _ => true | _ => false end.

Definition kind_of (n : node) : kind :=
  match n with File d => KFile d | Dir _ => KDir | Link tg => KLink tg end.

Fixpoint entry_lookup (name : string) (es : list (string * node)) : option node :=
  match es with
  | [] => None
  | (n, x) :: es' => if String.eqb name n then Some x else entry_lookup name es'
  end.

Definition remove_entry (name : string) (es : list (string * node)) :=
  filter (fun e => negb (String.eqb name (fst e))) es.

Definition put_entry (name : string) (x : node) (es : list (string * node)) :=
  remove_entry name es ++ [(name, x)].

Fixpoint map_entry (name : string) (g : node -> node) (es : list (string * node)) :=
  match es with
  | [] => []
  | (n, x) :: es' =>
      if String.eqb name n then (n, g x) :: es' else (n, x) :: map_entry name g es'
  end.

Fixpoint resolve (t : node) (p : path) : option node :=
  match p with
  | [] => Some t
  | name :: rest =>
      match t with
      | Dir es =>
          match entry_lookup name es with
          | Some child => resolve child rest
          | None => None
          end
      | _ => None
      end
  end.

(** What [os.lstat] tells about a path: nothing, a file and its content, a
    directory, or a link and its target. *)
Definition lstat (t : node) (p : path) : option kind :=
  option_map kind_of (resolve t p).

(** What [os.stat] tells about a path: it follows a link, and the links of
    the tree lead nowhere. *)
Definition stat (t : node) (p : path) : option kind :=
  match lstat t p with
  | Some (KLink _) => None
  | k => k
  end.

(** Rewrites the entry list of the directory at [p]; the tree is unchanged when
    [p] is not a directory. *)
Fixpoint update_dir (t : node) (p : path)
    (f : list (string * node) -> list (string * node)) : node :=
  match t with
  | Dir es =>
      match p with
      | [] => Dir (f es)
      | name :: rest => Dir (map_entry name (fun child => update_dir child rest f) es)
      end
  | _ => t
  end.

Definition detach (t : node) (p : path) : node :=
  update_dir t (os_path_dirname p) (remove_entry (os_path_basename p)).

Definition attach (t : node) (p : path) (x : node) : node :=
  update_dir t (os_path_dirname p) (put_entry (os_path_basename p) x).

(** Names are unique inside every directory. *)
Fixpoint well_formed (t : node) : bool :=
  match t with
  | Dir es =>
      (fix entries_ok (l : list (string * node)) : bool :=
         match l with
         | [] => true
         | (n, x) :: l' =>
             match entry_lookup n l' with Some _ => false | None => true end
             && well_formed x && entries_ok l'
         end) es
  | _ => true
  end.

(** ** Exceptions, log records and the record of calls *)

Inductive exn : Type :=
| FileNotFoundError
| NotADirectoryError
| IsADirectoryError
| FileExistsError
| PermissionError
| OSError (errno : string)
| ShutilError.

Inductive level : Type := INFO | WARNING | ERROR.

(** One constructor per f-string of the source, with its arguments. *)
Inductive message : Type :=
| MsgStart (disk_path : path) (file_extension : string)
| MsgFoundPatientDirs (n : nat)
| MsgErrorListing (e : exn)
| MsgAlreadyExists (destination_path : path)
| MsgErrorMoving (dcm_file : path) (e : exn)
| MsgNoFiles (patient_dir : string)
| MsgBefore (patient_dir : string) (n : nat)
| MsgAfter (patient_dir : string) (n : nat)
| MsgMoved (patient_dir : string) (n : nat)
| MsgExecutionTime
| MsgTotal (n : nat).

Inductive event : Type :=
| EvLog (lvl : level) (msg : message)
| EvScandir (p : path)
| EvListdir (p : path)
| EvMove (src dst : path) (outcome : option exn)
| EvSleep.

(** [oracle] schedules the failures that come from outside the tree: each call
    that can raise takes the head; [Some e] makes that call raise [e], [None]
    and the empty schedule let it run on the tree. *)
Record world : Type := mkWorld {
  fs : node;
  oracle : list (option exn);
  events : list event
}.

Definition emit (ev : event) (w : world) : world :=
  mkWorld (fs w) (oracle w) (events w ++ [ev]).

Definition next_fault (w : world) : option exn * world :=
  match oracle w with
  | [] => (None, w)
  | o :: rest => (o, mkWorld (fs w) rest (events w))
  end.

(** ** The state and exception monad *)

Inductive result (A : Type) : Type :=
| Ok (a : A)
| Raise (e : exn).
Arguments Ok {A} a.
Arguments Raise {A} e.

Definition M (A : Type) : Type := world -> result A * world.

Definition ret {A} (a : A) : M A := fun w => (Ok a, w).

Definition bind {A B} (m : M A) (k : A -> M B) : M B :=
  fun w =>
    match m w with
    | (Ok a, w') => k a w'
    | (Raise e, w') => (Raise e, w')
    end.

Definition try_except {A} (m : M A) (handler : exn -> M A) : M A :=
  fun w =>
    match m w with
    | (Ok a, w') => (Ok a, w')
    | (Raise e, w') => handler e w'
    end.

Definition gets {A} (f : node -> A) : M A := fun w => (Ok (f (fs w)), w).

Definition log (lvl : level) (msg : message) : M unit :=
  fun w => (Ok tt, emit (EvLog lvl msg) w).

Notation "x <- m ;; k" := (bind m (fun x => k))
  (at level 61, m at next level, right associativity).
Notation "m ;;; k" := (bind m (fun _ => k))
  (at level 61, right associativity).

(** ** Operating system calls *)

Definition raise {A} (e : exn) : M A := fun w => (Raise e, w).

(** [os.path.exists] and [os.path.isdir] follow links and never raise;
    [os.path.islink] does not follow. *)
Definition os_path_exists (t : node) (p : path) : bool :=
  match resolve t p with
  | Some (File _) | Some (Dir _) => true
  | _ => false
  end.

Definition os_path_isdir (t : node) (p : path) : bool :=
  match resolve t p with Some (Dir _) => true | _ => false end.

Definition os_path_islink (t : node) (p : path) : bool :=
  match resolve t p with Some (Link _) => true | _ => false end.

Definition listdir_on (t : node) (p : path) : exn + list string :=
  match resolve t p with
  | Some (Dir es) => inr (map fst es)
  | Some (File _) => inl NotADirectoryError
  | Some (Link _) => inl FileNotFoundError
  | None => inl FileNotFoundError
  end.

Definition os_listdir (p : path) : M (list string) :=
  fun w =>
    let (flt, w1) := next_fault w in
    let w2 := emit (EvListdir p) w1 in
    match flt with
    | Some e => (Raise e, w2)
    | None =>
        match listdir_on (fs w2) p with
        | inr names => (Ok names, w2)
        | inl e => (Raise e, w2)
        end
    end.

(** A call made inside [shutil.move]: it takes the head of the schedule, and
    runs on the tree when nothing is scheduled.  [effect] is a call that
    changes the tree, [query] one that reads it. *)
Definition call {A} (f : node -> exn + (A * node)) : M A :=
  fun w =>
    let (flt, w1) := next_fault w in
    match flt with
    | Some e => (Raise e, w1)
    | None =>
        match f (fs w1) with
        | inr (a, t') => (Ok a, mkWorld t' (oracle w1) (events w1))
        | inl e => (Raise e, w1)
        end
    end.

Definition effect (f : node -> exn + node) : M unit :=
  call (fun t => match f t with inr t' => inr (tt, t') | inl e => inl e end).

Definition query {A} (f : node -> exn + A) : M A :=
  call (fun t => match f t with inr a => inr (a, t) | inl e => inl e end).

(** What stands in the way of creating an entry at [p]: nothing when the
    parent is a directory. *)
Definition parent_error (t : node) (p : path) : option exn :=
  match resolve t (os_path_dirname p) with
  | Some (Dir _) => None
  | Some (File _) => Some NotADirectoryError
  | _ => Some FileNotFoundError
  end.

(** [os.rename]: it moves the entry itself, a link too, and replaces a
    destination that is a file, a link or an empty directory. *)
Definition rename_on (src dst : path) (t : node) : exn + node :=
  match resolve t src with
  | None => inl FileNotFoundError
  | Some x =>
      if path_eqb src dst then inr t
      else if is_prefix src dst then
        inl (match x with
             | File _ => NotADirectoryError
             | Dir _ => OSError "EINVAL"
             | Link _ => FileNotFoundError
             end)
      else
        match parent_error t dst with
        | Some e => inl e
        | None =>
            match resolve t dst, x with
            | None, _ => inr (attach (detach t src) dst x)
            | Some (Dir []), Dir _ => inr (attach (detach t src) dst x)
            | Some (Dir (_ :: _)), Dir _ => inl (OSError "ENOTEMPTY")
            | Some (Dir _), _ => inl IsADirectoryError
            | Some _, Dir _ => inl NotADirectoryError
            | Some _, _ => inr (attach (detach t src) dst x)
            end
        end
  end.

Definition os_rename (src dst : path) : M unit := effect (rename_on src dst).

Definition unlink_on (p : path) (t : node) : exn + node :=
  match resolve t p with
  | None => inl FileNotFoundError
  | Some (Dir _) => inl IsADirectoryError
  | Some _ => inr (detach t p)
  end.

Definition os_unlink (p : path) : M unit := effect (unlink_on p).

Definition readlink_on (p : path) (t : node) : exn + string :=
  match resolve t p with
  | Some (Link target) => inr target
  | Some _ => inl (OSError "EINVAL")
  | None => inl FileNotFoundError
  end.

Definition os_readlink (p : path) : M string := query (readlink_on p).

Definition symlink_on (target : string) (p : path) (t : node) : exn + node :=
  match resolve t p with
  | Some _ => inl FileExistsError
  | None =>
      match parent_error t p with
      | Some e => inl e
      | None => inr (attach t p (Link target))
      end
  end.

Definition os_symlink (target : string) (p : path) : M unit :=
  effect (symlink_on target p).

Definition mkdir_on (p : path) (t : node) : exn + node :=
  match resolve t p with
  | Some _ => inl FileExistsError
  | None =>
      match parent_error t p with
      | Some e => inl e
      | None => inr (attach t p (Dir []))
      end
  end.

Definition rmdir_on (p : path) (t : node) : exn + node :=
  match resolve t p with
  | Some (Dir []) => inr (detach t p)
  | Some (Dir (_ :: _)) => inl (OSError "ENOTEMPTY")
  | Some _ => inl NotADirectoryError
  | None => inl FileNotFoundError
  end.

(** [os.makedirs(p)] with [exist_ok=False]: the ancestors that do not exist
    are made first, from the top, then [p] itself. *)
Fixpoint makedirs_from (made todo : path) : M unit :=
  match todo with
  | [] => raise FileExistsError
  | [name] => effect (mkdir_on (os_path_join made name))
  | name :: rest =>
      let head := os_path_join made name in
      present <- gets (fun t => os_path_exists t head) ;;
      (if present then ret tt
       else
         try_except (effect (mkdir_on head))
           (fun e => match e with FileExistsError => ret tt | _ => raise e end)) ;;;
      makedirs_from head rest
  end.

Definition os_makedirs (p : path) : M unit := makedirs_from [] p.

(** [open(src, 'rb')] and reading: the content of a regular file. *)
Definition open_read_on (src : path) (t : node) : exn + string :=
  match resolve t src with
  | Some (File data) => inr data
  | Some (Dir _) => inl IsADirectoryError
  | _ => inl FileNotFoundError
  end.

(** [open(dst, 'wb')]: the file is created empty, or emptied. *)
Definition open_write_on (dst : path) (t : node) : exn + node :=
  match resolve t dst with
  | Some (File _) => inr (attach t dst (File EmptyString))
  | Some (Dir _) => inl IsADirectoryError
  | Some (Link _) => inl FileNotFoundError
  | None =>
      match parent_error t dst with
      | Some e => inl e
      | None => inr (attach t dst (File EmptyString))
      end
  end.

(** [copyfileobj]: the content reaches the destination piece by piece, and
    each write can fail and leave what was written before it; the pieces of
    the model are single characters, so that every prefix can be left. *)
Fixpoint copyfileobj (dst : path) (written rest : string) : M unit :=
  match rest with
  | EmptyString => ret tt
  | String ch rest' =>
      let written' := (written ++ String ch EmptyString)%string in
      effect (fun t => inr (attach t dst (File written'))) ;;;
      copyfileobj dst written' rest'
  end.

(** [copystat] changes what the tree does not hold; it can only fail. *)
Definition copystat : M unit := effect (fun t => inr t).

(** [os.path.samefile] in a tree without hard links. *)
Definition samefile (t : node) (a b : path) : bool :=
  path_eqb a b && os_path_exists t a.

(** [shutil.copy2]: [copyfile], then [copystat]. *)
Definition shutil_copy2 (src dst : path) : M unit :=
  into <- gets (fun t => os_path_isdir t dst) ;;
  let dst := if into then os_path_join dst (os_path_basename src) else dst in
  same <- gets (fun t => samefile t src dst) ;;
  if same then raise ShutilError
  else
    data <- query (open_read_on src) ;;
    effect (open_write_on dst) ;;;
    copyfileobj dst EmptyString data ;;;
    copystat.

(** [shutil.copytree(src, dst, symlinks=True)] on the directory [n] found at
    [src]: an entry that cannot be copied is noted and the copy goes on;
    [shutil.Error] is raised at the end when something was noted. *)
Fixpoint copytree_node (n : node) (src dst : path) {struct n} : M unit :=
  match n with
  | Dir es =>
      query (fun t => match listdir_on t src with
                      | inr _ => inr tt
                      | inl e => inl e
                      end) ;;;
      os_makedirs dst ;;;
      failed <-
        (fix each (l : list (string * node)) : M bool :=
           match l with
           | [] => ret false
           | (name, child) :: l' =>
               let s := os_path_join src name in
               let d := os_path_join dst name in
               bad <- try_except
                        (match child with
                         | Link _ =>
                             linkto <- os_readlink s ;;
                             os_symlink linkto d ;;;
                             copystat
                         | Dir _ => copytree_node child s d
                         | File _ => shutil_copy2 s d
                         end ;;;
                         ret false)
                        (fun _ => ret true) ;;
               rest <- each l' ;;
               ret (bad || rest)
           end) es ;;
      stat_failed <- try_except (copystat ;;; ret false) (fun _ => ret true) ;;
      if failed || stat_failed then raise ShutilError else ret tt
  | _ => raise NotADirectoryError
  end.

Definition shutil_copytree (src dst : path) : M unit :=
  fun w =>
    match resolve (fs w) src with
    | Some n => copytree_node n src dst w
    | None => (Raise FileNotFoundError, w)
    end.

(** [shutil.rmtree(p)] on the directory [n] found at [p]: the first call
    that fails ends it. *)
Fixpoint rmtree_node (n : node) (p : path) {struct n} : M unit :=
  match n with
  | Dir es =>
      query (fun t => match listdir_on t p with
                      | inr _ => inr tt
                      | inl e => inl e
                      end) ;;;
      (fix each (l : list (string * node)) : M unit :=
         match l with
         | [] => ret tt
         | (name, child) :: l' =>
             match child with
             | Dir _ => rmtree_node child (os_path_join p name)
             | _ => os_unlink (os_path_join p name)
             end ;;;
             each l'
         end) es ;;;
      effect (rmdir_on p)
  | _ => raise NotADirectoryError
  end.

Definition shutil_rmtree (p : path) : M unit :=
  fun w =>
    match resolve (fs w) p with
    | Some n => rmtree_node n p w
    | None => (Raise FileNotFoundError, w)
    end.

(** The [except OSError] branch of [shutil.move]: a link is made again at
    the destination, a directory is copied with [copytree], a file with
    [copy2]; the source is removed afterwards.  Every exception of the model
    is an [OSError]. *)
Definition move_fallback (src dst real_dst : path) : M unit :=
  is_link <- gets (fun t => os_path_islink t src) ;;
  if is_link then
    linkto <- os_readlink src ;;
    os_symlink linkto real_dst ;;;
    os_unlink src
  else
    is_dir <- gets (fun t => os_path_isdir t src) ;;
    if is_dir then
      if is_prefix src dst then raise ShutilError
      else
        shutil_copytree src real_dst ;;;
        shutil_rmtree src
    else
      shutil_copy2 src real_dst ;;;
      os_unlink src.

(** The body of [shutil.move].  A destination that is a directory receives
    the source under its own name.  The value returned is the real
    destination ([None] in the source when source and destination are one
    directory, a value the program does not look at). *)
Definition shutil_move_calls (src dst : path) : M path :=
  dst_is_dir <- gets (fun t => os_path_isdir t dst) ;;
  same <- gets (fun t => samefile t src dst) ;;
  if dst_is_dir && same then
    os_rename src dst ;;;
    ret dst
  else
    let real_dst :=
      if dst_is_dir then os_path_join dst (os_path_basename src) else dst in
    taken <- gets (fun t => os_path_exists t real_dst) ;;
    if dst_is_dir && taken then raise ShutilError
    else
      try_except (os_rename src real_dst)
                 (fun _ => move_fallback src dst real_dst) ;;;
      ret real_dst.

(** [shutil.move] as the program calls it: the record keeps one entry for
    the call, with its outcome. *)
Definition shutil_move (src dst : path) : M path :=
  fun w =>
    match shutil_move_calls src dst w with
    | (Ok real_dst, w') => (Ok real_dst, emit (EvMove src dst None) w')
    | (Raise e, w') => (Raise e, emit (EvMove src dst (Some e)) w')
    end.

Definition time_sleep : M unit := fun w => (Ok tt, emit EvSleep w).

Definition walk_item : Type := path * list string * list string.

Definition dirs_of (es : list (string * node)) : list string :=
  map fst (filter (fun e => is_dir_node (snd e)) es).

Definition nondirs_of (es : list (string * node)) : list string :=
  map fst (filter (fun e => negb (is_dir_node (snd e))) es).

(** [os.walk(top)], top-down, [onerror=None], [followlinks=False]: one
    [scandir] per directory visited; a [scandir] that fails is swallowed and
    that directory yields nothing. *)
Fixpoint walk_node (top : path) (n : node) (w : world) {struct n}
    : list walk_item * world :=
  let (flt, w1) := next_fault w in
  let w2 := emit (EvScandir top) w1 in
  match flt, n with
  | None, Dir es =>
      let fix descend (l : list (string * node)) (w : world)
          : list walk_item * world :=
        match l with
        | [] => ([], w)
        | (name, child) :: l' =>
            if is_dir_node child then
              let (here, w') := walk_node (os_path_join top name) child w in
              let (rest, w'') := descend l' w' in
              (here ++ rest, w'')
            else descend l' w
        end in
      let (below, w3) := descend es w2 in
      ((top, dirs_of es, nondirs_of es) :: below, w3)
  | _, _ => ([], w2)
  end.

Definition os_walk (top : path) : M (list walk_item) :=
  fun w =>
    match resolve (fs w) top with
    | Some n => let (items, w') := walk_node top n w in (Ok items, w')
    | None => let (_, w1) := next_fault w in (Ok [], emit (EvScandir top) w1)
    end.

(** [list.sort()] on strings: insertion by code-point order. *)
Fixpoint insert_sorted (s : string) (l : list string) : list string :=
  match l with
  | [] => [s]
  | x :: l' => if String.leb s x then s :: l else x :: insert_sorted s l'
  end.

Fixpoint list_sort (l : list string) : list string :=
  match l with
  | [] => []
  | x :: l' => insert_sorted x (list_sort l')
  end.

(** ** The functions of main.py *)

Definition list_patient_directories (disk_path : path) (sort : bool)
    : M (list string) :=
  try_except
    (names <- os_listdir disk_path ;;
     patient_dirs <- gets (fun t =>
       filter (fun d => os_path_isdir t (os_path_join disk_path d)) names) ;;
     log INFO (MsgFoundPatientDirs (List.length patient_dirs)) ;;;
     ret (if sort then list_sort patient_dirs else patient_dirs))
    (fun e =>
       log ERROR (MsgErrorListing e) ;;;
       ret []).

(** The generator of [os.walk] is run to its end inside this function and
    nothing in the loop body touches the tree, so the walk reads one tree. *)
Definition list_dcm_files (patient_path : path) (file_extension : string)
    : M (list path) :=
  items <- os_walk patient_path ;;
  ret (flat_map
         (fun item : walk_item =>
            let '(root, _, files) := item in
            map (os_path_join root)
                (filter (fun file => endswith file file_extension) files))
         items).

Definition move_dcm_file (dcm_file patient_path : path) (moved_files_count : nat)
    : M nat :=
  try_except
    (let destination_path :=
       os_path_join patient_path (os_path_basename dcm_file) in
     present <- gets (fun t => os_path_exists t destination_path) ;;
     if negb present then
       shutil_move dcm_file destination_path ;;;
       time_sleep ;;;
       ret (moved_files_count + 1)
     else
       log WARNING (MsgAlreadyExists destination_path) ;;;
       ret moved_files_count)
    (fun e =>
       log ERROR (MsgErrorMoving dcm_file e) ;;;
       ret moved_files_count).

Fixpoint move_dcm_files_from (patient_dcm_files : list path) (patient_path : path)
    (moved_files_count : nat) : M nat :=
  match patient_dcm_files with
  | [] => ret moved_files_count
  | dcm_file :: rest =>
      n <- move_dcm_file dcm_file patient_path moved_files_count ;;
      move_dcm_files_from rest patient_path n
  end.

Definition move_dcm_files (patient_dcm_files : list path) (patient_path : path)
    : M nat :=
  move_dcm_files_from patient_dcm_files patient_path 0.

Definition process_patient_directory (disk_path : path) (patient_dir : string)
    (file_extension : string) : M nat :=
  let patient_path := os_path_join disk_path patient_dir in
  patient_dcm_files <- list_dcm_files patient_path file_extension ;;
  match patient_dcm_files with
  | [] =>
      log INFO (MsgNoFiles patient_dir) ;;;
      ret 0
  | _ :: _ =>
      log INFO (MsgBefore patient_dir (List.length patient_dcm_files)) ;;;
      moved_files_count <- move_dcm_files patient_dcm_files patient_path ;;
      names <- os_listdir patient_path ;;
      let new_dcm_files_count :=
        List.length (filter (fun name => endswith name file_extension) names) in
      log INFO (MsgAfter patient_dir new_dcm_files_count) ;;;
      log INFO (MsgMoved patient_dir moved_files_count) ;;;
      ret moved_files_count
  end.

Fixpoint main_loop (disk_path : path) (patients : list string)
    (file_extension : string) (total_moved_files : nat) : M nat :=
  match patients with
  | [] => ret total_moved_files
  | patient_dir :: rest =>
      moved_files_count <-
        process_patient_directory disk_path patient_dir file_extension ;;
      main_loop disk_path rest file_extension (total_moved_files + moved_files_count)
  end.

(** [main] with its two command-line arguments; it returns the total it logs
    last.  The progress bar only reads the length of [patients]. *)
Definition main (disk_path : path) (file_extension : string) : M nat :=
  log INFO (MsgStart disk_path file_extension) ;;;
  patients <- list_patient_directories disk_path true ;;
  total_moved_files <- main_loop disk_path patients file_extension 0 ;;
  log INFO MsgExecutionTime ;;;
  log INFO (MsgTotal total_moved_files) ;;;
  ret total_moved_files.

(** ** Definitions used to state the properties *)

Definition wf_entries : list (string * node) -> bool :=
  fix entries_ok (l : list (string * node)) : bool :=
    match l with
    | [] => true
    | (n, x) :: l' =>
        match entry_lookup n l' with Some _ => false | None => true end
        && well_formed x && entries_ok l'
    end.

Fixpoint walk_children (top : path) (l : list (string * node)) (w : world)
    : list walk_item * world :=
  match l with
  | [] => ([], w)
  | (name, child) :: l' =>
      if is_dir_node child then
        let (here, w') := walk_node (os_path_join top name) child w in
        let (rest, w'') := walk_children top l' w' in
        (here ++ rest, w'')
      else walk_children top l' w
  end.

(** An entry that is not a directory, which is what [os.walk] lists as a
    file: a regular file or a link. *)
Definition is_file (t : node) (p : path) : bool :=
  match resolve t p with
  | Some (File _) | Some (Link _) => true
  | _ => false
  end.

Definition is_regular (t : node) (p : path) : bool :=
  match resolve t p with Some (File _) => true | _ => false end.

(** No symbolic link anywhere in the tree. *)
Fixpoint no_links (t : node) : bool :=
  match t with
  | File _ => true
  | Link _ => false
  | Dir es =>
      (fix all (l : list (string * node)) : bool :=
         match l with
         | [] => true
         | (_, x) :: l' => no_links x && all l'
         end) es
  end.

(** [s] is the beginning of [data]. *)
Definition begins (s data : string) : Prop :=
  exists rest, data = (s ++ rest)%string.

Definition is_scandir (ev : event) : bool :=
  match ev with EvScandir _ => true | _ => false end.

Definition is_successful_move (ev : event) : bool :=
  match ev with EvMove _ _ None => true | _ => false end.

Definition move_source (ev : event) : option path :=
  match ev with EvMove src _ _ => Some src | _ => None end.

(** What a failed copy of the entry [x] can leave at the destination: the
    beginning of a file, or the link made again. *)
Definition left_behind (x y : node) : Prop :=
  match x, y with
  | File data, File s => begins s data
  | Link a, Link b => a = b
  | _, _ => False
  end.

(** The tree [t'] is [t] after the entry at [c], a file or a link, went to
    the top of [P]: [os.rename] took it there, to a free place or over a
    link, or it was copied to a free place and removed. *)
Definition moved_to_top (t : node) (c P : path) (t' : node) : Prop :=
  let d := os_path_join P (os_path_basename c) in
  exists x : node,
    resolve t c = Some x /\ is_dir_node x = false /\
    c <> d /\
    lstat t P = Some KDir /\
    ((resolve t d = None \/ exists tg, resolve t d = Some (Link tg)) /\
     t' = attach (detach t c) d x
     \/
     resolve t d = None /\ t' = detach (attach t d x) c).

(** The tree [t'] is [t] after a move of the entry at [c] to the top of [P]
    that failed on the way: the entry is still at [c], and a copy, maybe a
    part of it only, was left at the destination, which was free. *)
Definition copy_left (t : node) (c P : path) (t' : node) : Prop :=
  let d := os_path_join P (os_path_basename c) in
  exists x y : node,
    resolve t c = Some x /\ is_dir_node x = false /\
    c <> d /\
    lstat t P = Some KDir /\
    resolve t d = None /\ left_behind x y /\ t' = attach t d y.

(** The attempt to take the entry at [c] to the top of [P] has changed the
    tree. *)
Definition relocated (t : node) (c P : path) (t' : node) : Prop :=
  moved_to_top t c P t' \/ copy_left t c P t'.

(** The calls made inside [shutil.move] leave the record as it is, and a
    schedule that is empty stays empty. *)
Definition inner (w w' : world) : Prop :=
  events w' = events w /\ (oracle w = [] -> oracle w' = []).

Definition internal {A : Type} (m : M A) : Prop :=
  forall w r w', m w = (r, w') -> inner w w'.

(** The scenario of the specification: patient [P1] holds [a.dcm] two levels
    down and [b.dcm] at its top, patient [P2] holds no matching file. *)
Definition demo_disk : node :=
  (Dir [("P1", Dir [("sub", Dir [("deep", Dir [("a.dcm", File "A")])]);
                    ("b.dcm", File "B")]);
        ("P2", Dir [("notes.txt", File "n")])])%string.

Definition demo_world : world := mkWorld demo_disk [] [].

(** A patient with a link that leads nowhere, named like a match. *)
Definition dangling_disk : node :=
  (Dir [("P1", Dir [("x.dcm", Link "/mnt/gone/x.dcm")])])%string.

Definition dangling_world : world := mkWorld dangling_disk [] [].

(** One patient with the same file name in two subdirectories. *)
Definition collision_disk : node :=
  (Dir [("P1", Dir [("a", Dir [("x.dcm", File "first")]);
                    ("b", Dir [("x.dcm", File "second")])])])%string.

Definition collision_world : world := mkWorld collision_disk [] [].


(** What a walk from [top] over the subtree [n] guarantees: it only reads,
    it only calls [scandir], every triple it yields is the listing of a
    directory of the subtree, and without external failure every directory of
    the subtree is yielded. *)
Definition walk_spec (top : path) (n : node) (w : world)
    (items : list walk_item) (w' : world) : Prop :=
  fs w' = fs w /\
  (exists tr, events w' = events w ++ tr /\
              Forall (fun ev => is_scandir ev = true) tr) /\
  (well_formed n = true ->
   forall root ds fl, In (root, ds, fl) items ->
   exists r es, root = top ++ r /\ resolve n r = Some (Dir es) /\
                ds = dirs_of es /\ fl = nondirs_of es) /\
  (oracle w = [] ->
   oracle w' = [] /\
   forall r es, resolve n r = Some (Dir es) ->
                In (top ++ r, dirs_of es, nondirs_of es) items).

Definition walk_children_spec (top : path) (l : list (string * node)) (w : world)
    (items : list walk_item) (w' : world) : Prop :=
  fs w' = fs w /\
  (exists tr, events w' = events w ++ tr /\
              Forall (fun ev => is_scandir ev = true) tr) /\
  (wf_entries l = true ->
   forall root ds fl, In (root, ds, fl) items ->
   exists name r es, root = top ++ name :: r /\
                     resolve (Dir l) (name :: r) = Some (Dir es) /\
                     ds = dirs_of es /\ fl = nondirs_of es) /\
  (oracle w = [] ->
   oracle w' = [] /\
   forall name r es, resolve (Dir l) (name :: r) = Some (Dir es) ->
                     In (top ++ name :: r, dirs_of es, nondirs_of es) items).

(** Code-point order on names, the order of [list.sort()]. *)
Definition str_le (a b : string) : Prop := String.leb a b = true.

(** Every matching regular file below [P] already has a file or directory
    of its name at the top of [P]. *)
Definition settled (t : node) (P : path) (ext : string) : Prop :=
  forall r, r <> [] ->
    is_regular t (P ++ r) = true ->
    endswith (os_path_basename (P ++ r)) ext = true ->
    os_path_exists t (os_path_join P (os_path_basename (P ++ r))) = true.

(** A candidate that is still a regular file has its destination taken. *)
Definition resting (t : node) (P c : path) : Prop :=
  is_regular t c = true ->
  os_path_exists t (os_path_join P (os_path_basename c)) = true.

(** Counting the entries directly inside the directory [P] whose name ends
    with the extension: all of them, the files, the subdirectories. *)
Definition count_in (t : node) (P : path) (keep : string * node -> bool) : nat :=
  match resolve t P with
  | Some (Dir es) => List.length (filter keep es)
  | _ => 0
  end.

Definition matching_entries (t : node) (P : path) (ext : string) : nat :=
  count_in t P (fun e => endswith (fst e) ext).

Definition matching_files (t : node) (P : path) (ext : string) : nat :=
  count_in t P (fun e => endswith (fst e) ext && negb (is_dir_node (snd e))).

Definition matching_dirs (t : node) (P : path) (ext : string) : nat :=
  count_in t P (fun e => endswith (fst e) ext && is_dir_node (snd e)).

(** A patient whose top level holds a subdirectory named like a match. *)
Definition dcm_dir_disk : node :=
  (Dir [("P1", Dir [("old.dcm", Dir [("a.dcm", File "A")])])])%string.

Definition dcm_dir_world : world := mkWorld dcm_dir_disk [] [].

(** The same patient in a run in which an I/O error makes [os.rename]
    raise, and then the opening of the source for the copy. *)
Definition io_fault_world : world :=
  mkWorld dcm_dir_disk
    [None; None; None; Some (OSError "EIO"); Some (OSError "EIO")] [].

(** Two patients with one nested match each, and a schedule in which the
    fifth call that can raise, the listing of [P1] after its move, fails. *)
Definition two_patients_disk : node :=
  (Dir [("P1", Dir [("sub", Dir [("a.dcm", File "A")])]);
        ("P2", Dir [("sub", Dir [("b.dcm", File "B")])])])%string.

Definition recount_fault_world : world :=
  mkWorld two_patients_disk
    [None; None; None; None; Some (OSError "EIO")] [].

Definition is_error_record (ev : event) : bool :=
  match ev with EvLog ERROR _ => true | _ => false end.

Definition root_of (item : walk_item) : path := fst (fst item).

(** Counting in a record of calls. *)
Definition count_events (f : event -> bool) (tr : list event) : nat :=
  List.length (filter f tr).

Definition is_skip_record (ev : event) : bool :=
  match ev with EvLog WARNING (MsgAlreadyExists _) => true | _ => false end.

Definition is_move_error_record (ev : event) : bool :=
  match ev with EvLog ERROR (MsgErrorMoving _ _) => true | _ => false end.

Definition is_sleep (ev : event) : bool :=
  match ev with EvSleep => true | _ => false end.

Definition is_listdir (ev : event) : bool :=
  match ev with EvListdir _ => true | _ => false end.

(** The counts of the records "N DCM files were moved", in order. *)
Fixpoint moved_reports (tr : list event) : list nat :=
  match tr with
  | [] => []
  | EvLog INFO (MsgMoved _ n) :: tr' => n :: moved_reports tr'
  | _ :: tr' => moved_reports tr'
  end.


(** * Properties *)

(** ** Strings and paths *)

Lemma substring_whole (s : string) : substring 0 (String.length s) s = s.
Proof. induction s as [|a s IH]; simpl; [reflexivity | now rewrite IH]. Qed.

Lemma substring_after (p e : string) :
  substring (String.length p) (String.length e) (p ++ e)%string = e.
Proof. induction p as [|a p IH]; simpl; [apply substring_whole | exact IH]. Qed.

Lemma string_length_app (p e : string) :
  String.length (p ++ e)%string = String.length p + String.length e.
Proof. induction p as [|a p IH]; simpl; [reflexivity | now rewrite IH]. Qed.

Lemma substring_split (s : string) :
  forall m, m <= String.length s ->
  s = (substring 0 m s ++ substring m (String.length s - m) s)%string.
Proof.
  induction s as [|a s IH]; intros m Hm.
  - destruct m; reflexivity.
  - destruct m as [|m]; simpl.
    + now rewrite substring_whole.
    + simpl in Hm. f_equal. apply IH. lia.
Qed.

Lemma endswith_iff (s e : string) :
  endswith s e = true <-> exists p, s = (p ++ e)%string.
Proof.
  unfold endswith. split.
  - remember (String.length e) as k eqn:Hk.
    destruct (Nat.leb_spec k (String.length s)) as [Hle|]; [|discriminate].
    intros H. apply String.eqb_eq in H.
    exists (substring 0 (String.length s - k) s).
    rewrite <- H.
    pose proof (substring_split s (String.length s - k)) as Hs.
    replace (String.length s - (String.length s - k)) with k in Hs by lia.
    apply Hs. lia.
  - intros [p ->]. rewrite string_length_app.
    replace (String.length e <=? String.length p + String.length e) with true
      by (symmetry; apply Nat.leb_le; lia).
    replace (String.length p + String.length e - String.length e)
      with (String.length p) by lia.
    rewrite substring_after. apply String.eqb_refl.
Qed.

Lemma path_eqb_eq (p q : path) : path_eqb p q = true <-> p = q.
Proof. unfold path_eqb. destruct (list_eq_dec string_dec p q); split; congruence. Qed.

Lemma path_eqb_refl (p : path) : path_eqb p p = true.
Proof. now apply path_eqb_eq. Qed.

Lemma path_eqb_neq (p q : path) : path_eqb p q = false <-> p <> q.
Proof. unfold path_eqb. destruct (list_eq_dec string_dec p q); split; congruence. Qed.

Lemma basename_join (p : path) (name : string) :
  os_path_basename (os_path_join p name) = name.
Proof. apply last_last. Qed.

Lemma dirname_join (p : path) (name : string) :
  os_path_dirname (os_path_join p name) = p.
Proof. apply removelast_last. Qed.

Lemma is_prefix_iff (p q : path) : is_prefix p q = true <-> exists r, q = p ++ r.
Proof.
  revert q. induction p as [|a p IH]; intros q; simpl.
  - split; [intros _; now exists q | reflexivity].
  - destruct q as [|b q].
    + split; [discriminate | intros [r Hr]; discriminate].
    + rewrite andb_true_iff, String.eqb_eq, IH. split.
      * intros [-> [r ->]]. now exists r.
      * intros [r Hr]. injection Hr as -> ->. split; [reflexivity | now exists r].
Qed.

Lemma is_prefix_app (p r : path) : is_prefix p (p ++ r) = true.
Proof. apply is_prefix_iff. now exists r. Qed.

Lemma is_prefix_refl (p : path) : is_prefix p p = true.
Proof. apply is_prefix_iff. exists []. now rewrite app_nil_r. Qed.

Lemma path_split_last (p : path) :
  p <> [] -> p = os_path_join (os_path_dirname p) (os_path_basename p).
Proof. intros H. now apply app_removelast_last. Qed.

(** ** The tree *)

Lemma node_induction (P : node -> Prop) :
  (forall d, P (File d)) ->
  (forall es, Forall (fun e => P (snd e)) es -> P (Dir es)) ->
  (forall tg, P (Link tg)) ->
  forall n, P n.
Proof.
  intros HF HD HL. fix IH 1. intros [d|es|tg]; [apply HF| |apply HL]. apply HD.
  induction es as [|[n x] es IHes]; constructor; [apply IH | exact IHes].
Qed.

Lemma well_formed_Dir (es : list (string * node)) :
  well_formed (Dir es) = wf_entries es.
Proof. reflexivity. Qed.

Lemma wf_entries_cons (n : string) (x : node) (l : list (string * node)) :
  wf_entries ((n, x) :: l) =
  match entry_lookup n l with Some _ => false | None => true end
  && well_formed x && wf_entries l.
Proof. reflexivity. Qed.

Lemma entry_lookup_In (name : string) (es : list (string * node)) (x : node) :
  entry_lookup name es = Some x -> In (name, x) es.
Proof.
  induction es as [|[n y] es IH]; simpl; [discriminate|].
  destruct (String.eqb_spec name n) as [->|Hne].
  - intros [= ->]. now left.
  - intros H. right. now apply IH.
Qed.

Lemma entry_lookup_None (name : string) (es : list (string * node)) :
  entry_lookup name es = None <-> ~ In name (map fst es).
Proof.
  induction es as [|[n y] es IH]; simpl.
  - tauto.
  - destruct (String.eqb_spec name n) as [->|Hne].
    + split; [discriminate | intros H; exfalso; apply H; now left].
    + rewrite IH. split; [intros H [E|I]; [congruence | tauto] | tauto].
Qed.

Lemma In_entry_lookup (name : string) (es : list (string * node)) (x : node) :
  wf_entries es = true -> In (name, x) es -> entry_lookup name es = Some x.
Proof.
  induction es as [|[n y] es IH]; [intros _ []|].
  rewrite wf_entries_cons, !andb_true_iff. intros [[Hn Hy] Hes] [E|I].
  - injection E as -> ->. simpl. now rewrite String.eqb_refl.
  - simpl. destruct (String.eqb_spec name n) as [->|Hne]; [|now apply IH].
    apply IH in I; [|exact Hes]. rewrite I in Hn. discriminate.
Qed.

Lemma wf_entries_child (name : string) (es : list (string * node)) (x : node) :
  wf_entries es = true -> entry_lookup name es = Some x -> well_formed x = true.
Proof.
  induction es as [|[n y] es IH]; simpl; [discriminate|].
  fold wf_entries. rewrite !andb_true_iff. intros [[Hn Hy] Hes].
  destruct (String.eqb name n); [intros [= <-]; exact Hy | now apply IH].
Qed.

Lemma wf_entries_NoDup (es : list (string * node)) :
  wf_entries es = true -> NoDup (map fst es).
Proof.
  induction es as [|[n y] es IH]; [constructor|].
  rewrite wf_entries_cons, !andb_true_iff. intros [[Hn Hy] Hes]. simpl.
  constructor; [|now apply IH].
  apply entry_lookup_None. now destruct (entry_lookup n es).
Qed.

Lemma entry_lookup_remove (n m : string) (es : list (string * node)) :
  entry_lookup n (remove_entry m es) =
  if String.eqb n m then None else entry_lookup n es.
Proof.
  induction es as [|[k y] es IH]; simpl.
  - now destruct (String.eqb n m).
  - destruct (String.eqb_spec m k) as [->|Hmk]; simpl.
    + rewrite IH. destruct (String.eqb n k); reflexivity.
    + rewrite IH. destruct (String.eqb_spec n k) as [->|Hnk]; [|reflexivity].
      destruct (String.eqb_spec k m); [congruence | reflexivity].
Qed.

Lemma entry_lookup_snoc (n m : string) (x : node) (es : list (string * node)) :
  entry_lookup n (es ++ [(m, x)]) =
  match entry_lookup n es with
  | Some y => Some y
  | None => if String.eqb n m then Some x else None
  end.
Proof.
  induction es as [|[k y] es IH]; simpl; [reflexivity|].
  destruct (String.eqb n k); [reflexivity | exact IH].
Qed.

Lemma entry_lookup_put (n m : string) (x : node) (es : list (string * node)) :
  entry_lookup n (put_entry m x es) =
  if String.eqb n m then Some x else entry_lookup n es.
Proof.
  unfold put_entry. rewrite entry_lookup_snoc, entry_lookup_remove.
  destruct (String.eqb n m); [reflexivity | now destruct (entry_lookup n es)].
Qed.

Lemma entry_lookup_map_entry (n m : string) (g : node -> node)
    (es : list (string * node)) :
  entry_lookup n (map_entry m g es) =
  if String.eqb n m then option_map g (entry_lookup m es) else entry_lookup n es.
Proof.
  induction es as [|[k y] es IH]; simpl.
  - now destruct (String.eqb n m).
  - destruct (String.eqb_spec m k) as [->|Hmk]; simpl.
    + destruct (String.eqb n k); reflexivity.
    + rewrite IH. destruct (String.eqb_spec n k) as [->|Hnk]; [|reflexivity].
      destruct (String.eqb_spec k m); [congruence | reflexivity].
Qed.

Lemma map_fst_map_entry (m : string) (g : node -> node) (es : list (string * node)) :
  map fst (map_entry m g es) = map fst es.
Proof.
  induction es as [|[k y] es IH]; simpl; [reflexivity|].
  destruct (String.eqb m k); simpl; [reflexivity | now rewrite IH].
Qed.

Lemma resolve_app (t : node) (p r : path) :
  resolve t (p ++ r) =
  match resolve t p with Some x => resolve x r | None => None end.
Proof.
  revert t. induction p as [|a p IH]; intros t; simpl; [reflexivity|].
  destruct t as [d|es|tg]; [reflexivity| |reflexivity].
  destruct (entry_lookup a es); [apply IH | reflexivity].
Qed.

Lemma resolve_update_dir_below (f : list (string * node) -> list (string * node))
    (d r : path) :
  forall t es, resolve t d = Some (Dir es) ->
  resolve (update_dir t d f) (d ++ r) = resolve (Dir (f es)) r.
Proof.
  induction d as [|a d IH]; intros t es H.
  - simpl in H. injection H as ->. reflexivity.
  - destruct t as [x|es0|tg]; [discriminate| |discriminate]. simpl in H.
    destruct (entry_lookup a es0) as [child|] eqn:E; [|discriminate].
    change (resolve (Dir (map_entry a (fun c => update_dir c d f) es0))
              (a :: d ++ r) = resolve (Dir (f es)) r).
    simpl resolve at 1. rewrite entry_lookup_map_entry, String.eqb_refl, E. simpl.
    now apply IH.
Qed.

Lemma lstat_update_dir_off (f : list (string * node) -> list (string * node))
    (q : path) :
  forall t d, is_prefix d q = false -> lstat (update_dir t d f) q = lstat t q.
Proof.
  unfold lstat.
  induction q as [|b q IH]; intros t d H.
  - destruct d as [|a d]; [discriminate|]. destruct t; reflexivity.
  - destruct d as [|a d]; [discriminate|].
    destruct t as [x|es|tg]; [reflexivity| |reflexivity].
    simpl in H. simpl. rewrite entry_lookup_map_entry.
    destruct (String.eqb_spec b a) as [->|Hne].
    + rewrite String.eqb_refl in H. simpl in H.
      destruct (entry_lookup a es) as [child|]; simpl; [now apply IH | reflexivity].
    + reflexivity.
Qed.

Lemma listdir_update_dir_off (f : list (string * node) -> list (string * node))
    (q : path) :
  forall t d, is_prefix d q = false ->
  listdir_on (update_dir t d f) q = listdir_on t q.
Proof.
  unfold listdir_on.
  induction q as [|b q IH]; intros t d H.
  - destruct d as [|a d]; [discriminate|].
    destruct t; simpl; [reflexivity| |reflexivity].
    now rewrite map_fst_map_entry.
  - destruct d as [|a d]; [discriminate|].
    destruct t as [x|es|tg]; [reflexivity| |reflexivity].
    simpl in H. simpl. rewrite entry_lookup_map_entry.
    destruct (String.eqb_spec b a) as [->|Hne].
    + rewrite String.eqb_refl in H. simpl in H.
      destruct (entry_lookup a es) as [child|]; simpl; [now apply IH | reflexivity].
    + reflexivity.
Qed.

Lemma is_prefix_join_below (cd : path) (cn : string) (r : path) :
  is_prefix (os_path_join cd cn) (cd ++ r) =
  match r with n :: _ => String.eqb cn n | [] => false end.
Proof.
  unfold os_path_join. induction cd as [|a cd IH]; simpl.
  - destruct r; [reflexivity | apply andb_true_r].
  - now rewrite String.eqb_refl.
Qed.

Lemma is_prefix_weaken (d c q : path) :
  is_prefix d c = true -> is_prefix c q = true -> is_prefix d q = true.
Proof.
  rewrite !is_prefix_iff. intros [r ->] [s ->]. exists (r ++ s). now rewrite app_assoc.
Qed.

Lemma lstat_detach (cd : path) (cn : string) (t : node)
    (es : list (string * node)) (q : path) :
  resolve t cd = Some (Dir es) ->
  lstat (detach t (os_path_join cd cn)) q =
  if is_prefix (os_path_join cd cn) q then None else lstat t q.
Proof.
  intros H. unfold detach. rewrite dirname_join, basename_join.
  destruct (is_prefix cd q) eqn:Hcd.
  - apply is_prefix_iff in Hcd as [r ->]. rewrite is_prefix_join_below.
    unfold lstat. rewrite (resolve_update_dir_below _ _ r _ _ H), resolve_app, H.
    destruct r as [|n r]; [reflexivity|]. simpl. rewrite entry_lookup_remove.
    rewrite (String.eqb_sym cn n). now destruct (String.eqb n cn).
  - rewrite lstat_update_dir_off by exact Hcd.
    destruct (is_prefix (os_path_join cd cn) q) eqn:Hc; [|reflexivity].
    rewrite (is_prefix_weaken cd _ q (is_prefix_app cd [cn]) Hc) in Hcd. discriminate.
Qed.

Lemma listdir_detach_off (cd : path) (cn : string) (t : node) (q : path) :
  is_prefix cd q = false ->
  listdir_on (detach t (os_path_join cd cn)) q = listdir_on t q.
Proof.
  intros H. unfold detach. rewrite dirname_join. now apply listdir_update_dir_off.
Qed.

Lemma lstat_dir_resolve (t : node) (p : path) :
  lstat t p = Some KDir -> exists es, resolve t p = Some (Dir es).
Proof.
  unfold lstat. destruct (resolve t p) as [[d|es|tg]|]; simpl; try discriminate.
  intros _. now exists es.
Qed.

Lemma resolve_attach_below (P : path) (name : string) (t x : node) (r : path) :
  lstat t P = Some KDir ->
  resolve (attach t (os_path_join P name) x) (os_path_join P name ++ r) = resolve x r.
Proof.
  intros H. apply lstat_dir_resolve in H as [es H].
  unfold attach. rewrite dirname_join, basename_join.
  unfold os_path_join. rewrite <- app_assoc.
  rewrite (resolve_update_dir_below _ _ _ _ _ H). simpl.
  now rewrite entry_lookup_put, String.eqb_refl.
Qed.

Lemma lstat_attach_off (P : path) (name : string) (t x : node) (q : path) :
  lstat t P = Some KDir ->
  is_prefix (os_path_join P name) q = false ->
  lstat (attach t (os_path_join P name) x) q = lstat t q.
Proof.
  intros H Hq. pose proof H as H'. apply lstat_dir_resolve in H' as [es He].
  unfold attach. rewrite dirname_join, basename_join.
  destruct (is_prefix P q) eqn:HP.
  - apply is_prefix_iff in HP as [r ->]. rewrite is_prefix_join_below in Hq.
    unfold lstat. rewrite (resolve_update_dir_below _ _ r _ _ He), resolve_app, He.
    destruct r as [|n r]; [reflexivity|]. simpl. rewrite entry_lookup_put.
    rewrite String.eqb_sym in Hq. now rewrite Hq.
  - now apply lstat_update_dir_off.
Qed.

Lemma listdir_attach_off (P : path) (name : string) (t x : node) (q : path) :
  is_prefix P q = false ->
  listdir_on (attach t (os_path_join P name) x) q = listdir_on t q.
Proof.
  intros H. unfold attach. rewrite dirname_join. now apply listdir_update_dir_off.
Qed.

(** *** Unique names are kept by the updates *)

Lemma wf_entries_remove (n : string) (es : list (string * node)) :
  wf_entries es = true -> wf_entries (remove_entry n es) = true.
Proof.
  induction es as [|[k y] es IH]; [reflexivity|].
  rewrite wf_entries_cons, !andb_true_iff. intros [[Hk Hy] Hes].
  change (remove_entry n ((k, y) :: es))
    with (if negb (String.eqb n k) then (k, y) :: remove_entry n es
          else remove_entry n es).
  destruct (negb (String.eqb n k)); [|now apply IH].
  rewrite wf_entries_cons, !andb_true_iff. repeat split; [|exact Hy|now apply IH].
  rewrite entry_lookup_remove. destruct (String.eqb k n); [reflexivity | exact Hk].
Qed.

Lemma wf_entries_snoc (n : string) (x : node) (es : list (string * node)) :
  wf_entries es = true -> entry_lookup n es = None -> well_formed x = true ->
  wf_entries (es ++ [(n, x)]) = true.
Proof.
  induction es as [|[k y] es IH]; intros Hes Hn Hx.
  - simpl. now rewrite Hx.
  - rewrite wf_entries_cons, !andb_true_iff in Hes. destruct Hes as [[Hk Hy] Hes].
    simpl in Hn. destruct (String.eqb_spec n k) as [->|Hne]; [discriminate|].
    change (((k, y) :: es) ++ [(n, x)]) with ((k, y) :: (es ++ [(n, x)])).
    rewrite wf_entries_cons, !andb_true_iff. repeat split; [|exact Hy|now apply IH].
    rewrite entry_lookup_snoc. destruct (entry_lookup k es); [discriminate|].
    destruct (String.eqb_spec k n); [congruence | reflexivity].
Qed.

Lemma wf_entries_put (n : string) (x : node) (es : list (string * node)) :
  wf_entries es = true -> well_formed x = true ->
  wf_entries (put_entry n x es) = true.
Proof.
  intros Hes Hx. apply wf_entries_snoc; [now apply wf_entries_remove| |exact Hx].
  now rewrite entry_lookup_remove, String.eqb_refl.
Qed.

Lemma wf_entries_map_entry (a : string) (g : node -> node)
    (es : list (string * node)) :
  wf_entries es = true ->
  (forall x, entry_lookup a es = Some x -> well_formed (g x) = true) ->
  wf_entries (map_entry a g es) = true.
Proof.
  induction es as [|[k y] es IH]; [reflexivity|].
  rewrite wf_entries_cons, !andb_true_iff. intros [[Hk Hy] Hes] Hg. simpl in Hg |- *.
  destruct (String.eqb_spec a k) as [->|Hne].
  - rewrite wf_entries_cons, !andb_true_iff. repeat split; [exact Hk| |exact Hes].
    now apply Hg.
  - rewrite wf_entries_cons, !andb_true_iff. repeat split; [|exact Hy|now apply IH].
    rewrite entry_lookup_map_entry.
    destruct (String.eqb_spec k a); [congruence | exact Hk].
Qed.

Lemma well_formed_update_dir (f : list (string * node) -> list (string * node))
    (d : path) :
  (forall es, wf_entries es = true -> wf_entries (f es) = true) ->
  forall t, well_formed t = true -> well_formed (update_dir t d f) = true.
Proof.
  intros Hf. induction d as [|a d IH]; intros [x|es|tg] Ht; try exact Ht.
  - simpl. rewrite well_formed_Dir in *. now apply Hf.
  - change (wf_entries (map_entry a (fun c => update_dir c d f) es) = true).
    rewrite well_formed_Dir in Ht. apply wf_entries_map_entry; [exact Ht|].
    intros x Hx. apply IH. now apply (wf_entries_child a es).
Qed.

Lemma well_formed_resolve (p : path) :
  forall t x, well_formed t = true -> resolve t p = Some x -> well_formed x = true.
Proof.
  induction p as [|a p IH]; intros t x Ht H.
  - simpl in H. now injection H as <-.
  - destruct t as [d|es|tg]; [discriminate| |discriminate]. simpl in H.
    destruct (entry_lookup a es) as [child|] eqn:E; [|discriminate].
    apply (IH child); [|exact H]. now apply (wf_entries_child a es).
Qed.

(** *** What [os.stat] and [os.lstat] tell *)

Lemma stat_lstat (t : node) (p : path) (k : kind) :
  stat t p = Some k -> lstat t p = Some k.
Proof. unfold stat. now destruct (lstat t p) as [[| |]|]. Qed.

Lemma lstat_stat (t : node) (p : path) (k : kind) :
  lstat t p = Some k -> (forall tg, k <> KLink tg) -> stat t p = Some k.
Proof. unfold stat. intros -> H. destruct k; try reflexivity. now destruct (H target). Qed.

Lemma lstat_None_stat (t : node) (p : path) : lstat t p = None -> stat t p = None.
Proof. unfold stat. now intros ->. Qed.

Lemma lstat_below_None (t : node) (p r : path) :
  lstat t p = None -> lstat t (p ++ r) = None.
Proof.
  unfold lstat. rewrite resolve_app. now destruct (resolve t p).
Qed.

Lemma resolve_below_nondir (t : node) (p r : path) (x : node) :
  resolve t p = Some x -> is_dir_node x = false -> r <> [] ->
  resolve t (p ++ r) = None.
Proof.
  intros H Hx Hr. rewrite resolve_app, H.
  destruct r; [congruence|]. now destruct x.
Qed.

Lemma stat_below_None (t : node) (p r : path) :
  stat t p = None -> stat t (p ++ r) = None.
Proof.
  unfold stat, lstat. rewrite resolve_app. intros H.
  destruct (resolve t p) as [[d|es|tg]|]; simpl in *; try discriminate;
    try reflexivity.
  now destruct r.
Qed.

Lemma stat_below_file (t : node) (p r : path) (d : string) :
  stat t p = Some (KFile d) -> r <> [] -> stat t (p ++ r) = None.
Proof.
  unfold stat, lstat. rewrite resolve_app.
  destruct (resolve t p) as [[x|es|tg]|]; simpl; try discriminate.
  intros _ Hr. destruct r; [congruence | reflexivity].
Qed.

Lemma stat_exists (t : node) (p : path) :
  os_path_exists t p = match stat t p with Some _ => true | None => false end.
Proof.
  unfold os_path_exists, stat, lstat. now destruct (resolve t p) as [[| |]|].
Qed.

Lemma stat_isdir (t : node) (p : path) :
  os_path_isdir t p = match stat t p with Some KDir => true | _ => false end.
Proof.
  unfold os_path_isdir, stat, lstat. now destruct (resolve t p) as [[| |]|].
Qed.

Lemma lstat_isdir (t : node) (p : path) :
  os_path_isdir t p = match lstat t p with Some KDir => true | _ => false end.
Proof.
  unfold os_path_isdir, lstat. now destruct (resolve t p) as [[| |]|].
Qed.

Lemma stat_is_regular (t : node) (p : path) :
  is_regular t p = match stat t p with Some (KFile _) => true | _ => false end.
Proof.
  unfold is_regular, stat, lstat. now destruct (resolve t p) as [[| |]|].
Qed.

Lemma lstat_is_file (t : node) (p : path) :
  is_file t p =
  match lstat t p with Some (KFile _) | Some (KLink _) => true | _ => false end.
Proof.
  unfold is_file, lstat. now destruct (resolve t p) as [[| |]|].
Qed.

Lemma stat_dir_resolve (t : node) (p : path) :
  stat t p = Some KDir -> exists es, resolve t p = Some (Dir es).
Proof. intros H. apply lstat_dir_resolve. now apply stat_lstat. Qed.

Lemma stat_dir_lstat (t : node) (p : path) :
  stat t p = Some KDir <-> lstat t p = Some KDir.
Proof.
  split; [apply stat_lstat|]. intros H. apply lstat_stat; [exact H | discriminate].
Qed.

Lemma is_regular_is_file (t : node) (p : path) :
  is_regular t p = true -> is_file t p = true.
Proof. unfold is_regular, is_file. now destruct (resolve t p) as [[| |]|]. Qed.

(** *** Trees without links *)

Lemma no_links_Dir (es : list (string * node)) :
  no_links (Dir es) = forallb (fun e => no_links (snd e)) es.
Proof.
  induction es as [|[n x] es IH]; [reflexivity|].
  simpl in *. now rewrite <- IH.
Qed.

Lemma no_links_child (name : string) (es : list (string * node)) (x : node) :
  forallb (fun e => no_links (snd e)) es = true ->
  entry_lookup name es = Some x -> no_links x = true.
Proof.
  intros H E. apply entry_lookup_In in E.
  rewrite forallb_forall in H. exact (H _ E).
Qed.

Lemma no_links_resolve (p : path) :
  forall t x, no_links t = true -> resolve t p = Some x -> no_links x = true.
Proof.
  induction p as [|a p IH]; intros t x Ht H.
  - simpl in H. now injection H as <-.
  - destruct t as [d|es|tg]; [discriminate| |discriminate]. simpl in H.
    destruct (entry_lookup a es) as [child|] eqn:E; [|discriminate].
    apply (IH child); [|exact H]. rewrite no_links_Dir in Ht.
    now apply (no_links_child a es).
Qed.

Lemma no_links_map_entry (a : string) (g : node -> node)
    (es : list (string * node)) :
  forallb (fun e => no_links (snd e)) es = true ->
  (forall x, entry_lookup a es = Some x -> no_links (g x) = true) ->
  forallb (fun e => no_links (snd e)) (map_entry a g es) = true.
Proof.
  induction es as [|[k y] es IH]; [reflexivity|]. simpl.
  rewrite andb_true_iff. intros [Hy Hes] Hg.
  destruct (String.eqb a k); simpl; rewrite andb_true_iff; split;
    try assumption; [now apply Hg | now apply IH].
Qed.

Lemma no_links_update_dir (f : list (string * node) -> list (string * node))
    (d : path) :
  (forall es, forallb (fun e => no_links (snd e)) es = true ->
              forallb (fun e => no_links (snd e)) (f es) = true) ->
  forall t, no_links t = true -> no_links (update_dir t d f) = true.
Proof.
  intros Hf. induction d as [|a d IH]; intros [x|es|tg] Ht; try exact Ht.
  - change (no_links (Dir (f es)) = true). rewrite no_links_Dir in *. now apply Hf.
  - change (no_links (Dir (map_entry a (fun c => update_dir c d f) es)) = true).
    rewrite no_links_Dir in *. apply no_links_map_entry; [exact Ht|].
    intros x Hx. apply IH. now apply (no_links_child a es).
Qed.

Lemma no_links_remove (n : string) (es : list (string * node)) :
  forallb (fun e => no_links (snd e)) es = true ->
  forallb (fun e => no_links (snd e)) (remove_entry n es) = true.
Proof.
  rewrite !forallb_forall. intros H e He. apply H.
  unfold remove_entry in He. now apply filter_In in He.
Qed.

Lemma no_links_put (n : string) (x : node) (es : list (string * node)) :
  no_links x = true ->
  forallb (fun e => no_links (snd e)) es = true ->
  forallb (fun e => no_links (snd e)) (put_entry n x es) = true.
Proof.
  intros Hx Hes. unfold put_entry. rewrite forallb_app, no_links_remove by exact Hes.
  simpl. now rewrite Hx.
Qed.

Lemma no_links_lstat (t : node) (p : path) (tg : string) :
  no_links t = true -> lstat t p <> Some (KLink tg).
Proof.
  intros Ht H. unfold lstat in H.
  destruct (resolve t p) as [x|] eqn:E; [|discriminate].
  apply (no_links_resolve p t x Ht) in E. destruct x; simpl in *; congruence.
Qed.

Lemma no_links_stat (t : node) (p : path) :
  no_links t = true -> stat t p = lstat t p.
Proof.
  intros Ht. unfold stat. destruct (lstat t p) as [[| |tg]|] eqn:E; try reflexivity.
  now destruct (no_links_lstat t p tg Ht).
Qed.

Lemma no_links_is_file (t : node) (p : path) :
  no_links t = true -> is_file t p = is_regular t p.
Proof.
  intros Ht. rewrite lstat_is_file, stat_is_regular, (no_links_stat t p Ht).
  destruct (lstat t p) as [[| |tg]|] eqn:E; try reflexivity.
  now destruct (no_links_lstat t p tg Ht).
Qed.

(** *** One entry taken to the top of a directory *)

Lemma is_prefix_join_cases (c P : path) (n : string) :
  is_prefix c (os_path_join P n) = true ->
  c = os_path_join P n \/ is_prefix c P = true.
Proof.
  intros H. apply is_prefix_iff in H as [r Hr].
  destruct r as [|b r0] eqn:Er.
  - left. now rewrite app_nil_r in Hr.
  - right. rewrite <- Er in Hr.
    destruct (@exists_last _ r) as (r' & x & E); [rewrite Er; discriminate|].
    rewrite E in Hr. unfold os_path_join in Hr. rewrite app_assoc in Hr.
    apply app_inj_tail in Hr as [-> _]. apply is_prefix_app.
Qed.

Lemma is_prefix_strict (p q : path) :
  is_prefix p q = true -> path_eqb q p = false ->
  exists r, r <> [] /\ q = p ++ r.
Proof.
  intros H Hne. apply is_prefix_iff in H as [r ->]. exists r. split; [|reflexivity].
  intros ->. now rewrite app_nil_r, path_eqb_refl in Hne.
Qed.

Lemma lstat_below_free (t : node) (d r : path) :
  resolve t d = None \/ (exists tg, resolve t d = Some (Link tg)) ->
  r <> [] -> lstat t (d ++ r) = None.
Proof.
  intros H Hr. unfold lstat. rewrite resolve_app.
  destruct H as [->|[tg ->]]; [reflexivity|]. now destruct r.
Qed.

Lemma lstat_below_nondir (t : node) (p r : path) (x : node) :
  resolve t p = Some x -> is_dir_node x = false -> r <> [] ->
  lstat t (p ++ r) = None.
Proof.
  intros H Hx Hr. unfold lstat. now rewrite (resolve_below_nondir t p r x H Hx Hr).
Qed.

(** [os.lstat] after an entry that is not a directory was put at
    [P/name]. *)
Lemma lstat_attach (P : path) (name : string) (t y : node) (q : path) :
  lstat t P = Some KDir -> is_dir_node y = false ->
  lstat (attach t (os_path_join P name) y) q =
  if path_eqb q (os_path_join P name) then Some (kind_of y)
  else if is_prefix (os_path_join P name) q then None
  else lstat t q.
Proof.
  intros HP Hy. destruct (is_prefix (os_path_join P name) q) eqn:Hq.
  - apply is_prefix_iff in Hq as [r ->].
    unfold lstat at 1. rewrite (resolve_attach_below P name t y r HP).
    destruct r as [|b r].
    + now rewrite app_nil_r, path_eqb_refl.
    + replace (path_eqb (os_path_join P name ++ b :: r) (os_path_join P name))
        with false.
      * now destruct y.
      * symmetry. apply path_eqb_neq. intros E.
        apply (f_equal (@List.length string)) in E. rewrite length_app in E.
        simpl in E. lia.
  - rewrite (lstat_attach_off P name t y q HP Hq).
    replace (path_eqb q (os_path_join P name)) with false; [reflexivity|].
    symmetry. apply path_eqb_neq. intros ->. now rewrite is_prefix_refl in Hq.
Qed.

Lemma left_behind_nondir (x y : node) :
  left_behind x y -> is_dir_node y = false.
Proof. destruct x, y; simpl; now try intros []. Qed.

Lemma source_above (t : node) (c P : path) (x : node) :
  resolve t c = Some x -> is_dir_node x = false ->
  c <> os_path_join P (os_path_basename c) ->
  lstat t P = Some KDir ->
  exists cd cn es,
    c = os_path_join cd cn /\ resolve t cd = Some (Dir es) /\
    is_prefix c P = false /\
    is_prefix c (os_path_join P (os_path_basename c)) = false.
Proof.
  intros Hc Hx Hne HP.
  assert (HcP : is_prefix c P = false).
  { destruct (is_prefix c P) eqn:Hp; [|reflexivity].
    apply is_prefix_iff in Hp as [r ->]. exfalso. destruct r as [|b r].
    - rewrite app_nil_r in HP. unfold lstat in HP. rewrite Hc in HP.
      destruct x; discriminate.
    - rewrite (lstat_below_nondir t c (b :: r) x Hc Hx) in HP by discriminate.
      discriminate. }
  assert (Hn : c <> []).
  { intros ->. now destruct P. }
  exists (os_path_dirname c), (os_path_basename c).
  pose proof (path_split_last c Hn) as Hs.
  rewrite Hs in Hc at 1. unfold os_path_join in Hc. rewrite resolve_app in Hc.
  destruct (resolve t (os_path_dirname c)) as [[y|es|tg]|] eqn:E; try discriminate.
  exists es. repeat split; [exact Hs | exact HcP|].
  destruct (is_prefix c (os_path_join P (os_path_basename c))) eqn:Hp; [|reflexivity].
  apply is_prefix_join_cases in Hp as [Hp|Hp]; congruence.
Qed.

Lemma relocated_source (t : node) (c P : path) (t' : node) :
  relocated t c P t' ->
  exists cd cn es,
    c = os_path_join cd cn /\ resolve t cd = Some (Dir es) /\
    is_prefix c P = false /\
    is_prefix c (os_path_join P (os_path_basename c)) = false.
Proof.
  intros [(x & Hc & Hx & Hne & HP & _)|(x & y & Hc & Hx & Hne & HP & _)];
    now apply (source_above t c P x).
Qed.

(** What [os.lstat] tells after the entry went: the destination holds it,
    the source is gone, nothing else has changed. *)
Lemma moved_to_top_lstat (t : node) (c P : path) (t' : node) :
  moved_to_top t c P t' ->
  let d := os_path_join P (os_path_basename c) in
  exists x : node,
    resolve t c = Some x /\ is_dir_node x = false /\
    (resolve t d = None \/ exists tg, resolve t d = Some (Link tg)) /\
    forall q, lstat t' q =
      if path_eqb q d then Some (kind_of x)
      else if path_eqb q c then None
      else lstat t q.
Proof.
  intros (x & Hc & Hx & Hne & HP & Hshape) d.
  destruct (source_above t c P x Hc Hx Hne HP) as (cd & cn & es & Ec & Hcd & HcP & Hcdst).
  fold d in Hne, Hshape, Hcdst.
  assert (Below : forall q, is_prefix c q = true -> path_eqb q c = false ->
                            lstat t q = None).
  { intros q H1 H2. destruct (is_prefix_strict c q H1 H2) as (r & Hr & ->).
    now apply (lstat_below_nondir t c r x). }
  exists x. split; [exact Hc|]. split; [exact Hx|].
  destruct Hshape as [[Hd ->]|[Hd ->]].
  - (* renamed *)
    split; [exact Hd|].
    intros q. unfold d at 1.
    assert (HP1 : lstat (detach t c) P = Some KDir).
    { rewrite Ec, (lstat_detach cd cn t es P Hcd), <- Ec, HcP. exact HP. }
    rewrite (lstat_attach P _ _ x q HP1 Hx). fold d.
    rewrite Ec, (lstat_detach cd cn t es q Hcd), <- Ec.
    destruct (path_eqb q d) eqn:E1; [reflexivity|].
    destruct (is_prefix d q) eqn:E2.
    + destruct (is_prefix_strict d q E2 E1) as (r & Hr & ->).
      rewrite (lstat_below_free t d r Hd Hr). now destruct (path_eqb (d ++ r) c).
    + destruct (path_eqb q c) eqn:E3.
      * apply path_eqb_eq in E3 as ->. now rewrite is_prefix_refl.
      * destruct (is_prefix c q) eqn:E4; [|reflexivity]. symmetry. now apply Below.
  - (* copied and removed *)
    split; [now left|].
    intros q.
    assert (Hcd1 : lstat (attach t d x) cd = Some KDir).
    { unfold d. rewrite (lstat_attach P _ t x cd HP Hx). fold d.
      assert (Hp : is_prefix d cd = false).
      { destruct (is_prefix d cd) eqn:E; [|reflexivity].
        apply is_prefix_iff in E as [r Er]. exfalso.
        rewrite Ec, Er in Hc. unfold os_path_join in Hc.
        rewrite <- app_assoc, resolve_app, Hd in Hc. discriminate. }
      rewrite Hp. replace (path_eqb cd d) with false.
      - unfold lstat. now rewrite Hcd.
      - symmetry. apply path_eqb_neq. intros ->. now rewrite is_prefix_refl in Hp. }
    apply lstat_dir_resolve in Hcd1 as [es1 Hcd1].
    rewrite Ec at 1. rewrite (lstat_detach cd cn _ es1 q Hcd1), <- Ec.
    unfold d at 1. rewrite (lstat_attach P _ t x q HP Hx). fold d.
    destruct (path_eqb q d) eqn:E1.
    + apply path_eqb_eq in E1 as ->. now rewrite Hcdst.
    + destruct (path_eqb q c) eqn:E3.
      * apply path_eqb_eq in E3 as ->. now rewrite is_prefix_refl.
      * destruct (is_prefix c q) eqn:E4; [symmetry; now apply Below|].
        destruct (is_prefix d q) eqn:E2; [|reflexivity].
        destruct (is_prefix_strict d q E2 E1) as (r & Hr & ->).
        symmetry. apply lstat_below_free; [now left | exact Hr].
Qed.

(** What [os.lstat] tells after a copy was left: the destination holds it,
    nothing else has changed. *)
Lemma copy_left_lstat (t : node) (c P : path) (t' : node) :
  copy_left t c P t' ->
  let d := os_path_join P (os_path_basename c) in
  exists x y : node,
    resolve t c = Some x /\ is_dir_node x = false /\
    left_behind x y /\ resolve t d = None /\
    forall q, lstat t' q = if path_eqb q d then Some (kind_of y) else lstat t q.
Proof.
  intros (x & y & Hc & Hx & Hne & HP & Hd & Hy & ->) d. fold d in Hd.
  pose proof (left_behind_nondir x y Hy) as Hy'.
  exists x, y. repeat split; try assumption.
  intros q. unfold d at 1. rewrite (lstat_attach P _ t y q HP Hy'). fold d.
  destruct (path_eqb q d) eqn:E1; [reflexivity|].
  destruct (is_prefix d q) eqn:E2; [|reflexivity].
  destruct (is_prefix_strict d q E2 E1) as (r & Hr & ->).
  symmetry. apply lstat_below_free; [now left | exact Hr].
Qed.

Lemma relocated_lstat (t : node) (c P : path) (t' : node) :
  relocated t c P t' ->
  let d := os_path_join P (os_path_basename c) in
  exists (x y : node) (gone : bool),
    resolve t c = Some x /\ is_dir_node x = false /\ is_dir_node y = false /\
    (gone = true -> y = x) /\
    (gone = false -> left_behind x y /\ resolve t d = None) /\
    (resolve t d = None \/ exists tg, resolve t d = Some (Link tg)) /\
    forall q, lstat t' q =
      if path_eqb q d then Some (kind_of y)
      else if gone && path_eqb q c then None
      else lstat t q.
Proof.
  intros [Hm|Hm] d.
  - destruct (moved_to_top_lstat _ _ _ _ Hm) as (x & Hc & Hx & Hd & Hq).
    exists x, x, true. repeat split; try assumption; discriminate.
  - destruct (copy_left_lstat _ _ _ _ Hm) as (x & y & Hc & Hx & Hy & Hd & Hq).
    exists x, y, false. repeat split; try assumption; try discriminate;
      [now apply (left_behind_nondir x) | now left].
Qed.

Lemma nondir_well_formed (x : node) : is_dir_node x = false -> well_formed x = true.
Proof. now destruct x. Qed.

Lemma well_formed_attach (t : node) (p : path) (y : node) :
  is_dir_node y = false -> well_formed t = true -> well_formed (attach t p y) = true.
Proof.
  intros Hy Ht. unfold attach.
  apply well_formed_update_dir; [|exact Ht].
  intros es Hes. apply wf_entries_put; [exact Hes | now apply nondir_well_formed].
Qed.

Lemma well_formed_detach (t : node) (p : path) :
  well_formed t = true -> well_formed (detach t p) = true.
Proof.
  intros Ht. unfold detach.
  apply well_formed_update_dir; [|exact Ht].
  intros es Hes. now apply wf_entries_remove.
Qed.

Lemma relocated_well_formed (t : node) (c P : path) (t' : node) :
  relocated t c P t' -> well_formed t = true -> well_formed t' = true.
Proof.
  intros [(x & _ & Hx & _ & _ & [[_ ->]|[_ ->]])|(x & y & _ & _ & _ & _ & _ & Hy & ->)] Ht.
  - apply well_formed_attach; [exact Hx|]. now apply well_formed_detach.
  - apply well_formed_detach. now apply well_formed_attach.
  - apply well_formed_attach; [|exact Ht]. now apply (left_behind_nondir x).
Qed.

Lemma no_links_attach (t : node) (p : path) (y : node) :
  no_links y = true -> no_links t = true -> no_links (attach t p y) = true.
Proof.
  intros Hy Ht. unfold attach. apply no_links_update_dir; [|exact Ht].
  intros es Hes. now apply no_links_put.
Qed.

Lemma no_links_detach (t : node) (p : path) :
  no_links t = true -> no_links (detach t p) = true.
Proof.
  intros Ht. unfold detach. apply no_links_update_dir; [|exact Ht].
  intros es Hes. now apply no_links_remove.
Qed.

Lemma relocated_no_links (t : node) (c P : path) (t' : node) :
  relocated t c P t' -> no_links t = true -> no_links t' = true.
Proof.
  intros [(x & Hc & Hx & _ & _ & Hshape)|(x & y & Hc & _ & _ & _ & _ & Hy & ->)] Ht.
  - pose proof (no_links_resolve c t x Ht Hc) as Hlx.
    destruct Hshape as [[_ ->]|[_ ->]].
    + apply no_links_attach; [exact Hlx|]. now apply no_links_detach.
    + apply no_links_detach. now apply no_links_attach.
  - pose proof (no_links_resolve c t x Ht Hc) as Hlx.
    apply no_links_attach; [|exact Ht]. now destruct x, y.
Qed.

Lemma relocated_listdir (t : node) (c P : path) (t' : node) (q : path) :
  relocated t c P t' ->
  is_prefix (os_path_dirname c) q = false -> is_prefix P q = false ->
  listdir_on t' q = listdir_on t q.
Proof.
  intros Hm Hc HP.
  destruct (relocated_source _ _ _ _ Hm) as (cd & cn & es & Ec & _).
  destruct Hm as [(x & _ & _ & _ & _ & [[_ ->]|[_ ->]])|(x & y & _ & _ & _ & _ & _ & _ & ->)].
  - rewrite listdir_attach_off by exact HP.
    rewrite Ec in Hc |- *. rewrite dirname_join in Hc. now apply listdir_detach_off.
  - rewrite Ec in Hc |- *. rewrite dirname_join in Hc.
    rewrite listdir_detach_off by exact Hc. now apply listdir_attach_off.
  - now apply listdir_attach_off.
Qed.

(** The same, as [os.stat] sees it: a link is nothing for it. *)
Lemma relocated_stat (t : node) (c P : path) (t' : node) :
  relocated t c P t' ->
  let d := os_path_join P (os_path_basename c) in
  exists (ky : option kind) (gone : bool),
    stat t d = None /\
    (stat t c = None \/ exists data, stat t c = Some (KFile data)) /\
    (gone = true -> ky = stat t c) /\
    (gone = false ->
     ky = None \/
     exists data s, stat t c = Some (KFile data) /\ ky = Some (KFile s) /\
                    begins s data) /\
    forall q, stat t' q =
      if path_eqb q d then ky
      else if gone && path_eqb q c then None
      else stat t q.
Proof.
  intros Hm d.
  destruct (relocated_lstat _ _ _ _ Hm) as (x & y & gone & Hc & Hx & Hy & G1 & G0 & Hd & Hq).
  fold d in G0, Hd, Hq.
  exists (match y with File s => Some (KFile s) | _ => None end), gone.
  assert (Sc : stat t c = match x with File s => Some (KFile s) | _ => None end).
  { unfold stat, lstat. rewrite Hc. now destruct x. }
  repeat split.
  - unfold stat, lstat. now destruct Hd as [->|[tg ->]].
  - rewrite Sc. destruct x as [data| |]; [right; now exists data | discriminate | now left].
  - intros Hg. rewrite Sc. now rewrite (G1 Hg).
  - intros Hg. destruct (G0 Hg) as [Hl _]. rewrite Sc.
    destruct x as [data| |], y as [s| |]; simpl in Hl; try contradiction;
      try discriminate; [right; now exists data, s | left; reflexivity].
  - intros q. unfold stat at 1. rewrite Hq.
    destruct (path_eqb q d); [now destruct y|].
    destruct (gone && path_eqb q c); reflexivity.
Qed.

Lemma relocated_isdir (t : node) (c P : path) (t' : node) (q : path) :
  relocated t c P t' -> os_path_isdir t' q = os_path_isdir t q.
Proof.
  intros Hm.
  destruct (relocated_stat _ _ _ _ Hm) as (ky & gone & Hd & Hc & G1 & G0 & Hq).
  rewrite !stat_isdir, Hq.
  destruct (path_eqb q (os_path_join P (os_path_basename c))) eqn:E1.
  - apply path_eqb_eq in E1 as ->. rewrite Hd.
    destruct gone.
    + rewrite (G1 eq_refl). now destruct Hc as [->|[data ->]].
    + now destruct (G0 eq_refl) as [->|(data & s & _ & -> & _)].
  - destruct gone; simpl; [|reflexivity].
    destruct (path_eqb q c) eqn:E2; [|reflexivity].
    apply path_eqb_eq in E2 as ->. now destruct Hc as [->|[data ->]].
Qed.

Lemma relocated_absent_dest (t : node) (c P : path) (t' : node) :
  relocated t c P t' -> stat t (os_path_join P (os_path_basename c)) = None.
Proof. intros Hm. now destruct (relocated_stat _ _ _ _ Hm) as (ky & gone & Hd & _). Qed.

(** Reading [stat] after one relocation, case by case on the path. *)
Ltac stat_after_move Hq :=
  rewrite ?Hq;
  repeat match goal with
  | |- context [path_eqb ?a ?b] =>
      let E := fresh "E" in
      destruct (path_eqb a b) eqn:E;
      [apply path_eqb_eq in E | apply path_eqb_neq in E]
  end.

Lemma relocated_elsewhere (t : node) (c P : path) (t' : node) (q : path) :
  relocated t c P t' ->
  q <> c -> q <> os_path_join P (os_path_basename c) -> stat t' q = stat t q.
Proof.
  intros Hm H1 H2.
  destruct (relocated_stat _ _ _ _ Hm) as (ky & gone & _ & _ & _ & _ & Hq).
  stat_after_move Hq; try congruence. now destruct gone.
Qed.

(** A path that exists keeps what it holds through the relocation of
    another candidate. *)
Lemma relocated_keeps (t : node) (c P : path) (t' : node) (q : path) (k : kind) :
  relocated t c P t' -> stat t q = Some k -> q <> c -> stat t' q = Some k.
Proof.
  intros Hm Hk Hne. rewrite (relocated_elsewhere _ _ _ _ q Hm Hne); [exact Hk|].
  intros ->. rewrite (relocated_absent_dest _ _ _ _ Hm) in Hk. discriminate.
Qed.

(** The source keeps what it holds, or is gone. *)
Lemma relocated_at_source (t : node) (c P : path) (t' : node) :
  relocated t c P t' -> stat t' c = stat t c \/ stat t' c = None.
Proof.
  intros Hm.
  assert (Hne : c <> os_path_join P (os_path_basename c)).
  { now destruct Hm as [(x & _ & _ & Hne & _)|(x & y & _ & _ & Hne & _)]. }
  destruct (relocated_stat _ _ _ _ Hm) as (ky & gone & _ & _ & _ & _ & Hq).
  rewrite Hq. replace (path_eqb c (os_path_join P (os_path_basename c))) with false.
  - rewrite path_eqb_refl. destruct gone; [now right | now left].
  - symmetry. now apply path_eqb_neq.
Qed.

(** Once a destination holds something, no later relocation of the batch
    changes it, and a candidate with that destination stays as it is. *)
Lemma relocated_settled (t : node) (c P : path) (t' : node) (q : path) (k : kind) :
  relocated t c P t' ->
  stat t (os_path_join P (os_path_basename q)) = Some k ->
  stat t' (os_path_join P (os_path_basename q)) = Some k /\ stat t' q = stat t q.
Proof.
  intros Hm Hk. pose proof (relocated_absent_dest _ _ _ _ Hm) as Hd.
  assert (Hqc : q <> c) by (intros ->; congruence).
  split.
  - apply (relocated_keeps _ _ _ _ _ _ Hm Hk).
    intros E. rewrite <- E, basename_join in Hd. congruence.
  - destruct (stat t q) eqn:Sq.
    + now apply (relocated_keeps _ _ _ _ _ _ Hm Sq).
    + destruct (path_eqb q (os_path_join P (os_path_basename c))) eqn:E.
      * apply path_eqb_eq in E. subst q. rewrite basename_join in Hk. congruence.
      * apply path_eqb_neq in E.
        rewrite (relocated_elsewhere _ _ _ _ q Hm Hqc E). exact Sq.
Qed.

Lemma moved_to_top_stat (t : node) (c P : path) (t' : node) :
  moved_to_top t c P t' ->
  let d := os_path_join P (os_path_basename c) in
  stat t d = None /\
  forall q, stat t' q =
    if path_eqb q d then stat t c
    else if path_eqb q c then None
    else stat t q.
Proof.
  intros Hm d. destruct (moved_to_top_lstat _ _ _ _ Hm) as (x & Hc & Hx & Hd & Hq).
  fold d in Hd, Hq. split.
  - unfold stat, lstat. now destruct Hd as [->|[tg ->]].
  - intros q. unfold stat at 1. rewrite Hq.
    destruct (path_eqb q d); [unfold stat, lstat; now rewrite Hc|].
    now destruct (path_eqb q c).
Qed.


(** *** Two updates of one directory *)

Lemma map_entry_ext (a : string) (g1 g2 : node -> node) (es : list (string * node)) :
  (forall x, g1 x = g2 x) -> map_entry a g1 es = map_entry a g2 es.
Proof.
  intros H. induction es as [|[k y] es IH]; simpl; [reflexivity|].
  destruct (String.eqb a k); [now rewrite H | now rewrite IH].
Qed.

Lemma map_entry_twice (a : string) (g1 g2 : node -> node) (es : list (string * node)) :
  map_entry a g2 (map_entry a g1 es) = map_entry a (fun x => g2 (g1 x)) es.
Proof.
  induction es as [|[k y] es IH]; simpl; [reflexivity|].
  destruct (String.eqb a k) eqn:E; simpl; rewrite E; [reflexivity | now rewrite IH].
Qed.

Lemma update_dir_ext (f g : list (string * node) -> list (string * node)) (d : path) :
  (forall es, f es = g es) -> forall t, update_dir t d f = update_dir t d g.
Proof.
  intros H. induction d as [|a d IH]; intros [x|es|tg]; simpl; try reflexivity.
  - now rewrite H.
  - f_equal. now apply map_entry_ext.
Qed.

Lemma update_dir_twice (f g : list (string * node) -> list (string * node)) (d : path) :
  forall t, update_dir (update_dir t d f) d g = update_dir t d (fun es => g (f es)).
Proof.
  induction d as [|a d IH]; intros [x|es|tg]; simpl; try reflexivity.
  f_equal. rewrite map_entry_twice. now apply map_entry_ext.
Qed.

Lemma remove_entry_twice (n : string) (es : list (string * node)) :
  remove_entry n (remove_entry n es) = remove_entry n es.
Proof.
  unfold remove_entry. induction es as [|[k y] es IH]; simpl; [reflexivity|].
  destruct (negb (String.eqb n k)) eqn:E; simpl; [rewrite E|]; now rewrite IH.
Qed.

Lemma put_entry_twice (n : string) (x y : node) (es : list (string * node)) :
  put_entry n y (put_entry n x es) = put_entry n y es.
Proof.
  unfold put_entry, remove_entry at 1. rewrite filter_app. simpl.
  rewrite String.eqb_refl. simpl. rewrite app_nil_r.
  fold (remove_entry n (remove_entry n es)). now rewrite remove_entry_twice.
Qed.

(** Writing again to the file just created gives the file with the new
    content. *)
Lemma attach_twice (t : node) (p : path) (x y : node) :
  attach (attach t p x) p y = attach t p y.
Proof.
  unfold attach. rewrite update_dir_twice. apply update_dir_ext.
  intros es. apply put_entry_twice.
Qed.

(** A path that holds nothing still holds nothing afterwards, unless it is
    the destination. *)
Lemma relocated_absent (t : node) (c P : path) (t' : node) (q : path) :
  relocated t c P t' -> stat t q = None ->
  q <> os_path_join P (os_path_basename c) -> stat t' q = None.
Proof.
  intros Hm Hq Hne.
  destruct (relocated_stat _ _ _ _ Hm) as (ky & gone & _ & _ & _ & _ & H).
  rewrite H. replace (path_eqb q (os_path_join P (os_path_basename c))) with false
    by (symmetry; now apply path_eqb_neq).
  now destruct (gone && path_eqb q c).
Qed.

Lemma relocated_target_dir (t : node) (c P : path) (t' : node) :
  relocated t c P t' -> stat t P = Some KDir.
Proof.
  intros [(x & _ & _ & _ & HP & _)|(x & y & _ & _ & _ & HP & _)];
    now apply stat_dir_lstat.
Qed.

Lemma relocated_keeps_dir (t : node) (c P : path) (t' : node) (q : path) :
  relocated t c P t' -> stat t q = Some KDir -> stat t' q = Some KDir.
Proof.
  intros Hm Hq. pose proof (relocated_isdir _ _ _ _ q Hm) as H.
  rewrite !stat_isdir, Hq in H. now destruct (stat t' q) as [[| |]|].
Qed.
(** ** The monad and the calls *)

Lemma next_fault_fs (w : world) : fs (snd (next_fault w)) = fs w.
Proof. unfold next_fault. now destruct (oracle w). Qed.

Lemma next_fault_events (w : world) : events (snd (next_fault w)) = events w.
Proof. unfold next_fault. now destruct (oracle w). Qed.

Lemma next_fault_quiet (w : world) :
  oracle w = [] -> next_fault w = (None, w).
Proof. unfold next_fault. now intros ->. Qed.

Lemma next_fault_inner (w : world) : inner w (snd (next_fault w)).
Proof.
  split; [apply next_fault_events|]. intros H. now rewrite (next_fault_quiet w H).
Qed.

Lemma inner_refl (w : world) : inner w w.
Proof. now split. Qed.

Lemma inner_trans (w1 w2 w3 : world) : inner w1 w2 -> inner w2 w3 -> inner w1 w3.
Proof. intros [E1 Q1] [E2 Q2]. split; [congruence | auto]. Qed.

Lemma call_inv {A : Type} (f : node -> exn + (A * node)) (w w' : world)
    (r : result A) :
  call f w = (r, w') ->
  inner w w' /\
  match r with
  | Ok a => f (fs w) = inr (a, fs w')
  | Raise _ => fs w' = fs w
  end.
Proof.
  unfold call. pose proof (next_fault_inner w) as Hi. pose proof (next_fault_fs w) as Hf.
  destruct (next_fault w) as [flt w1]. simpl in Hi, Hf.
  destruct flt as [e|]; [now intros [= <- <-]|].
  rewrite Hf. destruct (f (fs w)) as [e|[a t']]; intros [= <- <-];
    [now split|].
  split; [|reflexivity]. destruct Hi as [E Q]. split; [exact E | exact Q].
Qed.

Lemma call_quiet {A : Type} (f : node -> exn + (A * node)) (w : world) :
  oracle w = [] ->
  call f w =
  match f (fs w) with
  | inr (a, t') => (Ok a, mkWorld t' [] (events w))
  | inl e => (Raise e, w)
  end.
Proof.
  intros H. unfold call. rewrite (next_fault_quiet w H).
  destruct (f (fs w)) as [e|[a t']]; [reflexivity | now rewrite H].
Qed.

Lemma effect_inv (f : node -> exn + node) (w w' : world) (r : result unit) :
  effect f w = (r, w') ->
  inner w w' /\
  match r with
  | Ok _ => f (fs w) = inr (fs w')
  | Raise _ => fs w' = fs w
  end.
Proof.
  intros H. apply call_inv in H as [Hi H]. split; [exact Hi|].
  destruct r as [a|e]; [|exact H].
  destruct (f (fs w)) as [e|t']; [discriminate|]. injection H as _ <-. reflexivity.
Qed.

Lemma effect_quiet (f : node -> exn + node) (w : world) :
  oracle w = [] ->
  effect f w =
  match f (fs w) with
  | inr t' => (Ok tt, mkWorld t' [] (events w))
  | inl e => (Raise e, w)
  end.
Proof.
  intros H. unfold effect. rewrite (call_quiet _ w H). now destruct (f (fs w)).
Qed.

Lemma query_inv {A : Type} (f : node -> exn + A) (w w' : world) (r : result A) :
  query f w = (r, w') ->
  inner w w' /\ fs w' = fs w /\
  match r with
  | Ok a => f (fs w) = inr a
  | Raise _ => True
  end.
Proof.
  intros H. apply call_inv in H as [Hi H]. split; [exact Hi|].
  destruct r as [a|e]; [|now split].
  destruct (f (fs w)) as [e|a']; [discriminate|]. now injection H as <- <-.
Qed.

Lemma query_quiet {A : Type} (f : node -> exn + A) (w : world) :
  oracle w = [] ->
  query f w =
  match f (fs w) with
  | inr a => (Ok a, mkWorld (fs w) [] (events w))
  | inl e => (Raise e, w)
  end.
Proof.
  intros H. unfold query. rewrite (call_quiet _ w H). now destruct (f (fs w)).
Qed.

(** *** Copying a file *)

Lemma str_app_nil_r (s : string) : (s ++ "")%string = s.
Proof. induction s as [|a s IH]; simpl; [reflexivity | now rewrite IH]. Qed.

Lemma str_app_assoc (a b c : string) : ((a ++ b) ++ c = a ++ (b ++ c))%string.
Proof. induction a as [|x a IH]; simpl; [reflexivity | now rewrite IH]. Qed.

Lemma begins_refl (s : string) : begins s s.
Proof. exists EmptyString. now rewrite str_app_nil_r. Qed.

Lemma begins_nil (s : string) : begins EmptyString s.
Proof. now exists s. Qed.

Lemma copyfileobj_inv (dst : path) (rest : string) :
  forall (written : string) (w w' : world) (r : result unit) (t0 : node),
    fs w = attach t0 dst (File written) ->
    copyfileobj dst written rest w = (r, w') ->
    inner w w' /\
    exists s, begins s rest /\
              fs w' = attach t0 dst (File (written ++ s)) /\
              match r with Ok _ => s = rest | Raise _ => True end.
Proof.
  induction rest as [|ch rest IH]; intros written w w' r t0 Hw H; simpl in H.
  - unfold ret in H. injection H as <- <-. split; [apply inner_refl|].
    exists EmptyString. rewrite str_app_nil_r. repeat split; [apply begins_refl | exact Hw].
  - unfold bind in H.
    destruct (effect _ w) as [[u|e] w1] eqn:E1.
    + apply effect_inv in E1 as [Hi E1]. injection E1 as E1.
      rewrite Hw, attach_twice in E1.
      destruct (IH _ w1 w' r t0 (eq_sym E1) H) as (Hi2 & s & Hs & Hfs & Hr).
      split; [exact (inner_trans _ _ _ Hi Hi2)|].
      exists (String ch s). repeat split.
      * destruct Hs as [rest' ->]. now exists rest'.
      * rewrite Hfs, str_app_assoc. reflexivity.
      * destruct r; [now rewrite Hr | exact I].
    + injection H as <- <-. apply effect_inv in E1 as [Hi E1].
      split; [exact Hi|]. exists EmptyString. rewrite str_app_nil_r.
      repeat split; [apply begins_nil | now rewrite E1].
Qed.

Lemma copyfileobj_quiet (dst : path) (rest : string) :
  forall (written : string) (w : world),
    oracle w = [] -> exists w', copyfileobj dst written rest w = (Ok tt, w').
Proof.
  induction rest as [|ch rest IH]; intros written w Hq; simpl.
  - now exists w.
  - unfold bind. rewrite effect_quiet by exact Hq. now apply IH.
Qed.

Lemma open_write_on_ok (dst : path) (t t1 : node) :
  open_write_on dst t = inr t1 -> t1 = attach t dst (File EmptyString).
Proof.
  unfold open_write_on.
  destruct (resolve t dst) as [[d|es|tg]|]; try discriminate; [now intros [= <-]|].
  destruct (parent_error t dst); [discriminate | now intros [= <-]].
Qed.

Lemma open_write_on_free (dst : path) (t t1 : node) :
  open_write_on dst t = inr t1 -> os_path_exists t dst = false ->
  resolve t dst = None /\ parent_error t dst = None.
Proof.
  unfold open_write_on, os_path_exists.
  destruct (resolve t dst) as [[d|es|tg]|]; try discriminate.
  destruct (parent_error t dst); [discriminate | now split].
Qed.

(** [shutil.copy2] to a path that is not a directory: when it returns the
    destination holds the content; when it raises the tree is unchanged or
    the destination holds the beginning of the content. *)
Lemma shutil_copy2_inv (src dst : path) (w w' : world) (r : result unit) :
  os_path_isdir (fs w) dst = false ->
  shutil_copy2 src dst w = (r, w') ->
  inner w w' /\
  (fs w' = fs w /\ (exists e, r = Raise e) \/
   exists data s t1,
     resolve (fs w) src = Some (File data) /\
     open_write_on dst (fs w) = inr t1 /\
     begins s data /\
     fs w' = attach (fs w) dst (File s) /\
     match r with Ok _ => s = data | Raise _ => True end).
Proof.
  intros Hd H. unfold shutil_copy2, bind, gets in H. rewrite Hd in H.
  destruct (samefile (fs w) src dst).
  { unfold raise in H. injection H as <- <-. split; [apply inner_refl|]. left. eauto. }
  destruct (query (open_read_on src) w) as [[data|e] w1] eqn:E1.
  2:{ injection H as <- <-. apply query_inv in E1 as (Hi & Hf & _).
      split; [exact Hi|]. left. eauto. }
  apply query_inv in E1 as (Hi1 & Hf1 & Hr).
  assert (Hsrc : resolve (fs w) src = Some (File data)).
  { unfold open_read_on in Hr.
    destruct (resolve (fs w) src) as [[d|es|tg]|]; try discriminate.
    now injection Hr as ->. }
  destruct (effect (open_write_on dst) w1) as [[u|e] w2] eqn:E2.
  2:{ injection H as <- <-. apply effect_inv in E2 as [Hi2 Hf2].
      split; [exact (inner_trans _ _ _ Hi1 Hi2)|]. left. split; [congruence | eauto]. }
  apply effect_inv in E2 as [Hi2 Hw]. rewrite Hf1 in Hw.
  pose proof (open_write_on_ok _ _ _ Hw) as Ht1.
  destruct (copyfileobj dst EmptyString data w2) as [[u'|e] w3] eqn:E3.
  - destruct (copyfileobj_inv dst data EmptyString w2 w3 _ (fs w) Ht1 E3)
      as (Hi3 & s & Hs & Hfs & ->). simpl in Hfs.
    unfold copystat in H. destruct (effect _ w3) as [[u''|e] w4] eqn:E4;
      injection H as <- <-; apply effect_inv in E4 as [Hi4 Hf4].
    + injection Hf4 as Hf4.
      split; [exact (inner_trans _ _ _ Hi1 (inner_trans _ _ _ Hi2
                       (inner_trans _ _ _ Hi3 Hi4)))|].
      right. exists data, data, (fs w2).
      repeat split; try assumption; try apply begins_refl; congruence.
    + split; [exact (inner_trans _ _ _ Hi1 (inner_trans _ _ _ Hi2
                       (inner_trans _ _ _ Hi3 Hi4)))|].
      right. exists data, data, (fs w2).
      repeat split; try assumption; try apply begins_refl; congruence.
  - injection H as <- <-.
    destruct (copyfileobj_inv dst data EmptyString w2 w3 _ (fs w) Ht1 E3)
      as (Hi3 & s & Hs & Hfs & _). simpl in Hfs.
    split; [exact (inner_trans _ _ _ Hi1 (inner_trans _ _ _ Hi2 Hi3))|].
    right. exists data, s, (fs w2). now repeat split.
Qed.

(** *** [shutil.move] of an entry that is not a directory *)

Lemma parent_error_join (t : node) (P : path) (name : string) :
  parent_error t (os_path_join P name) = None -> lstat t P = Some KDir.
Proof.
  unfold parent_error, lstat. rewrite dirname_join.
  now destruct (resolve t P) as [[| |]|].
Qed.

Lemma join_parent_error (t : node) (P : path) (name : string) :
  lstat t P = Some KDir -> parent_error t (os_path_join P name) = None.
Proof.
  unfold parent_error, lstat. rewrite dirname_join.
  now destruct (resolve t P) as [[| |]|].
Qed.

Lemma isdir_false_nondir (t : node) (p : path) (x : node) :
  os_path_isdir t p = false -> resolve t p = Some x -> is_dir_node x = false.
Proof. unfold os_path_isdir. intros H E. rewrite E in H. now destruct x. Qed.

Lemma exists_false_free (t : node) (p : path) :
  os_path_exists t p = false ->
  resolve t p = None \/ exists tg, resolve t p = Some (Link tg).
Proof.
  unfold os_path_exists. destruct (resolve t p) as [[d|es|tg]|]; try discriminate;
    intros _; [right; now exists tg | now left].
Qed.

Lemma exists_false_isdir (t : node) (p : path) :
  os_path_exists t p = false -> os_path_isdir t p = false.
Proof.
  unfold os_path_exists, os_path_isdir. now destruct (resolve t p) as [[| |]|].
Qed.

Lemma rename_on_nondir (c P : path) (t t' : node) :
  let d := os_path_join P (os_path_basename c) in
  os_path_isdir t c = false ->
  os_path_exists t d = false ->
  rename_on c d t = inr t' ->
  c = d /\ t' = t /\ os_path_islink t c = true \/ moved_to_top t c P t'.
Proof.
  intros d Hc Hd H. unfold rename_on in H.
  destruct (resolve t c) as [x|] eqn:Ec; [|discriminate].
  pose proof (isdir_false_nondir t c x Hc Ec) as Hx.
  destruct (path_eqb c d) eqn:Ecd.
  { left. apply path_eqb_eq in Ecd. injection H as <-.
    repeat split; [exact Ecd|]. unfold os_path_islink.
    destruct (exists_false_free t d Hd) as [Hn|[tg Hl]]; rewrite <- Ecd in *;
      [congruence | now rewrite Hl]. }
  right. apply path_eqb_neq in Ecd.
  destruct (is_prefix c d); [discriminate|].
  destruct (parent_error t d) eqn:Ep; [discriminate|].
  apply parent_error_join in Ep.
  exists x. repeat split; try assumption. left.
  destruct (exists_false_free t d Hd) as [Hn|[tg Hl]].
  - split; [now left|]. rewrite Hn in H. now injection H as <-.
  - split; [right; now exists tg|]. rewrite Hl in H.
    destruct x; [|discriminate|]; now injection H as <-.
Qed.

Lemma rename_on_free (c P : path) (t : node) (x : node) :
  let d := os_path_join P (os_path_basename c) in
  resolve t c = Some x -> is_dir_node x = false ->
  c <> d -> lstat t P = Some KDir -> os_path_exists t d = false ->
  rename_on c d t = inr (attach (detach t c) d x).
Proof.
  intros d Hc Hx Hne HP Hd.
  destruct (source_above t c P x Hc Hx Hne HP) as (_ & _ & _ & _ & _ & _ & Hpre).
  fold d in Hpre. unfold rename_on. rewrite Hc, Hpre.
  replace (path_eqb c d) with false by (symmetry; now apply path_eqb_neq).
  unfold d at 1. rewrite (join_parent_error t P _ HP). fold d.
  destruct (exists_false_free t d Hd) as [->|[tg ->]]; [reflexivity|].
  now destruct x.
Qed.

Lemma unlink_on_ok (p : path) (t t' : node) :
  unlink_on p t = inr t' -> t' = detach t p.
Proof.
  unfold unlink_on. destruct (resolve t p) as [[| |]|]; try discriminate;
    now intros [= <-].
Qed.

(** The fallback of [shutil.move] for an entry that is not a directory:
    when it returns the entry went; when it raises the tree is unchanged or
    a copy was left. *)
Lemma move_fallback_inv (c P : path) (dst : path) (w w' : world) (r : result unit) :
  let d := os_path_join P (os_path_basename c) in
  os_path_isdir (fs w) c = false ->
  os_path_exists (fs w) d = false ->
  move_fallback c dst d w = (r, w') ->
  inner w w' /\
  match r with
  | Ok _ => moved_to_top (fs w) c P (fs w')
  | Raise _ => fs w' = fs w \/ copy_left (fs w) c P (fs w')
  end.
Proof.
  intros d Hc Hd H. unfold move_fallback, bind, gets in H.
  destruct (os_path_islink (fs w) c) eqn:El.
  - (* a link is made again *)
    unfold os_readlink in H.
    destruct (query (readlink_on c) w) as [[tg|e] w1] eqn:E1.
    2:{ injection H as <- <-. apply query_inv in E1 as (Hi & Hf & _).
        split; [exact Hi | now left]. }
    apply query_inv in E1 as (Hi1 & Hf1 & Hr).
    assert (Ec : resolve (fs w) c = Some (Link tg)).
    { unfold readlink_on in Hr.
      destruct (resolve (fs w) c) as [[| |tg']|]; try discriminate.
      now injection Hr as ->. }
    unfold os_symlink in H.
    destruct (effect (symlink_on tg d) w1) as [[u|e] w2] eqn:E2.
    2:{ injection H as <- <-. apply effect_inv in E2 as [Hi2 Hf2].
        split; [exact (inner_trans _ _ _ Hi1 Hi2) | left; congruence]. }
    apply effect_inv in E2 as [Hi2 Hs]. rewrite Hf1 in Hs.
    unfold symlink_on in Hs.
    destruct (resolve (fs w) d) eqn:Ed; [discriminate|].
    destruct (parent_error (fs w) d) eqn:Ep; [discriminate|].
    injection Hs as Hs. apply parent_error_join in Ep.
    assert (Hne : c <> d) by (intros E; rewrite E, Ed in Ec; discriminate).
    unfold os_unlink in H.
    destruct (effect (unlink_on c) w2) as [[u'|e] w3] eqn:E3;
      injection H as <- <-; apply effect_inv in E3 as [Hi3 Hu];
      (split; [exact (inner_trans _ _ _ Hi1 (inner_trans _ _ _ Hi2 Hi3))|]).
    + apply unlink_on_ok in Hu. exists (Link tg). repeat split; try assumption.
      right. split; [exact Ed | fold d; congruence].
    + right. exists (Link tg), (Link tg). repeat split; try assumption. fold d. congruence.
  - (* a file is copied *)
    rewrite Hc in H.
    destruct (shutil_copy2 c d w) as [[u|e] w1] eqn:E1.
    2:{ injection H as <- <-.
        apply shutil_copy2_inv in E1 as [Hi1 Hcp]; [|now apply exists_false_isdir].
        split; [exact Hi1|].
        destruct Hcp as [[Hf _]|(data & s & t1 & Hsrc & Hw & Hs & Hf & _)]; [now left|].
        right. destruct (open_write_on_free _ _ _ Hw Hd) as [Ed Ep].
        apply parent_error_join in Ep.
        exists (File data), (File s). repeat split; try assumption.
        fold d. intros E. rewrite E, Ed in Hsrc. discriminate. }
    apply shutil_copy2_inv in E1 as [Hi1 Hcp]; [|now apply exists_false_isdir].
    destruct Hcp as [[_ [e He]]|(data & s & t1 & Hsrc & Hw & Hs & Hf & ->)];
      [discriminate|].
    destruct (open_write_on_free _ _ _ Hw Hd) as [Ed Ep].
    apply parent_error_join in Ep.
    assert (Hne : c <> d) by (intros E; rewrite E, Ed in Hsrc; discriminate).
    unfold os_unlink in H.
    destruct (effect (unlink_on c) w1) as [[u'|e] w2] eqn:E2;
      injection H as <- <-; apply effect_inv in E2 as [Hi2 Hu];
      (split; [exact (inner_trans _ _ _ Hi1 Hi2)|]).
    + apply unlink_on_ok in Hu. exists (File data). repeat split; try assumption.
      right. split; [exact Ed | fold d; congruence].
    + right. exists (File data), (File data).
      repeat split; try assumption; try apply begins_refl. fold d. congruence.
Qed.

(** [shutil.move] of a candidate that is not a directory to a destination
    that does not exist: when it returns, the entry went to the destination,
    or source and destination are one path and nothing has changed; when it
    raises, the tree is unchanged or a copy was left.  The record gets one
    entry. *)
Lemma shutil_move_nondir (c P : path) (w w' : world) (r : result path) :
  let d := os_path_join P (os_path_basename c) in
  os_path_isdir (fs w) c = false ->
  os_path_exists (fs w) d = false ->
  shutil_move c d w = (r, w') ->
  (oracle w = [] -> oracle w' = []) /\
  match r with
  | Ok rd =>
      rd = d /\ events w' = events w ++ [EvMove c d None] /\
      (c = d /\ fs w' = fs w /\ os_path_islink (fs w) c = true \/
       moved_to_top (fs w) c P (fs w'))
  | Raise e =>
      events w' = events w ++ [EvMove c d (Some e)] /\
      (fs w' = fs w \/ copy_left (fs w) c P (fs w'))
  end.
Proof.
  intros d Hc Hd H.
  unfold shutil_move in H.
  destruct (shutil_move_calls c d w) as [[rd|e] w1] eqn:E; injection H as <- <-.
  - unfold shutil_move_calls, bind, gets in E.
    rewrite (exists_false_isdir _ _ Hd) in E. simpl in E.
    unfold try_except in E. unfold os_rename in E.
    destruct (effect (rename_on c d) w) as [[u|e] w2] eqn:E1.
    + unfold ret in E. injection E as <- <-.
      apply effect_inv in E1 as [[Hev Hq] Hr]. simpl. rewrite Hev.
      repeat split; [exact Hq|].
      now apply (rename_on_nondir c P).
    + destruct (move_fallback c d d w2) as [[u|e'] w3] eqn:E2; [|discriminate].
      unfold ret in E. injection E as <- <-.
      apply effect_inv in E1 as [Hi1 Hf1]. rewrite <- Hf1 in Hc, Hd.
      apply (move_fallback_inv c P d w2 w3) in E2 as [Hi2 Hm]; try assumption.
      destruct (inner_trans _ _ _ Hi1 Hi2) as [Hev Hq]. simpl. rewrite Hev.
      repeat split; [exact Hq|]. right. now rewrite <- Hf1.
  - unfold shutil_move_calls, bind, gets in E.
    rewrite (exists_false_isdir _ _ Hd) in E. simpl in E.
    unfold try_except in E. unfold os_rename in E.
    destruct (effect (rename_on c d) w) as [[u|e0] w2] eqn:E1; [discriminate|].
    destruct (move_fallback c d d w2) as [[u|e'] w3] eqn:E2; [discriminate|].
    injection E as <- <-.
    apply effect_inv in E1 as [Hi1 Hf1]. rewrite <- Hf1 in Hc, Hd.
    apply (move_fallback_inv c P d w2 w3) in E2 as [Hi2 Hm]; try assumption.
    destruct (inner_trans _ _ _ Hi1 Hi2) as [Hev Hq]. simpl. rewrite Hev.
    repeat split; [exact Hq|]. now rewrite <- Hf1.
Qed.

(** *** Nothing inside [shutil.move] writes to the record *)

Lemma internal_ret {A : Type} (a : A) : internal (ret a).
Proof. intros w r w' [= <- <-]. apply inner_refl. Qed.

Lemma internal_raise {A : Type} (e : exn) : internal (@raise A e).
Proof. intros w r w' [= <- <-]. apply inner_refl. Qed.

Lemma internal_gets {A : Type} (f : node -> A) : internal (gets f).
Proof. intros w r w' [= <- <-]. apply inner_refl. Qed.

Lemma internal_call {A : Type} (f : node -> exn + (A * node)) : internal (call f).
Proof. intros w r w' H. now apply call_inv in H. Qed.

Lemma internal_effect (f : node -> exn + node) : internal (effect f).
Proof. apply internal_call. Qed.

Lemma internal_query {A : Type} (f : node -> exn + A) : internal (query f).
Proof. apply internal_call. Qed.

Lemma internal_bind {A B : Type} (m : M A) (k : A -> M B) :
  internal m -> (forall a, internal (k a)) -> internal (bind m k).
Proof.
  intros Hm Hk w r w' H. unfold bind in H.
  destruct (m w) as [[a|e] w1] eqn:E.
  - exact (inner_trans _ _ _ (Hm _ _ _ E) (Hk a _ _ _ H)).
  - injection H as <- <-. exact (Hm _ _ _ E).
Qed.

Lemma internal_try_except {A : Type} (m : M A) (h : exn -> M A) :
  internal m -> (forall e, internal (h e)) -> internal (try_except m h).
Proof.
  intros Hm Hh w r w' H. unfold try_except in H.
  destruct (m w) as [[a|e] w1] eqn:E.
  - injection H as <- <-. exact (Hm _ _ _ E).
  - exact (inner_trans _ _ _ (Hm _ _ _ E) (Hh e _ _ _ H)).
Qed.

Lemma internal_if {A : Type} (b : bool) (m1 m2 : M A) :
  internal m1 -> internal m2 -> internal (if b then m1 else m2).
Proof. now destruct b. Qed.

Create HintDb internal.

#[local] Hint Resolve internal_ret internal_raise internal_gets internal_call
  internal_effect internal_query internal_bind internal_try_except internal_if
  : internal.

Lemma internal_copyfileobj (dst : path) (rest : string) :
  forall written, internal (copyfileobj dst written rest).
Proof.
  induction rest as [|ch rest IH]; intros written; simpl; auto with internal.
Qed.

Lemma internal_copy2 (src dst : path) : internal (shutil_copy2 src dst).
Proof.
  unfold shutil_copy2, copystat.
  repeat (apply internal_bind; [auto with internal|intros ?]).
  apply internal_if; [auto with internal|].
  repeat (apply internal_bind; [auto using internal_copyfileobj with internal|intros ?]).
  auto with internal.
Qed.

Lemma internal_makedirs (todo : path) : forall made, internal (makedirs_from made todo).
Proof.
  induction todo as [|name rest IH]; intros made; simpl; [auto with internal|].
  destruct rest as [|name' rest']; [auto with internal|].
  apply internal_bind; [auto with internal|]. intros present.
  apply internal_bind; [|intros _; apply IH].
  apply internal_if; [auto with internal|].
  apply internal_try_except; [auto with internal|].
  intros e. destruct e; auto with internal.
Qed.

Lemma internal_copytree_node (n : node) :
  forall src dst, internal (copytree_node n src dst).
Proof.
  induction n as [d|es IH|tg] using node_induction; intros src dst;
    try (simpl; auto with internal).
  simpl.
  apply internal_bind; [auto with internal|]. intros _.
  apply internal_bind; [apply internal_makedirs|]. intros _.
  apply internal_bind.
  - induction es as [|[name child] es IHes]; [auto with internal|].
    inversion IH as [|? ? Hchild Hrest]; subst.
    apply internal_bind.
    + apply internal_try_except; [|auto with internal].
      apply internal_bind; [|auto with internal].
      destruct child as [data|es'|tg].
      * apply internal_copy2.
      * apply Hchild.
      * unfold os_readlink, os_symlink, copystat. auto 10 with internal.
    + intros bad. apply internal_bind; [now apply IHes | auto with internal].
  - intros failed. apply internal_bind.
    + unfold copystat. auto 10 with internal.
    + intros sf. apply internal_if; auto with internal.
Qed.

Lemma internal_rmtree_node (n : node) : forall p, internal (rmtree_node n p).
Proof.
  induction n as [d|es IH|tg] using node_induction; intros p;
    try (simpl; auto with internal).
  simpl.
  apply internal_bind; [auto with internal|]. intros _.
  apply internal_bind; [|auto with internal].
  induction es as [|[name child] es IHes]; [auto with internal|].
  inversion IH as [|? ? Hchild Hrest]; subst.
  apply internal_bind; [|intros _; now apply IHes].
  destruct child as [data|es'|tg]; [unfold os_unlink; auto with internal
                                   | apply Hchild
                                   | unfold os_unlink; auto with internal].
Qed.

Lemma internal_move_fallback (src dst real_dst : path) :
  internal (move_fallback src dst real_dst).
Proof.
  unfold move_fallback, os_readlink, os_symlink, os_unlink.
  apply internal_bind; [auto with internal|]. intros is_link.
  apply internal_if; [auto 10 with internal|].
  apply internal_bind; [auto with internal|]. intros is_dir.
  apply internal_if.
  - apply internal_if; [auto with internal|].
    apply internal_bind.
    + intros w r w' H. unfold shutil_copytree in H.
      destruct (resolve (fs w) src) as [n|].
      * exact (internal_copytree_node n _ _ _ _ _ H).
      * injection H as <- <-. apply inner_refl.
    + intros _ w r w' H. unfold shutil_rmtree in H.
      destruct (resolve (fs w) src) as [n|].
      * exact (internal_rmtree_node n _ _ _ _ H).
      * injection H as <- <-. apply inner_refl.
  - apply internal_bind; [apply internal_copy2 | auto with internal].
Qed.

Lemma internal_shutil_move_calls (src dst : path) :
  internal (shutil_move_calls src dst).
Proof.
  unfold shutil_move_calls, os_rename.
  apply internal_bind; [auto with internal|]. intros dst_is_dir.
  apply internal_bind; [auto with internal|]. intros same.
  apply internal_if; [auto with internal|].
  apply internal_bind; [auto with internal|]. intros taken.
  apply internal_if; [auto with internal|].
  apply internal_bind; [|auto with internal].
  apply internal_try_except; [auto with internal|].
  intros e. apply internal_move_fallback.
Qed.

(** Whatever the source and the destination: one entry in the record, with
    the outcome, and a schedule that was empty stays empty. *)
Lemma shutil_move_record (s d : path) (w w' : world) (r : result path) :
  shutil_move s d w = (r, w') ->
  events w' =
    events w ++ [EvMove s d (match r with Ok _ => None | Raise e => Some e end)] /\
  (oracle w = [] -> oracle w' = []).
Proof.
  unfold shutil_move. intros H.
  destruct (shutil_move_calls s d w) as [[rd|e] w1] eqn:E; injection H as <- <-;
    destruct (internal_shutil_move_calls s d _ _ _ E) as [Hev Hq]; simpl;
    now rewrite Hev.
Qed.

(** *** One candidate of the relocation loop *)

Lemma move_dcm_file_skip (c P : path) (k : nat) (w : world) :
  os_path_exists (fs w) (os_path_join P (os_path_basename c)) = true ->
  move_dcm_file c P k w =
  (Ok k, emit (EvLog WARNING (MsgAlreadyExists (os_path_join P (os_path_basename c)))) w).
Proof.
  intros H. unfold move_dcm_file, try_except, bind, gets, log, ret. now rewrite H.
Qed.

Lemma move_dcm_file_attempt (c P : path) (k : nat) (w : world) :
  os_path_exists (fs w) (os_path_join P (os_path_basename c)) = false ->
  move_dcm_file c P k w =
  match shutil_move c (os_path_join P (os_path_basename c)) w with
  | (Ok _, w') => (Ok (k + 1), emit EvSleep w')
  | (Raise e, w') => (Ok k, emit (EvLog ERROR (MsgErrorMoving c e)) w')
  end.
Proof.
  intros H. unfold move_dcm_file, try_except, bind, gets, log, ret, time_sleep.
  rewrite H. simpl.
  now destruct (shutil_move c (os_path_join P (os_path_basename c)) w) as [[rd|e] w'].
Qed.

Lemma move_dcm_file_total (c P : path) (k : nat) (w : world) :
  exists n w', move_dcm_file c P k w = (Ok n, w').
Proof.
  destruct (os_path_exists (fs w) (os_path_join P (os_path_basename c))) eqn:E.
  - rewrite move_dcm_file_skip by exact E. eauto.
  - rewrite move_dcm_file_attempt by exact E.
    destruct (shutil_move _ _ w) as [[rd|e] w']; eauto.
Qed.

Lemma move_dcm_files_from_total (files : list path) (P : path) :
  forall k w, exists n w', move_dcm_files_from files P k w = (Ok n, w').
Proof.
  induction files as [|c files IH]; intros k w; simpl.
  - unfold ret. eauto.
  - unfold bind. destruct (move_dcm_file_total c P k w) as (n & w' & ->). apply IH.
Qed.

Lemma move_dcm_files_from_app (l1 l2 : list path) (P : path) :
  forall k w n1 w1,
  move_dcm_files_from l1 P k w = (Ok n1, w1) ->
  move_dcm_files_from (l1 ++ l2) P k w = move_dcm_files_from l2 P n1 w1.
Proof.
  induction l1 as [|c l1 IH]; intros k w n1 w1 H; simpl in *.
  - unfold ret in H. now injection H as <- <-.
  - unfold bind in *. destruct (move_dcm_file c P k w) as [[n|e] w']; [|discriminate].
    now apply IH.
Qed.

Lemma move_dcm_files_from_cons (c : path) (l : list path) (P : path)
    (k n : nat) (w w' : world) :
  move_dcm_file c P k w = (Ok n, w') ->
  move_dcm_files_from (c :: l) P k w = move_dcm_files_from l P n w'.
Proof. intros H. simpl. unfold bind. now rewrite H. Qed.

(** *** What one candidate leaves in the record of calls *)

Lemma move_dcm_file_trace (c P : path) (k n : nat) (w w' : world) :
  move_dcm_file c P k w = (Ok n, w') ->
  exists tr,
    events w' = events w ++ tr /\
    n = k + List.length (filter is_successful_move tr) /\
    Forall (fun ev => is_scandir ev = false) tr /\
    Forall (fun ev => forall src, move_source ev = Some src -> src = c) tr.
Proof.
  set (d := os_path_join P (os_path_basename c)).
  destruct (os_path_exists (fs w) d) eqn:E.
  - rewrite move_dcm_file_skip by exact E. intros [= <- <-].
    exists [EvLog WARNING (MsgAlreadyExists d)]. simpl.
    repeat split; [lia | repeat constructor | repeat constructor; discriminate].
  - rewrite move_dcm_file_attempt by exact E. fold d.
    destruct (shutil_move c d w) as [[rd|e] w1] eqn:Em;
      apply shutil_move_record in Em as [Ev _]; intros [= <- <-].
    + exists [EvMove c d None; EvSleep]. simpl. rewrite Ev, <- app_assoc.
      repeat split; [repeat constructor|].
      constructor; [now intros src [= <-] | repeat constructor; discriminate].
    + exists [EvMove c d (Some e); EvLog ERROR (MsgErrorMoving c e)]. simpl.
      rewrite Ev, <- app_assoc.
      repeat split; [lia | repeat constructor|].
      constructor; [now intros src [= <-] | repeat constructor; discriminate].
Qed.

Lemma move_dcm_files_from_trace (files : list path) (P : path) :
  forall k w n w',
  move_dcm_files_from files P k w = (Ok n, w') ->
  exists tr,
    events w' = events w ++ tr /\
    n = k + List.length (filter is_successful_move tr) /\
    Forall (fun ev => is_scandir ev = false) tr /\
    Forall (fun ev => forall src, move_source ev = Some src -> In src files) tr.
Proof.
  induction files as [|c files IH]; intros k w n w' H; simpl in H.
  - unfold ret in H. injection H as <- <-. exists []. rewrite app_nil_r. simpl.
    repeat split; [lia | constructor | constructor].
  - unfold bind in H. destruct (move_dcm_file c P k w) as [[n1|e] w1] eqn:E1;
      [|discriminate].
    apply move_dcm_file_trace in E1 as (tr1 & Ev1 & Hn1 & Hs1 & Hm1).
    apply IH in H as (tr2 & Ev2 & Hn2 & Hs2 & Hm2).
    exists (tr1 ++ tr2). rewrite Ev2, Ev1, <- app_assoc, filter_app, length_app.
    repeat split; [lia | now apply Forall_app|].
    apply Forall_app. split.
    + eapply Forall_impl; [|exact Hm1]. intros ev Hev src Hsrc. left.
      symmetry. now apply Hev.
    + eapply Forall_impl; [|exact Hm2]. intros ev Hev src Hsrc. right. now apply Hev.
Qed.

(** *** One candidate that is not a directory: the tree is kept, or the
    entry went to the top, or a copy of it was left there *)

Lemma move_dcm_file_cases (c P : path) (k n : nat) (w w' : world) :
  os_path_isdir (fs w) c = false ->
  move_dcm_file c P k w = (Ok n, w') ->
  (fs w' = fs w /\
   (n = k \/ n = k + 1 /\ os_path_islink (fs w) c = true)) \/
  (n = k + 1 /\ moved_to_top (fs w) c P (fs w')) \/
  (n = k /\ copy_left (fs w) c P (fs w')).
Proof.
  set (d := os_path_join P (os_path_basename c)). intros Hc.
  destruct (os_path_exists (fs w) d) eqn:E.
  - rewrite move_dcm_file_skip by exact E. intros [= <- <-]. left. split; [reflexivity | now left].
  - rewrite move_dcm_file_attempt by exact E. fold d.
    destruct (shutil_move c d w) as [[rd|e] w1] eqn:Em; intros [= <- <-];
      apply (shutil_move_nondir c P) in Em as [_ Em]; try assumption; simpl.
    + destruct Em as (_ & _ & [(_ & F & L)|Hm]);
        [left; split; [exact F | right; now split]|].
      right. left. now split.
    + destruct Em as (_ & [F|Hm]); [left; split; [exact F | now left]|].
      right. right. now split.
Qed.

Lemma move_dcm_file_effect (c P : path) (k n : nat) (w w' : world) :
  os_path_isdir (fs w) c = false ->
  move_dcm_file c P k w = (Ok n, w') ->
  fs w' = fs w \/ relocated (fs w) c P (fs w').
Proof.
  intros Hc H.
  destruct (move_dcm_file_cases _ _ _ _ _ _ Hc H) as [[F _]|[[_ Hm]|[_ Hm]]];
    [now left | right; now left | right; now right].
Qed.

(** A property of the tree kept by every single relocation is kept by the
    whole batch, when no candidate is a directory. *)
Lemma move_dcm_files_from_invariant (I : node -> Prop) (P : path)
    (files : list path) :
  (forall t c t', In c files -> I t -> relocated t c P t' -> I t') ->
  forall k w n w',
  Forall (fun q => os_path_isdir (fs w) q = false) files ->
  I (fs w) ->
  move_dcm_files_from files P k w = (Ok n, w') ->
  I (fs w').
Proof.
  induction files as [|c files IH]; intros Hstep k w n w' Hnd HI H; simpl in H.
  - unfold ret in H. now injection H as <- <-.
  - unfold bind in H. destruct (move_dcm_file c P k w) as [[n1|e] w1] eqn:E1;
      [|discriminate].
    inversion Hnd as [|? ? Hc Hrest]; subst.
    apply (IH (fun t c0 t' Hin => Hstep t c0 t' (or_intror Hin)) n1 w1 n w');
      [| |exact H].
    + destruct (move_dcm_file_effect _ _ _ _ _ _ Hc E1) as [Hfs|Hm].
      * now rewrite Hfs.
      * eapply Forall_impl; [|exact Hrest]. intros q Hq.
        now rewrite (relocated_isdir _ _ _ _ q Hm).
    + destruct (move_dcm_file_effect _ _ _ _ _ _ Hc E1) as [Hfs|Hm].
      * now rewrite Hfs.
      * apply (Hstep (fs w) c (fs w1)); [now left | exact HI | exact Hm].
Qed.

Lemma move_dcm_file_count (c P : path) (k n : nat) (w w' : world) :
  move_dcm_file c P k w = (Ok n, w') -> n = k \/ n = k + 1.
Proof.
  destruct (os_path_exists (fs w) (os_path_join P (os_path_basename c))) eqn:E.
  - rewrite move_dcm_file_skip by exact E. intros [= <- _]. now left.
  - rewrite move_dcm_file_attempt by exact E.
    destruct (shutil_move _ _ w) as [[rd|e] w1]; intros [= <- _]; [now right | now left].
Qed.
(** * The relocation loop, candidate by candidate *)




(** C4: the count returned by the relocation loop is the number of moves
    that succeeded, skipped and failed candidates adding nothing; and a
    candidate file whose destination is absent and whose move succeeds is,
    right after its move and still at the end of the batch, gone from its
    original path and present at the destination with the same content. *)
Theorem C4_count_and_content_of_moves :
  (forall (files : list path) (P : path) (w w' : world) (n : nat),
     move_dcm_files files P w = (Ok n, w') ->
     exists tr,
       events w' = events w ++ tr /\
       n = List.length (filter is_successful_move tr) /\
       n <= List.length files) /\
  (forall (pre post : list path) (c P rd : path) (w w1 w2 w' : world)
          (n1 n : nat) (data : string),
     move_dcm_files pre P w = (Ok n1, w1) ->
     stat (fs w1) c = Some (KFile data) ->
     os_path_exists (fs w1) (os_path_join P (os_path_basename c)) = false ->
     shutil_move c (os_path_join P (os_path_basename c)) w1 = (Ok rd, w2) ->
     Forall (fun q => os_path_isdir (fs w1) q = false) post ->
     move_dcm_files (pre ++ c :: post) P w = (Ok n, w') ->
     let d := os_path_join P (os_path_basename c) in
     stat (fs w2) c = None /\ stat (fs w2) d = Some (KFile data) /\
     stat (fs w') c = None /\ stat (fs w') d = Some (KFile data)).
Proof.
  split.
  - intros files P w w' n H. unfold move_dcm_files in H.
    pose proof H as H'. apply move_dcm_files_from_trace in H as (tr & Ev & Hn & _ & _).
    exists tr. repeat split; [exact Ev | exact Hn|].
    assert (G : forall k w n w', move_dcm_files_from files P k w = (Ok n, w') ->
                n <= k + List.length files).
    { clear. induction files as [|c files IH]; intros k w n w' H; simpl in H.
      - unfold ret in H. injection H as <- <-. lia.
      - unfold bind in H. destruct (move_dcm_file c P k w) as [[n1|e] w1] eqn:E;
          [|discriminate].
        apply IH in H. apply move_dcm_file_count in E. simpl. lia. }
    apply G in H'. exact H'.
  - intros pre post c P rd w w1 w2 w' n1 n data Hpre Hc Hd Hmv Hpost Hall d.
    assert (Hcd : os_path_isdir (fs w1) c = false) by now rewrite stat_isdir, Hc.
    assert (Hstep : move_dcm_file c P n1 w1 = (Ok (n1 + 1), emit EvSleep w2)).
    { rewrite move_dcm_file_attempt by exact Hd. now rewrite Hmv. }
    assert (Hne : c <> d).
    { intros E. rewrite stat_exists in Hd. fold d in Hd. rewrite <- E, Hc in Hd.
      discriminate. }
    apply (shutil_move_nondir c P) in Hmv as (_ & _ & _ & [[E _]|Hfm]);
      try assumption; [now destruct Hne|].
    destruct (moved_to_top_stat _ _ _ _ Hfm) as (_ & Hq). fold d in Hq.
    assert (H2 : stat (fs w2) c = None /\ stat (fs w2) d = Some (KFile data)).
    { rewrite !Hq, !path_eqb_refl.
      replace (path_eqb c d) with false; [now split|].
      symmetry. now apply path_eqb_neq. }
    split; [apply H2|]. split; [apply H2|].
    unfold move_dcm_files in Hall.
    rewrite (move_dcm_files_from_app pre (c :: post) P 0 w n1 w1 Hpre) in Hall.
    rewrite (move_dcm_files_from_cons c post P n1 _ _ _ Hstep) in Hall.
    pose proof (fun Hs Hn HI =>
      move_dcm_files_from_invariant
        (fun t => stat t c = None /\ stat t d = Some (KFile data)) P post
        Hs _ _ _ _ Hn HI Hall) as G.
    apply G; [| |exact H2]; clear G.
    + intros t c' t1 _ [I1 I2] Hm.
      pose proof (relocated_absent_dest _ _ _ _ Hm) as Hd'.
      split.
      * apply (relocated_absent _ _ _ _ c Hm I1).
        intros E. apply Hne. unfold d. rewrite E. now rewrite basename_join.
      * apply (relocated_keeps _ _ _ _ d _ Hm I2).
        intros E. subst c'. unfold d in Hd', I2.
        rewrite basename_join in Hd'. congruence.
    + simpl. eapply Forall_impl; [|exact Hpost]. intros q Hq0.
      now rewrite (relocated_isdir _ _ _ _ q (or_introl Hfm)).
Qed.

Lemma C4_count_and_content_of_moves_witness :
  let c := ["P1"; "sub"; "deep"; "a.dcm"]%string in
  let w' := snd (move_dcm_files [["P1"; "b.dcm"]%string; c] ["P1"%string] demo_world) in
  stat (fs w') c = None /\
  stat (fs w') ["P1"; "a.dcm"]%string = Some (KFile "A").
Proof.
  intros c w'.
  destruct C4_count_and_content_of_moves as [_ H].
  pose (w1 := snd (move_dcm_files [["P1"; "b.dcm"]%string] ["P1"%string] demo_world)).
  pose (w2 := snd (shutil_move c ["P1"; "a.dcm"]%string w1)).
  destruct (H [["P1"; "b.dcm"]%string] [] c ["P1"%string] ["P1"; "a.dcm"]%string
              demo_world w1 w2 w' 0 1 "A"%string) as (_ & _ & H3 & H4);
    try reflexivity.
  - constructor.
  - split; [exact H3 | exact H4].
Defined.
(** *** Runs without external failures *)

Lemma move_dcm_file_quiet (c P : path) (k n : nat) (w w' : world) :
  oracle w = [] -> move_dcm_file c P k w = (Ok n, w') -> oracle w' = [].
Proof.
  intros Hq.
  destruct (os_path_exists (fs w) (os_path_join P (os_path_basename c))) eqn:E.
  - rewrite move_dcm_file_skip by exact E. now intros [= _ <-].
  - rewrite move_dcm_file_attempt by exact E.
    destruct (shutil_move _ _ w) as [[rd|e] w1] eqn:Em;
      apply shutil_move_record in Em as [_ Q]; intros [= _ <-]; simpl; now apply Q.
Qed.

Lemma move_dcm_files_from_quiet (files : list path) (P : path) :
  forall k n w w',
  oracle w = [] -> move_dcm_files_from files P k w = (Ok n, w') -> oracle w' = [].
Proof.
  induction files as [|c files IH]; intros k n w w' Hq H; simpl in H.
  - unfold ret in H. now injection H as _ <-.
  - unfold bind in H. destruct (move_dcm_file c P k w) as [[n1|e] w1] eqn:E;
      [|discriminate].
    apply (IH n1 n w1 w'); [|exact H]. now apply (move_dcm_file_quiet c P k n1 w).
Qed.

(** With no external failure [os.rename] decides: an entry that is not a
    directory goes to a destination that does not exist in an existing
    directory. *)
Lemma shutil_move_quiet_ok (c P : path) (w : world) (x : node) :
  let d := os_path_join P (os_path_basename c) in
  oracle w = [] ->
  resolve (fs w) c = Some x -> is_dir_node x = false ->
  c <> d -> lstat (fs w) P = Some KDir -> os_path_exists (fs w) d = false ->
  shutil_move c d w =
  (Ok d, mkWorld (attach (detach (fs w) c) d x) [] (events w ++ [EvMove c d None])).
Proof.
  intros d Hq Hc Hx Hne HP Hd. subst d.
  unfold shutil_move, shutil_move_calls, bind, gets, try_except, os_rename.
  rewrite (exists_false_isdir _ _ Hd). simpl.
  rewrite (effect_quiet _ w Hq), (rename_on_free c P (fs w) x Hc Hx Hne HP Hd).
  reflexivity.
Qed.

(** A link at the top of the directory is its own destination, which does
    not exist for [os.path.exists]: [os.rename] of the link onto itself
    succeeds and changes nothing. *)
Lemma shutil_move_quiet_self (c : path) (w : world) (x : node) :
  oracle w = [] ->
  resolve (fs w) c = Some x -> os_path_exists (fs w) c = false ->
  shutil_move c c w = (Ok c, mkWorld (fs w) [] (events w ++ [EvMove c c None])).
Proof.
  intros Hq Hc Hd.
  unfold shutil_move, shutil_move_calls, bind, gets, try_except, os_rename.
  rewrite (exists_false_isdir _ _ Hd). simpl.
  rewrite (effect_quiet _ w Hq). unfold rename_on. rewrite Hc, path_eqb_refl.
  reflexivity.
Qed.

(** With no external failure, a candidate file whose destination is absent in
    an existing target directory is moved. *)
Lemma move_dcm_file_moves (c P : path) (k : nat) (w : world) (data : string) :
  oracle w = [] ->
  stat (fs w) c = Some (KFile data) ->
  stat (fs w) (os_path_join P (os_path_basename c)) = None ->
  stat (fs w) P = Some KDir ->
  exists w',
    move_dcm_file c P k w = (Ok (k + 1), w') /\
    moved_to_top (fs w) c P (fs w') /\ oracle w' = [] /\
    events w' =
      events w ++ [EvMove c (os_path_join P (os_path_basename c)) None; EvSleep].
Proof.
  intros Hq Hc Hd HP.
  assert (Hex : os_path_exists (fs w) (os_path_join P (os_path_basename c)) = false)
    by now rewrite stat_exists, Hd.
  assert (Er : resolve (fs w) c = Some (File data)).
  { apply stat_lstat in Hc. unfold lstat in Hc.
    destruct (resolve (fs w) c) as [[| |]|]; try discriminate.
    now injection Hc as ->. }
  assert (Hne : c <> os_path_join P (os_path_basename c))
    by (intros E; rewrite <- E in Hd; congruence).
  apply stat_lstat in HP.
  rewrite move_dcm_file_attempt by exact Hex.
  rewrite (shutil_move_quiet_ok c P w (File data) Hq Er eq_refl Hne HP Hex).
  eexists. split; [reflexivity|]. simpl. rewrite <- app_assoc. repeat split.
  exists (File data). repeat split; try assumption. left. split; [|reflexivity].
  now apply exists_false_free.
Qed.

Lemma move_dcm_files_from_isdir (files : list path) (P : path)
    (k n : nat) (w w' : world) :
  Forall (fun q => os_path_isdir (fs w) q = false) files ->
  move_dcm_files_from files P k w = (Ok n, w') ->
  forall q, os_path_isdir (fs w') q = os_path_isdir (fs w) q.
Proof.
  intros Hnd H.
  apply (move_dcm_files_from_invariant
           (fun t => forall q, os_path_isdir t q = os_path_isdir (fs w) q)
           P files) with (k := k) (w := w) (n := n); try assumption.
  - intros t c t' _ HI Hm q. now rewrite (relocated_isdir _ _ _ _ q Hm).
  - reflexivity.
Qed.

Lemma NoDup_app_disjoint (l1 l2 : list path) :
  NoDup (l1 ++ l2) -> forall a, In a l1 -> ~ In a l2.
Proof.
  induction l1 as [|x l1 IH]; intros H a Hin; [destruct Hin|].
  simpl in H. inversion H as [|? ? Hx Hrest]; subst. destruct Hin as [->|Hin].
  - intros H2. apply Hx. apply in_or_app. now right.
  - now apply IH.
Qed.

Lemma is_file_not_dir (t : node) (l : list path) :
  Forall (fun q => is_file t q = true) l ->
  Forall (fun q => os_path_isdir t q = false) l.
Proof.
  apply Forall_impl. intros q. rewrite lstat_is_file, lstat_isdir.
  now destruct (lstat t q) as [[| |]|].
Qed.

(** C2: a candidate whose destination (target directory joined with its
    basename) exists when the candidate is processed is skipped, also when the
    candidate already sits directly in the target directory so that source and
    destination are one path: the only trace is one warning naming the
    destination, no move is attempted, the counter keeps its value, the tree
    (hence the candidate and the destination) is unchanged, and the loop goes
    on with the next candidate; when the later candidates are not
    directories, the candidate and the destination are still as they were at
    the end of the batch. *)
Theorem C2_existing_destination_is_skipped :
  forall (pre post : list path) (c P : path) (w w1 : world) (n1 : nat),
    move_dcm_files pre P w = (Ok n1, w1) ->
    os_path_exists (fs w1) (os_path_join P (os_path_basename c)) = true \/
    ((exists name, c = os_path_join P name) /\ os_path_exists (fs w1) c = true) ->
    let d := os_path_join P (os_path_basename c) in
    let w2 := emit (EvLog WARNING (MsgAlreadyExists d)) w1 in
    move_dcm_file c P n1 w1 = (Ok n1, w2) /\
    fs w2 = fs w1 /\
    oracle w2 = oracle w1 /\
    events w2 = events w1 ++ [EvLog WARNING (MsgAlreadyExists d)] /\
    move_dcm_files (pre ++ c :: post) P w = move_dcm_files_from post P n1 w2 /\
    (Forall (fun q => os_path_isdir (fs w1) q = false) post ->
     forall n w',
       move_dcm_files (pre ++ c :: post) P w = (Ok n, w') ->
       stat (fs w') c = stat (fs w1) c /\ stat (fs w') d = stat (fs w1) d).
Proof.
  intros pre post c P w w1 n1 Hpre Hex d w2.
  assert (Hd : os_path_exists (fs w1) d = true).
  { destruct Hex as [H|[[name ->] H]]; [exact H|].
    unfold d. now rewrite basename_join. }
  assert (Hstep : move_dcm_file c P n1 w1 = (Ok n1, w2))
    by now apply move_dcm_file_skip.
  assert (Hall : move_dcm_files (pre ++ c :: post) P w =
                 move_dcm_files_from post P n1 w2).
  { unfold move_dcm_files.
    rewrite (move_dcm_files_from_app pre (c :: post) P 0 w n1 w1 Hpre).
    now apply move_dcm_files_from_cons. }
  split; [exact Hstep|]. split; [reflexivity|]. split; [reflexivity|].
  split; [reflexivity|]. split; [exact Hall|].
  intros Hpost n w' Hrun. rewrite Hall in Hrun. rewrite stat_exists in Hd.
  destruct (stat (fs w1) d) as [k|] eqn:Sd; [|discriminate].
  assert (G : stat (fs w') d = Some k /\ stat (fs w') c = stat (fs w1) c).
  { apply (move_dcm_files_from_invariant
             (fun t => stat t d = Some k /\ stat t c = stat (fs w1) c) P post)
      with (k := n1) (w := w2) (n := n) (w' := w'); try assumption.
    - intros t c' t' _ [I1 I2] Hm.
      destruct (relocated_settled _ _ _ _ c k Hm I1) as [J1 J2].
      split; [exact J1 | congruence].
    - now split. }
  split; apply G.
Qed.

Lemma C2_existing_destination_is_skipped_witness :
  move_dcm_file ["P1"; "b.dcm"]%string ["P1"%string] 0 demo_world =
  (Ok 0, emit (EvLog WARNING (MsgAlreadyExists ["P1"; "b.dcm"]%string)) demo_world).
Proof.
  apply (C2_existing_destination_is_skipped
           [] [] ["P1"; "b.dcm"]%string ["P1"%string] demo_world demo_world 0).
  - reflexivity.
  - right. split; [now exists "b.dcm"%string | reflexivity].
Defined.

(** C10: in a run without external failure, among candidate files that share
    a basename whose destination in the target directory is absent at the
    start, the first in list order is moved there; a later one meets the
    existence check when its turn comes, is skipped with a warning, and at
    the end of the batch still holds its content at its original path, while
    the destination holds the content of the first. *)
Theorem C10_first_of_colliding_basenames_wins :
  forall (pre mid rest : list path) (c1 c2 P : path) (w w' : world)
         (data1 data2 : string) (n : nat),
    let files := pre ++ c1 :: mid ++ c2 :: rest in
    let d := os_path_join P (os_path_basename c1) in
    oracle w = [] ->
    NoDup files ->
    Forall (fun q => is_file (fs w) q = true) files ->
    Forall (fun q => os_path_basename q <> os_path_basename c1) pre ->
    os_path_basename c2 = os_path_basename c1 ->
    stat (fs w) c1 = Some (KFile data1) ->
    stat (fs w) c2 = Some (KFile data2) ->
    stat (fs w) P = Some KDir ->
    stat (fs w) d = None ->
    move_dcm_files files P w = (Ok n, w') ->
    (exists n1 w1 w1',
       move_dcm_files pre P w = (Ok n1, w1) /\
       move_dcm_file c1 P n1 w1 = (Ok (n1 + 1), w1') /\
       events w1' = events w1 ++ [EvMove c1 d None; EvSleep] /\
       stat (fs w1') c1 = None /\ stat (fs w1') d = Some (KFile data1)) /\
    (exists k wm,
       move_dcm_files (pre ++ c1 :: mid) P w = (Ok k, wm) /\
       stat (fs wm) d = Some (KFile data1) /\
       move_dcm_file c2 P k wm =
         (Ok k, emit (EvLog WARNING (MsgAlreadyExists d)) wm)) /\
    stat (fs w') c1 = None /\
    stat (fs w') d = Some (KFile data1) /\
    stat (fs w') c2 = Some (KFile data2).
Proof.
  intros pre mid rest c1 c2 P w w' data1 data2 n files d
         Hq Hnd Hfiles Hfirst Hb Hc1 Hc2 HP Hd Hall.
  pose proof (is_file_not_dir _ _ Hfiles) as Hdirs.
  unfold files in Hdirs. apply Forall_app in Hdirs as [Dpre Dpost].
  inversion Dpost as [|? ? _ Dpost']; subst.
  apply Forall_app in Dpost' as [Dmid Drest'].
  inversion Drest' as [|? ? _ Drest]; subst. clear Dpost Drest'.
  assert (Hpre_ne : forall c', In c' pre -> c' <> c1 /\ c' <> c2).
  { intros c' Hin. pose proof (NoDup_app_disjoint _ _ Hnd c' Hin) as Hdis.
    split; intros ->; apply Hdis.
    - now left.
    - right. apply in_or_app. right. now left. }
  assert (H12 : c2 <> c1).
  { unfold files in Hnd. apply NoDup_app_remove_l in Hnd.
    inversion Hnd as [|? ? Hni _]; subst. intros ->. apply Hni.
    apply in_or_app. right. now left. }
  (* the candidates before the first colliding one *)
  destruct (move_dcm_files_from_total pre P 0 w) as (n1 & w1 & Epre).
  assert (I1 : stat (fs w1) c1 = Some (KFile data1) /\ stat (fs w1) d = None /\
               stat (fs w1) P = Some KDir /\ stat (fs w1) c2 = Some (KFile data2)).
  { apply (move_dcm_files_from_invariant
             (fun t => stat t c1 = Some (KFile data1) /\ stat t d = None /\
                       stat t P = Some KDir /\ stat t c2 = Some (KFile data2))
             P pre) with (k := 0) (w := w) (n := n1); try assumption; [|now repeat split].
    intros t c' t' Hin (J1 & J2 & J3 & J4) Hm.
    destruct (Hpre_ne c' Hin) as [N1 N2].
    assert (N3 : P <> c').
    { intros <-. pose proof (relocated_at_source _ _ _ _ Hm) as Hs.
      destruct (relocated_stat _ _ _ _ Hm) as (ky & gone & _ & [Hc'|[dc Hc']] & _);
        congruence. }
    repeat split.
    - apply (relocated_keeps _ _ _ _ _ _ Hm J1). congruence.
    - apply (relocated_absent _ _ _ _ d Hm J2).
      intros E. apply (f_equal os_path_basename) in E. unfold d in E.
      rewrite !basename_join in E. rewrite Forall_forall in Hfirst.
      now apply (Hfirst c' Hin).
    - apply (relocated_keeps _ _ _ _ _ _ Hm J3). exact N3.
    - apply (relocated_keeps _ _ _ _ _ _ Hm J4). congruence. }
  destruct I1 as (J1 & J2 & J3 & J4).
  pose proof (move_dcm_files_from_quiet pre P 0 n1 w w1 Hq Epre) as Hq1.
  pose proof (move_dcm_files_from_isdir pre P 0 n1 w w1 Dpre Epre) as Hd1.
  (* the first colliding candidate *)
  destruct (move_dcm_file_moves c1 P n1 w1 data1 Hq1 J1 J2 J3)
    as (w1' & Estep & Hm & Hq1' & Hev).
  destruct (moved_to_top_stat _ _ _ _ Hm) as (_ & Hstat). fold d in Hstat.
  assert (Hc1d : path_eqb c1 d = false).
  { apply path_eqb_neq. intros E. rewrite E in J1. congruence. }
  assert (K1 : stat (fs w1') c1 = None)
    by (rewrite Hstat, Hc1d; now rewrite path_eqb_refl).
  assert (K2 : stat (fs w1') d = Some (KFile data1))
    by (rewrite Hstat, path_eqb_refl; exact J1).
  assert (K3 : stat (fs w1') c2 = Some (KFile data2))
    by now apply (relocated_keeps _ _ _ _ _ _ (or_introl Hm) J4).
  assert (Hd1' : forall q, os_path_isdir (fs w1') q = os_path_isdir (fs w) q).
  { intros q. now rewrite (relocated_isdir _ _ _ _ q (or_introl Hm)). }
  (* an invariant of every later step *)
  assert (Keep : forall t c' t',
            (stat t c1 = None /\ stat t d = Some (KFile data1) /\
             stat t c2 = Some (KFile data2)) ->
            relocated t c' P t' ->
            stat t' c1 = None /\ stat t' d = Some (KFile data1) /\
            stat t' c2 = Some (KFile data2)).
  { intros t c' t' (L1 & L2 & L3) Hm'.
    destruct (relocated_settled _ _ _ _ c1 _ Hm' L2) as [M1 M2].
    assert (L2' : stat t (os_path_join P (os_path_basename c2)) = Some (KFile data1))
      by now rewrite Hb.
    destruct (relocated_settled _ _ _ _ c2 _ Hm' L2') as [_ M3].
    repeat split; [congruence | exact M1 | congruence]. }
  (* the candidates between the two *)
  destruct (move_dcm_files_from_total mid P (n1 + 1) w1') as (k & wm & Emid).
  assert (Dmid' : Forall (fun q => os_path_isdir (fs w1') q = false) mid).
  { eapply Forall_impl; [|exact Dmid]. intros q Hq0. now rewrite Hd1'. }
  assert (Im : stat (fs wm) c1 = None /\ stat (fs wm) d = Some (KFile data1) /\
               stat (fs wm) c2 = Some (KFile data2)).
  { apply (move_dcm_files_from_invariant
             (fun t => stat t c1 = None /\ stat t d = Some (KFile data1) /\
                       stat t c2 = Some (KFile data2))
             P mid) with (k := n1 + 1) (w := w1') (n := k); try assumption;
      [|now repeat split].
    intros t c' t' _. apply Keep. }
  pose proof (move_dcm_files_from_isdir mid P _ _ _ _ Dmid' Emid) as Hdm.
  assert (Eupto : move_dcm_files (pre ++ c1 :: mid) P w = (Ok k, wm)).
  { unfold move_dcm_files.
    rewrite (move_dcm_files_from_app pre (c1 :: mid) P 0 w n1 w1 Epre).
    now rewrite (move_dcm_files_from_cons c1 mid P n1 _ _ _ Estep). }
  (* the later colliding candidate *)
  assert (Eskip : move_dcm_file c2 P k wm =
                  (Ok k, emit (EvLog WARNING (MsgAlreadyExists d)) wm)).
  { unfold d. rewrite <- Hb. apply move_dcm_file_skip.
    rewrite stat_exists, Hb. fold d. now rewrite (proj1 (proj2 Im)). }
  (* the rest of the batch *)
  assert (Erest : move_dcm_files_from rest P k
                    (emit (EvLog WARNING (MsgAlreadyExists d)) wm) = (Ok n, w')).
  { rewrite <- Hall. unfold move_dcm_files, files.
    replace (pre ++ c1 :: mid ++ c2 :: rest) with ((pre ++ c1 :: mid) ++ c2 :: rest)
      by (now rewrite <- app_assoc).
    rewrite (move_dcm_files_from_app (pre ++ c1 :: mid) (c2 :: rest) P 0 w k wm Eupto).
    now rewrite (move_dcm_files_from_cons c2 rest P k _ _ _ Eskip). }
  assert (If : stat (fs w') c1 = None /\ stat (fs w') d = Some (KFile data1) /\
               stat (fs w') c2 = Some (KFile data2)).
  { apply (move_dcm_files_from_invariant
             (fun t => stat t c1 = None /\ stat t d = Some (KFile data1) /\
                       stat t c2 = Some (KFile data2))
             P rest) with (k := k) (w := emit (EvLog WARNING (MsgAlreadyExists d)) wm)
                          (n := n); try assumption.
    - intros t c' t' _. apply Keep.
    - simpl. eapply Forall_impl; [|exact Drest]. intros q Hq0.
      now rewrite Hdm, Hd1'. }
  split; [|split; [|exact If]].
  - exists n1, w1, w1'. now repeat split.
  - exists k, wm. repeat split; [exact Eupto | apply Im | exact Eskip].
Qed.

Lemma C10_first_of_colliding_basenames_wins_witness :
  let c1 := ["P1"; "a"; "x.dcm"]%string in
  let c2 := ["P1"; "b"; "x.dcm"]%string in
  let w' := snd (move_dcm_files [c1; c2] ["P1"%string] collision_world) in
  stat (fs w') c1 = None /\
  stat (fs w') ["P1"; "x.dcm"]%string = Some (KFile "first") /\
  stat (fs w') c2 = Some (KFile "second").
Proof.
  intros c1 c2 w'.
  destruct (C10_first_of_colliding_basenames_wins
              [] [] [] c1 c2 ["P1"%string] collision_world w'
              "first"%string "second"%string 1) as (_ & _ & H);
    try reflexivity.
  - constructor; [intros [E|[]]; discriminate|].
    constructor; [intros []|constructor].
  - repeat constructor.
  - constructor.
  - exact H.
Defined.

(** * The walk *)

Lemma walk_node_Dir (top : path) (es : list (string * node)) (w : world) :
  walk_node top (Dir es) w =
  match next_fault w with
  | (None, w1) =>
      let (below, w3) := walk_children top es (emit (EvScandir top) w1) in
      ((top, dirs_of es, nondirs_of es) :: below, w3)
  | (Some _, w1) => ([], emit (EvScandir top) w1)
  end.
Proof.
  simpl. destruct (next_fault w) as [[e|] w1]; [reflexivity|].
  match goal with
  | |- (let (_, _) := ?A in _) = _ =>
      assert (E : A = walk_children top es (emit (EvScandir top) w1))
  end.
  { generalize (emit (EvScandir top) w1).
    induction es as [|[name child] es IH]; intros w0; [reflexivity|].
    simpl. destruct (is_dir_node child); [|apply IH].
    destruct (walk_node (os_path_join top name) child w0) as [here w'].
    now rewrite IH. }
  now rewrite E.
Qed.

Lemma walk_node_File (top : path) (d : string) (w : world) :
  walk_node top (File d) w = ([], emit (EvScandir top) (snd (next_fault w))).
Proof. simpl. now destruct (next_fault w) as [[e|] w1]. Qed.

Lemma walk_node_Link (top : path) (tg : string) (w : world) :
  walk_node top (Link tg) w = ([], emit (EvScandir top) (snd (next_fault w))).
Proof. simpl. now destruct (next_fault w) as [[e|] w1]. Qed.

Lemma next_fault_quiet_inv (w w1 : world) (e : exn) :
  next_fault w = (Some e, w1) -> oracle w <> [].
Proof. unfold next_fault. destruct (oracle w); [discriminate | discriminate]. Qed.

Lemma resolve_Dir_cons (n0 : string) (x : node) (l : list (string * node))
    (name : string) (r : path) :
  resolve (Dir ((n0, x) :: l)) (name :: r) =
  if String.eqb name n0 then resolve x r else resolve (Dir l) (name :: r).
Proof. simpl. now destruct (String.eqb name n0). Qed.

Ltac walk_split :=
  split; [|split; [|split; [|let Hq := fresh "Hq" in intros Hq; split]]].

Lemma walk_children_correct (top : path) (l : list (string * node)) :
  Forall (fun e => forall top w items w',
            walk_node top (snd e) w = (items, w') ->
            walk_spec top (snd e) w items w') l ->
  forall w items w',
  walk_children top l w = (items, w') -> walk_children_spec top l w items w'.
Proof.
  induction l as [|[n0 x] l IH]; intros HP w items w' H.
  - simpl in H. injection H as <- <-. walk_split.
    + reflexivity.
    + exists []. rewrite app_nil_r. split; [reflexivity | constructor].
    + intros _ root ds fl [].
    + assumption.
    + intros name r es Hr. simpl in Hr. discriminate.
  - inversion HP as [|? ? Hx Hl]; subst. simpl in Hx. specialize (IH Hl).
    simpl in H. destruct (is_dir_node x) eqn:Edir.
    + destruct (walk_node (os_path_join top n0) x w) as [here w1] eqn:E1.
      destruct (walk_children top l w1) as [rest w2] eqn:E2.
      injection H as <- <-.
      apply Hx in E1 as (F1 & (tr1 & T1 & S1) & Snd1 & Cmp1).
      apply IH in E2 as (F2 & (tr2 & T2 & S2) & Snd2 & Cmp2).
      walk_split.
      * congruence.
      * exists (tr1 ++ tr2). rewrite T2, T1, app_assoc.
        split; [reflexivity | now apply Forall_app].
      * intros Hwf root ds fl Hin.
        rewrite wf_entries_cons, !andb_true_iff in Hwf.
        destruct Hwf as [[Hn0 Hwx] Hwl].
        apply in_app_or in Hin as [Hin|Hin].
        -- destruct (Snd1 Hwx _ _ _ Hin) as (r & es & -> & Hr & -> & ->).
           exists n0, r, es. unfold os_path_join. rewrite <- app_assoc.
           rewrite resolve_Dir_cons, String.eqb_refl. now repeat split.
        -- destruct (Snd2 Hwl _ _ _ Hin) as (name & r & es & -> & Hr & -> & ->).
           exists name, r, es. rewrite resolve_Dir_cons.
           destruct (String.eqb_spec name n0) as [->|Hne]; [|now repeat split].
           exfalso. simpl in Hr. destruct (entry_lookup n0 l); discriminate.
      * apply Cmp2. now apply Cmp1.
      * intros name r es Hr. rewrite resolve_Dir_cons in Hr. apply in_or_app.
        destruct (String.eqb_spec name n0) as [->|Hne].
        -- left. destruct (Cmp1 Hq) as [_ C]. specialize (C r es Hr).
           unfold os_path_join in C. now rewrite <- app_assoc in C.
        -- right. destruct (Cmp1 Hq) as [Q1 _]. destruct (Cmp2 Q1) as [_ C].
           now apply C.
    + apply IH in H as (F2 & T2 & Snd2 & Cmp2). walk_split.
      * exact F2.
      * exact T2.
      * intros Hwf root ds fl Hin.
        rewrite wf_entries_cons, !andb_true_iff in Hwf.
        destruct Hwf as [[Hn0 Hwx] Hwl].
        destruct (Snd2 Hwl _ _ _ Hin) as (name & r & es & -> & Hr & -> & ->).
        exists name, r, es. rewrite resolve_Dir_cons.
        destruct (String.eqb_spec name n0) as [->|Hne]; [|now repeat split].
        exfalso. simpl in Hr. destruct (entry_lookup n0 l); discriminate.
      * now apply Cmp2.
      * intros name r es Hr. rewrite resolve_Dir_cons in Hr.
        destruct (String.eqb_spec name n0) as [->|Hne].
        -- exfalso. destruct x as [d|es0|tg]; [|discriminate|];
             destruct r; discriminate.
        -- destruct (Cmp2 Hq) as [_ C]. now apply C.
Qed.

Lemma walk_node_correct (n : node) :
  forall top w items w',
  walk_node top n w = (items, w') -> walk_spec top n w items w'.
Proof.
  induction n as [d|es HP|tg] using node_induction; intros top w items w' H.
  - rewrite walk_node_File in H. injection H as <- <-. walk_split.
    + simpl. apply next_fault_fs.
    + exists [EvScandir top]. simpl. rewrite next_fault_events.
      split; [reflexivity | now repeat constructor].
    + intros _ root ds fl [].
    + rewrite (next_fault_quiet w Hq). assumption.
    + intros r es Hr. destruct r; discriminate.
  - rewrite walk_node_Dir in H.
    pose proof (next_fault_fs w) as Ff. pose proof (next_fault_events w) as Fe.
    destruct (next_fault w) as [[e|] w1] eqn:En; simpl in Ff, Fe.
    + injection H as <- <-. walk_split.
      * exact Ff.
      * exists [EvScandir top]. simpl. rewrite Fe.
        split; [reflexivity | now repeat constructor].
      * intros _ root ds fl [].
      * exfalso. now apply (next_fault_quiet_inv _ _ _ En).
      * exfalso. now apply (next_fault_quiet_inv _ _ _ En).
    + destruct (walk_children top es (emit (EvScandir top) w1)) as [below w3] eqn:Ec.
      injection H as <- <-.
      apply (walk_children_correct top es HP) in Ec as (F & (tr & T & S) & Snd & Cmp).
      walk_split.
      * simpl in F. congruence.
      * exists (EvScandir top :: tr). rewrite T. simpl. rewrite Fe, <- app_assoc.
        split; [reflexivity | now constructor].
      * intros Hwf root ds fl [E|Hin].
        -- injection E as <- <- <-. exists [], es. rewrite app_nil_r. now repeat split.
        -- rewrite well_formed_Dir in Hwf.
           destruct (Snd Hwf _ _ _ Hin) as (name & r & es' & -> & Hr & -> & ->).
           exists (name :: r), es'. now repeat split.
      * apply Cmp. simpl. rewrite (next_fault_quiet w Hq) in En. now injection En as <-.
      * intros r es' Hr. destruct r as [|name r].
        -- simpl in Hr. injection Hr as <-. left. now rewrite app_nil_r.
        -- right. assert (Q : oracle (emit (EvScandir top) w1) = []).
           { simpl. rewrite (next_fault_quiet w Hq) in En. now injection En as <-. }
           destruct (Cmp Q) as [_ C]. now apply C.
  - rewrite walk_node_Link in H. injection H as <- <-. walk_split.
    + simpl. apply next_fault_fs.
    + exists [EvScandir top]. simpl. rewrite next_fault_events.
      split; [reflexivity | now repeat constructor].
    + intros _ root ds fl [].
    + rewrite (next_fault_quiet w Hq). assumption.
    + intros r es Hr. destruct r; discriminate.
Qed.

Lemma In_nondirs_of (file : string) (es : list (string * node)) :
  In file (nondirs_of es) <-> exists x, In (file, x) es /\ is_dir_node x = false.
Proof.
  unfold nondirs_of. rewrite in_map_iff. split.
  - intros ([name x] & <- & Hin). apply filter_In in Hin as [Hin Hnd].
    exists x. split; [exact Hin|]. simpl in Hnd. now destruct (is_dir_node x).
  - intros (x & Hin & Hx). exists (file, x). split; [reflexivity|].
    apply filter_In. split; [exact Hin|]. simpl. now rewrite Hx.
Qed.

Lemma os_walk_correct (top : path) (w : world) :
  exists items w',
    os_walk top w = (Ok items, w') /\
    match resolve (fs w) top with
    | Some n => walk_spec top n w items w'
    | None => items = [] /\ w' = emit (EvScandir top) (snd (next_fault w))
    end.
Proof.
  unfold os_walk. destruct (resolve (fs w) top) as [n|] eqn:E.
  - destruct (walk_node top n w) as [items w'] eqn:Ew. exists items, w'.
    split; [reflexivity | now apply walk_node_correct].
  - destruct (next_fault w) as [flt w1]. now eexists _, _.
Qed.

(** What [list_dcm_files] returns and leaves behind. *)
Lemma list_dcm_files_correct (P : path) (ext : string) (w : world) :
  exists files w',
    list_dcm_files P ext w = (Ok files, w') /\
    fs w' = fs w /\
    (exists tr, events w' = events w ++ tr /\
                Forall (fun ev => is_scandir ev = true) tr) /\
    (well_formed (fs w) = true ->
     forall p, In p files ->
     exists r, r <> [] /\ p = P ++ r /\ is_file (fs w) p = true /\
               endswith (os_path_basename p) ext = true) /\
    (oracle w = [] ->
     oracle w' = [] /\
     forall r, r <> [] -> is_file (fs w) (P ++ r) = true ->
               endswith (os_path_basename (P ++ r)) ext = true ->
               In (P ++ r) files).
Proof.
  unfold list_dcm_files, bind, ret.
  destruct (os_walk_correct P w) as (items & w' & -> & Hspec).
  eexists _, w'. split; [reflexivity|].
  destruct (resolve (fs w) P) as [n|] eqn:EP.
  - destruct Hspec as (F & T & Snd & Cmp). walk_split.
    + exact F.
    + exact T.
    + intros Hwf p Hin. apply in_flat_map in Hin as ([[root ds] fl] & Hitem & Hin).
      apply in_map_iff in Hin as (file & <- & Hin).
      apply filter_In in Hin as [Hfile Hext].
      pose proof (well_formed_resolve P _ _ Hwf EP) as Hwn.
      destruct (Snd Hwn _ _ _ Hitem) as (r & es & -> & Hr & -> & ->).
      apply In_nondirs_of in Hfile as (x & Hfile & Hx).
      pose proof (well_formed_resolve r _ _ Hwn Hr) as Hwes.
      rewrite well_formed_Dir in Hwes.
      apply (In_entry_lookup _ _ _ Hwes) in Hfile.
      exists (r ++ [file]). unfold os_path_join. rewrite <- app_assoc.
      split; [now destruct r|]. split; [reflexivity|]. split.
      * unfold is_file. rewrite resolve_app, EP, resolve_app, Hr. simpl.
        rewrite Hfile. now destruct x.
      * rewrite app_assoc. unfold os_path_basename. now rewrite last_last.
    + now apply Cmp.
    + intros r Hne Hf Hext. destruct (Cmp Hq) as [_ C].
      destruct (@exists_last _ r Hne) as (r0 & file & ->).
      unfold is_file in Hf. rewrite resolve_app, EP, resolve_app in Hf.
      destruct (resolve n r0) as [[d0|es|tg0]|] eqn:Er0; try discriminate.
      simpl in Hf. destruct (entry_lookup file es) as [x|] eqn:Ef;
        [|discriminate].
      apply in_flat_map. exists (P ++ r0, dirs_of es, nondirs_of es).
      split; [now apply C|]. apply in_map_iff. exists file.
      split; [unfold os_path_join; now rewrite <- app_assoc|].
      apply filter_In. split.
      * apply In_nondirs_of. exists x. split; [now apply entry_lookup_In|].
        now destruct x.
      * rewrite app_assoc in Hext. unfold os_path_basename in Hext.
        now rewrite last_last in Hext.
  - destruct Hspec as [-> ->]. simpl. walk_split.
    + apply next_fault_fs.
    + exists [EvScandir P]. rewrite next_fault_events.
      split; [reflexivity | now repeat constructor].
    + intros _ p [].
    + now rewrite (next_fault_quiet w Hq).
    + intros r Hne Hf _. unfold is_file in Hf. rewrite resolve_app, EP in Hf.
      discriminate.
Qed.

(** *** Every path is returned once *)

Lemma NoDup_flat_map {A B K : Type} (key : A -> K) (g : A -> list B)
    (items : list A) :
  NoDup (map key items) ->
  (forall i, In i items -> NoDup (g i)) ->
  (forall i j x, In i items -> In j items -> In x (g i) -> In x (g j) ->
                 key i = key j) ->
  NoDup (flat_map g items).
Proof.
  induction items as [|i items IH]; intros Hk Hg Hsame; simpl; [constructor|].
  simpl in Hk. inversion Hk as [|? ? Hni Hk']; subst.
  apply NoDup_app.
  - apply Hg. now left.
  - apply IH; [exact Hk' | intros j Hj; apply Hg; now right|].
    intros a b x Ha Hb. apply Hsame; now right.
  - intros x Hx Hin. apply in_flat_map in Hin as (j & Hj & Hxj).
    apply Hni. rewrite (Hsame i j x (or_introl eq_refl) (or_intror Hj) Hx Hxj).
    now apply in_map.
Qed.

Lemma NoDup_map_fst_filter (f : string * node -> bool) (es : list (string * node)) :
  NoDup (map fst es) -> NoDup (map fst (filter f es)).
Proof.
  induction es as [|e es IH]; simpl; intros H; [constructor|].
  inversion H as [|? ? Hni H']; subst.
  destruct (f e); simpl; [|now apply IH].
  constructor; [|now apply IH].
  intros Hin. apply Hni. apply in_map_iff in Hin as (e' & <- & Hin).
  apply filter_In in Hin as [Hin _]. now apply in_map.
Qed.

Lemma NoDup_map_join (root : path) (l : list string) :
  NoDup l -> NoDup (map (os_path_join root) l).
Proof.
  induction l as [|a l IH]; simpl; intros H; [constructor|].
  inversion H as [|? ? Hni H']; subst. constructor; [|now apply IH].
  intros Hin. apply in_map_iff in Hin as (b & E & Hb). unfold os_path_join in E.
  apply app_inj_tail in E as [_ ->]. contradiction.
Qed.

Lemma walk_node_everywhere (n : node) (top : path) (w : world) :
  walk_spec top n w (fst (walk_node top n w)) (snd (walk_node top n w)).
Proof. apply walk_node_correct. now destruct (walk_node top n w). Qed.

Lemma walk_children_everywhere (top : path) (l : list (string * node)) (w : world) :
  walk_children_spec top l w (fst (walk_children top l w))
                     (snd (walk_children top l w)).
Proof.
  apply walk_children_correct; [|now destruct (walk_children top l w)].
  apply Forall_forall. intros e _ top0 w0 items w' H. now apply walk_node_correct.
Qed.

Lemma walk_children_roots (top : path) (l : list (string * node)) :
  Forall (fun e => forall top w, well_formed (snd e) = true ->
            NoDup (map root_of (fst (walk_node top (snd e) w)))) l ->
  forall w, wf_entries l = true ->
  NoDup (map root_of (fst (walk_children top l w))).
Proof.
  induction l as [|[n0 x] l IH]; intros HP w Hwf; [constructor|].
  inversion HP as [|? ? Hx Hl]; subst. simpl in Hx.
  pose proof Hwf as Hwf0.
  rewrite wf_entries_cons, !andb_true_iff in Hwf. destruct Hwf as [[Hn0 Hwx] Hwl].
  simpl. destruct (is_dir_node x); [|now apply IH].
  pose proof (Hx (os_path_join top n0) w Hwx) as N1.
  pose proof (walk_node_everywhere x (os_path_join top n0) w) as (_ & _ & S1 & _).
  destruct (walk_node (os_path_join top n0) x w) as [here w1]. simpl in N1, S1.
  pose proof (IH Hl w1 Hwl) as N2.
  pose proof (walk_children_everywhere top l w1) as (_ & _ & S2 & _).
  destruct (walk_children top l w1) as [rest w2]. simpl in N2, S2 |- *.
  rewrite map_app. apply NoDup_app; [exact N1 | exact N2|].
  intros root H1 H2.
  apply in_map_iff in H1 as ([[r1 d1] f1] & <- & H1).
  apply in_map_iff in H2 as ([[r2 d2] f2] & E & H2). unfold root_of in E. simpl in E.
  subst r2.
  destruct (S1 Hwx _ _ _ H1) as (r & es & E1 & _).
  destruct (S2 Hwl _ _ _ H2) as (name & r' & es' & E2 & Hr' & _).
  unfold root_of in E2. simpl in E2. rewrite E1 in E2. unfold os_path_join in E2.
  rewrite <- app_assoc in E2. apply app_inv_head in E2. injection E2 as -> _.
  simpl in Hr'. destruct (entry_lookup name l); discriminate.
Qed.

Lemma walk_node_roots (n : node) :
  forall top w, well_formed n = true ->
  NoDup (map root_of (fst (walk_node top n w))).
Proof.
  induction n as [d|es HP|tg] using node_induction; intros top w Hwf;
    [rewrite walk_node_File; constructor | | rewrite walk_node_Link; constructor].
  - rewrite walk_node_Dir. destruct (next_fault w) as [[e|] w1]; [constructor|].
    rewrite well_formed_Dir in Hwf.
    pose proof (walk_children_roots top es HP (emit (EvScandir top) w1) Hwf) as N.
    pose proof (walk_children_everywhere top es (emit (EvScandir top) w1))
      as (_ & _ & S & _).
    destruct (walk_children top es (emit (EvScandir top) w1)) as [below w3].
    simpl in N, S |- *. constructor; [|exact N].
    intros Hin. apply in_map_iff in Hin as ([[r1 d1] f1] & E & Hin).
    unfold root_of in E. simpl in E. subst r1.
    destruct (S Hwf _ _ _ Hin) as (name & r & es' & E & _).
    apply (f_equal (@List.length string)) in E. rewrite length_app in E.
    simpl in E. lia.
Qed.

Lemma list_dcm_files_NoDup (P : path) (ext : string) (w w' : world)
    (files : list path) :
  well_formed (fs w) = true ->
  list_dcm_files P ext w = (Ok files, w') ->
  NoDup files.
Proof.
  intros Hwf. unfold list_dcm_files, bind, ret, os_walk.
  destruct (resolve (fs w) P) as [n|] eqn:EP.
  - pose proof (well_formed_resolve P _ _ Hwf EP) as Hwn.
    pose proof (walk_node_roots n P w Hwn) as N.
    pose proof (walk_node_everywhere n P w) as (_ & _ & S & _).
    destruct (walk_node P n w) as [items w1]. simpl in N, S.
    intros [= <- <-]. apply (NoDup_flat_map root_of); [exact N| |].
    + intros [[root ds] fl] Hi. destruct (S Hwn _ _ _ Hi) as (r & es & _ & Hr & _ & ->).
      apply NoDup_map_join.
      apply NoDup_filter. unfold nondirs_of. apply NoDup_map_fst_filter.
      apply wf_entries_NoDup. pose proof (well_formed_resolve r _ _ Hwn Hr) as H.
      now rewrite well_formed_Dir in H.
    + intros [[r1 d1] f1] [[r2 d2] f2] x _ _ H1 H2. unfold root_of. simpl.
      apply in_map_iff in H1 as (a & <- & _). apply in_map_iff in H2 as (b & E & _).
      unfold os_path_join in E. now apply app_inj_tail in E as [E _].
  - destruct (next_fault w). intros [= <- <-]. constructor.
Qed.

(** C5: on a tree with unique names and without external failure,
    [list_dcm_files] returns exactly the paths below the directory, at any
    depth, that are files (entries that are not directories) and whose name
    is some stem followed by the extension string, each of them once; the
    test is a suffix test on characters, so [foo.dcm]
    and [foo.old.dcm] match [.dcm], and nothing named [x.dcm] is ever returned
    for [.DCM]. *)
Theorem C5_list_dcm_files_matches_suffix :
  (forall (P : path) (ext : string) (w : world),
     well_formed (fs w) = true ->
     oracle w = [] ->
     exists files w',
       list_dcm_files P ext w = (Ok files, w') /\
       fs w' = fs w /\
       NoDup files /\
       forall p,
         In p files <->
         (exists r, r <> [] /\ p = P ++ r) /\
         is_file (fs w) p = true /\
         exists stem, os_path_basename p = (stem ++ ext)%string) /\
  endswith "foo.dcm" ".dcm" = true /\
  endswith "foo.old.dcm" ".dcm" = true /\
  endswith "x.dcm" ".DCM" = false /\
  (forall (P p : path) (w w' : world) (files : list path),
     well_formed (fs w) = true ->
     list_dcm_files P ".DCM" w = (Ok files, w') ->
     os_path_basename p = "x.dcm"%string ->
     ~ In p files).
Proof.
  split; [|split; [reflexivity|split; [reflexivity|split; [reflexivity|]]]].
  - intros P ext w Hwf Hq.
    destruct (list_dcm_files_correct P ext w) as (files & w' & E & F & _ & Snd & Cmp).
    exists files, w'. split; [exact E|]. split; [exact F|].
    split; [now apply (list_dcm_files_NoDup P ext w w')|].
    intros p. split.
    + intros Hin. destruct (Snd Hwf p Hin) as (r & Hne & -> & Hf & Hext).
      split; [now exists r|]. split; [exact Hf|]. now apply endswith_iff.
    + intros ((r & Hne & ->) & Hf & Hstem). destruct (Cmp Hq) as [_ C].
      apply C; [exact Hne | exact Hf | now apply endswith_iff].
  - intros P p w w' files Hwf E Hb Hin.
    destruct (list_dcm_files_correct P ".DCM" w) as (files0 & w0 & E0 & _ & _ & Snd & _).
    rewrite E in E0. injection E0 as <- <-.
    destruct (Snd Hwf p Hin) as (r & _ & _ & _ & Hext).
    rewrite Hb in Hext. discriminate.
Qed.

Lemma C5_list_dcm_files_matches_suffix_witness :
  exists files w',
    list_dcm_files ["P1"%string] ".dcm" demo_world = (Ok files, w') /\
    In ["P1"; "sub"; "deep"; "a.dcm"]%string files.
Proof.
  destruct (proj1 C5_list_dcm_files_matches_suffix ["P1"%string] ".dcm"%string
              demo_world eq_refl eq_refl) as (files & w' & E & _ & _ & Hiff).
  exists files, w'. split; [exact E|]. apply Hiff. split.
  - exists ["sub"; "deep"; "a.dcm"]%string. split; [discriminate | reflexivity].
  - split; [reflexivity|]. now exists "a"%string.
Defined.

(** * One patient directory *)

Lemma os_listdir_snd (p : path) (w : world) :
  snd (os_listdir p w) = emit (EvListdir p) (snd (next_fault w)).
Proof.
  unfold os_listdir. destruct (next_fault w) as [[e|] w1]; simpl; [reflexivity|].
  now destruct (listdir_on (fs w1) p).
Qed.

(** C1: for every patient directory the walk runs to its end first, on the
    tree as it is before any move and without changing it; the record of the
    run is the [scandir] calls of the walk followed by a part with no
    [scandir] at all, in which every move, attempted or done, has its source
    in the list the walk returned, and the relocation loop is called on
    exactly that list. *)
Theorem C1_candidates_are_listed_before_any_move :
  forall (disk_path : path) (patient_dir file_extension : string) (w : world),
    let P := os_path_join disk_path patient_dir in
    let run := process_patient_directory disk_path patient_dir file_extension w in
    exists files w0 tr_walk tr_rest,
      list_dcm_files P file_extension w = (Ok files, w0) /\
      fs w0 = fs w /\
      events w0 = events w ++ tr_walk /\
      Forall (fun ev => is_scandir ev = true) tr_walk /\
      events (snd run) = events w ++ tr_walk ++ tr_rest /\
      Forall (fun ev => is_scandir ev = false) tr_rest /\
      Forall (fun ev => forall src, move_source ev = Some src -> In src files)
             tr_rest /\
      (files <> [] ->
       exists n w1,
         move_dcm_files files P
           (emit (EvLog INFO (MsgBefore patient_dir (List.length files))) w0) =
         (Ok n, w1) /\
         (fst run = Ok n \/ exists e, fst run = Raise e)).
Proof.
  intros disk_path patient_dir ext w P run.
  destruct (list_dcm_files_correct P ext w)
    as (files & w0 & E & F & (tr & T & S) & _ & _).
  exists files, w0, tr.
  destruct run as [r w'] eqn:Erun. unfold run in Erun. clear run. simpl.
  unfold process_patient_directory, bind in Erun. fold P in Erun. rewrite E in Erun.
  destruct files as [|c files].
  - unfold log, ret in Erun. injection Erun as <- <-.
    exists [EvLog INFO (MsgNoFiles patient_dir)]. simpl.
    repeat split; try assumption.
    + now rewrite T, <- app_assoc.
    + now repeat constructor.
    + repeat constructor. discriminate.
    + congruence.
  - set (files0 := c :: files) in *.
    set (w0' := emit (EvLog INFO (MsgBefore patient_dir (List.length files0))) w0).
    unfold log at 1 in Erun. fold w0' in Erun.
    destruct (move_dcm_files_from_total files0 P 0 w0') as (n & w1 & Em).
    destruct (move_dcm_files_from_trace _ _ _ _ _ _ Em) as (tr1 & T1 & _ & S1 & M1).
    unfold move_dcm_files in *. rewrite Em in Erun.
    pose proof (os_listdir_snd P w1) as Hl.
    destruct (os_listdir P w1) as [[names|e] w2]; simpl in Hl; subst w2.
    + unfold log, ret in Erun. injection Erun as <- <-.
      exists (EvLog INFO (MsgBefore patient_dir (List.length files0)) :: tr1
              ++ [EvListdir P;
                  EvLog INFO (MsgAfter patient_dir
                    (List.length (filter (fun name => endswith name ext) names)));
                  EvLog INFO (MsgMoved patient_dir n)]).
      simpl. rewrite next_fault_events, T1. simpl. rewrite T.
      repeat split; try assumption.
      * rewrite <- ?app_assoc. simpl. now rewrite <- ?app_assoc.
      * constructor; [reflexivity|]. apply Forall_app. split; [exact S1|].
        now repeat constructor.
      * constructor; [discriminate|]. apply Forall_app. split; [exact M1|].
        repeat constructor; discriminate.
      * intros _. exists n, w1. split; [exact Em | now left].
    + injection Erun as <- <-.
      exists (EvLog INFO (MsgBefore patient_dir (List.length files0)) :: tr1
              ++ [EvListdir P]).
      simpl. rewrite next_fault_events, T1. simpl. rewrite T.
      repeat split; try assumption.
      * rewrite <- ?app_assoc. simpl. now rewrite <- ?app_assoc.
      * constructor; [reflexivity|]. apply Forall_app. split; [exact S1|].
        now repeat constructor.
      * constructor; [discriminate|]. apply Forall_app. split; [exact M1|].
        repeat constructor; discriminate.
      * intros _. exists n, w1. split; [exact Em | right; now exists e].
Qed.

Lemma C1_candidates_are_listed_before_any_move_witness :
  exists files w0,
    list_dcm_files ["P1"%string] ".dcm" demo_world = (Ok files, w0) /\
    fs w0 = fs demo_world.
Proof.
  destruct (C1_candidates_are_listed_before_any_move
              [] "P1"%string ".dcm"%string demo_world)
    as (files & w0 & _ & _ & E & F & _).
  now exists files, w0.
Defined.

(** * Listing the patient directories *)

Lemma insert_sorted_perm (s : string) (l : list string) :
  Permutation (insert_sorted s l) (s :: l).
Proof.
  induction l as [|x l IH]; simpl; [reflexivity|].
  destruct (String.leb s x); [reflexivity|].
  rewrite IH. apply perm_swap.
Qed.

Lemma list_sort_perm (l : list string) : Permutation (list_sort l) l.
Proof.
  induction l as [|x l IH]; simpl; [reflexivity|].
  rewrite insert_sorted_perm. now constructor.
Qed.

Lemma insert_sorted_HdRel (x s : string) (l : list string) :
  HdRel str_le x l -> str_le x s -> HdRel str_le x (insert_sorted s l).
Proof.
  intros Hl Hs. destruct l as [|y l]; simpl; [now constructor|].
  destruct (String.leb s y); constructor; [exact Hs|].
  now inversion Hl.
Qed.

Lemma insert_sorted_sorted (s : string) (l : list string) :
  Sorted str_le l -> Sorted str_le (insert_sorted s l).
Proof.
  induction l as [|x l IH]; intros H; simpl.
  - now repeat constructor.
  - destruct (String.leb s x) eqn:E.
    + constructor; [exact H | now constructor].
    + inversion H as [|? ? Hl Hx]; subst. constructor; [now apply IH|].
      apply insert_sorted_HdRel; [exact Hx|].
      destruct (String.leb_total s x) as [H1|H1]; [congruence | exact H1].
Qed.

Lemma list_sort_sorted (l : list string) : Sorted str_le (list_sort l).
Proof.
  induction l as [|x l IH]; simpl; [constructor | now apply insert_sorted_sorted].
Qed.

Lemma os_listdir_ok (p : path) (w w1 : world) (names : list string) :
  os_listdir p w = (Ok names, w1) ->
  fst (next_fault w) = None /\
  w1 = emit (EvListdir p) (snd (next_fault w)) /\
  exists es, resolve (fs w) p = Some (Dir es) /\ names = map fst es.
Proof.
  unfold os_listdir, listdir_on. rewrite <- (next_fault_fs w).
  destruct (next_fault w) as [[e|] w0]; simpl; [discriminate|].
  destruct (resolve (fs w0) p) as [[d|es|tg]|]; try discriminate.
  intros [= <- <-]. repeat split. now exists es.
Qed.

Lemma os_listdir_raise (p : path) (w w1 : world) (e : exn) :
  os_listdir p w = (Raise e, w1) -> w1 = emit (EvListdir p) (snd (next_fault w)).
Proof.
  intros H. pose proof (os_listdir_snd p w) as Hs. now rewrite H in Hs.
Qed.

Lemma list_patient_directories_failing (disk : path) (srt : bool)
    (w w1 : world) (e : exn) :
  os_listdir disk w = (Raise e, w1) ->
  list_patient_directories disk srt w =
  (Ok [], emit (EvLog ERROR (MsgErrorListing e)) w1).
Proof.
  intros H. unfold list_patient_directories, try_except, bind. now rewrite H.
Qed.

Lemma list_patient_directories_listing (disk : path) (srt : bool)
    (w w1 : world) (names : list string) :
  os_listdir disk w = (Ok names, w1) ->
  let patient_dirs :=
    filter (fun d => os_path_isdir (fs w) (os_path_join disk d)) names in
  list_patient_directories disk srt w =
  (Ok (if srt then list_sort patient_dirs else patient_dirs),
   emit (EvLog INFO (MsgFoundPatientDirs (List.length patient_dirs))) w1).
Proof.
  intros H. unfold list_patient_directories, try_except, bind, gets, log, ret.
  rewrite H. apply os_listdir_ok in H as (_ & -> & _). simpl.
  now rewrite next_fault_fs.
Qed.

(** C7: when listing the root raises, [list_patient_directories] logs one
    error record with the cause and returns the empty list, and [main] then
    completes with a total of zero on an unchanged tree; when listing
    succeeds it returns the names of the immediate children that are
    directories, each as often as the listing has it, in code-point order; a
    second call on the same tree under the same external conditions returns
    the same list, and no call changes the tree. *)
Theorem C7_list_patient_directories_lists_or_degrades :
  (forall (disk : path) (srt : bool) (w w1 : world) (e : exn),
     os_listdir disk w = (Raise e, w1) ->
     list_patient_directories disk srt w =
       (Ok [], emit (EvLog ERROR (MsgErrorListing e)) w1) /\
     fs w1 = fs w) /\
  (forall (disk : path) (ext : string) (w w1 : world) (e : exn),
     os_listdir disk (emit (EvLog INFO (MsgStart disk ext)) w) = (Raise e, w1) ->
     exists w',
       main disk ext w = (Ok 0, w') /\ fs w' = fs w /\
       In (EvLog ERROR (MsgErrorListing e)) (events w') /\
       In (EvLog INFO (MsgTotal 0)) (events w')) /\
  (forall (disk : path) (w w1 : world) (names : list string),
     os_listdir disk w = (Ok names, w1) ->
     exists dirs,
       list_patient_directories disk true w =
         (Ok dirs, emit (EvLog INFO (MsgFoundPatientDirs (List.length dirs))) w1) /\
       fs w1 = fs w /\
       Permutation dirs
         (filter (fun d => os_path_isdir (fs w) (os_path_join disk d)) names) /\
       Sorted str_le dirs /\
       (forall d, In d dirs <-> stat (fs w) (os_path_join disk d) = Some KDir) /\
       (well_formed (fs w) = true -> NoDup dirs)) /\
  (forall (disk : path) (srt : bool) (w w' : world),
     fs w = fs w' ->
     fst (next_fault w) = fst (next_fault w') ->
     fst (list_patient_directories disk srt w) =
     fst (list_patient_directories disk srt w')) /\
  (forall (disk : path) (srt : bool) (w : world),
     fs (snd (list_patient_directories disk srt w)) = fs w).
Proof.
  split; [|split; [|split; [|split]]].
  - intros disk srt w w1 e H. split; [now apply list_patient_directories_failing|].
    apply os_listdir_raise in H as ->. simpl. apply next_fault_fs.
  - intros disk ext w w1 e H. unfold main, bind. unfold log at 1.
    rewrite (list_patient_directories_failing disk true _ _ _ H).
    simpl. unfold ret, log. eexists. split; [reflexivity|].
    apply os_listdir_raise in H as ->. simpl. rewrite next_fault_fs. simpl.
    split; [reflexivity|]. split; apply in_or_app.
    + left. apply in_or_app. left. apply in_or_app. now right; left.
    + now right; left.
  - intros disk w w1 names H.
    set (pd := filter (fun d => os_path_isdir (fs w) (os_path_join disk d)) names).
    exists (list_sort pd).
    rewrite (list_patient_directories_listing disk true _ _ _ H). fold pd.
    pose proof (list_sort_perm pd) as Hperm.
    rewrite (Permutation_length Hperm).
    apply os_listdir_ok in H as (_ & -> & es & Hes & ->).
    split; [reflexivity|]. split; [simpl; apply next_fault_fs|].
    split; [exact Hperm|]. split; [apply list_sort_sorted|]. split.
    + intros d. split.
      * intros Hin. apply (Permutation_in _ Hperm) in Hin.
        apply filter_In in Hin as [_ Hd]. rewrite stat_isdir in Hd.
        now destruct (stat (fs w) (os_path_join disk d)) as [[| |]|].
      * intros Hd. apply (Permutation_in _ (Permutation_sym Hperm)).
        apply filter_In. split; [|now rewrite stat_isdir, Hd].
        apply stat_lstat in Hd.
        unfold lstat, os_path_join in Hd. rewrite resolve_app, Hes in Hd. simpl in Hd.
        destruct (entry_lookup d es) as [x|] eqn:E; [|discriminate].
        apply entry_lookup_In in E. now apply (in_map fst) in E.
    + intros Hwf. apply (Permutation_NoDup (Permutation_sym Hperm)).
      apply NoDup_filter. apply wf_entries_NoDup.
      now apply (well_formed_resolve disk _ _ Hwf Hes).
  - intros disk srt w w' Hfs Hflt.
    unfold list_patient_directories, try_except, bind, gets, log, ret, os_listdir.
    pose proof (next_fault_fs w) as F1. pose proof (next_fault_fs w') as F2.
    destruct (next_fault w) as [o1 u1]. destruct (next_fault w') as [o2 u2].
    simpl in *. subst o2. destruct o1 as [e|]; [reflexivity|].
    rewrite F1, F2, <- Hfs.
    destruct (listdir_on (fs w) disk) as [e|names]; simpl; [reflexivity|].
    now rewrite F1, F2, Hfs.
  - intros disk srt w.
    destruct (os_listdir disk w) as [[names|e] w1] eqn:H.
    + rewrite (list_patient_directories_listing disk srt _ _ _ H). simpl.
      apply os_listdir_ok in H as (_ & -> & _). simpl. apply next_fault_fs.
    + rewrite (list_patient_directories_failing disk srt _ _ _ H). simpl.
      apply os_listdir_raise in H as ->. simpl. apply next_fault_fs.
Qed.

Lemma C7_list_patient_directories_lists_or_degrades_witness :
  exists w',
    main ["nowhere"%string] ".dcm" demo_world = (Ok 0, w') /\
    fs w' = fs demo_world.
Proof.
  destruct (proj1 (proj2 C7_list_patient_directories_lists_or_degrades)
              ["nowhere"%string] ".dcm"%string demo_world
              (snd (os_listdir ["nowhere"%string]
                      (emit (EvLog INFO (MsgStart ["nowhere"%string] ".dcm")) demo_world)))
              FileNotFoundError eq_refl) as (w' & E & F & _).
  now exists w'.
Defined.

(** * Running the pipeline again *)

Lemma move_dcm_files_from_all_skipped (files : list path) (P : path) :
  forall k w,
  Forall (fun c => os_path_exists (fs w) (os_path_join P (os_path_basename c)) = true)
         files ->
  exists w',
    move_dcm_files_from files P k w = (Ok k, w') /\
    fs w' = fs w /\ oracle w' = oracle w.
Proof.
  induction files as [|c files IH]; intros k w H; simpl.
  - unfold ret. now exists w.
  - inversion H as [|? ? Hc Hrest]; subst. unfold bind.
    rewrite move_dcm_file_skip by exact Hc.
    destruct (IH k (emit (EvLog WARNING
                (MsgAlreadyExists (os_path_join P (os_path_basename c)))) w) Hrest)
      as (w' & E & F & O).
    exists w'. now repeat split.
Qed.

Lemma relocated_resting (t : node) (c' P : path) (t' : node) (c : path) :
  relocated t c' P t' -> resting t P c -> resting t' P c.
Proof.
  intros Hm R Hf. rewrite stat_is_regular in Hf. rewrite stat_exists.
  destruct (list_eq_dec string_dec c (os_path_join P (os_path_basename c'))) as [E|N1].
  - rewrite E, basename_join, <- E.
    now destruct (stat t' c) as [[| |]|].
  - unfold resting in R. rewrite stat_is_regular, stat_exists in R.
    assert (Hf0 : match stat t c with Some (KFile _) => true | _ => false end = true).
    { destruct (list_eq_dec string_dec c c') as [->|N2].
      - destruct (relocated_at_source _ _ _ _ Hm) as [E|E]; rewrite E in Hf;
          [exact Hf | discriminate].
      - now rewrite (relocated_elsewhere _ _ _ _ c Hm N2 N1) in Hf. }
    specialize (R Hf0).
    destruct (stat t (os_path_join P (os_path_basename c))) as [k|] eqn:Sd;
      [|discriminate].
    destruct (relocated_settled _ _ _ _ c k Hm Sd) as [-> _]. reflexivity.
Qed.

(** After its own turn, in a run without external failure, a candidate is
    at rest. *)
Lemma move_dcm_file_rests (c P : path) (k n : nat) (w w' : world) :
  oracle w = [] ->
  stat (fs w) P = Some KDir ->
  os_path_isdir (fs w) c = false ->
  move_dcm_file c P k w = (Ok n, w') ->
  resting (fs w') P c.
Proof.
  intros Hq HP Hnd H Hf. rewrite stat_exists.
  destruct (os_path_exists (fs w) (os_path_join P (os_path_basename c))) eqn:E.
  - rewrite move_dcm_file_skip in H by exact E. injection H as _ <-. simpl.
    now rewrite <- stat_exists.
  - destruct (stat (fs w) c) as [[data| |tg]|] eqn:Sc.
    + rewrite stat_exists in E.
      destruct (stat (fs w) (os_path_join P (os_path_basename c))) eqn:Sd;
        [discriminate|].
      destruct (move_dcm_file_moves c P k w data Hq Sc Sd HP) as (w1 & E1 & Hm & _).
      rewrite E1 in H. injection H as _ <-.
      destruct (moved_to_top_stat _ _ _ _ Hm) as (_ & Hst).
      now rewrite Hst, path_eqb_refl, Sc.
    + rewrite stat_isdir, Sc in Hnd. discriminate.
    + exfalso. unfold stat in Sc. now destruct (lstat (fs w) c) as [[| |]|].
    + exfalso. rewrite stat_is_regular in Hf.
      destruct (move_dcm_file_effect _ _ _ _ _ _ Hnd H) as [F|Hm].
      * rewrite F, Sc in Hf. discriminate.
      * destruct (relocated_at_source _ _ _ _ Hm) as [Es|Es]; rewrite Es in Hf;
          [rewrite Sc in Hf|]; discriminate.
Qed.

Lemma move_dcm_files_from_rest (files : list path) (P : path) :
  forall k n w w',
  oracle w = [] ->
  stat (fs w) P = Some KDir ->
  Forall (fun q => os_path_isdir (fs w) q = false) files ->
  move_dcm_files_from files P k w = (Ok n, w') ->
  forall c, In c files -> resting (fs w') P c.
Proof.
  induction files as [|c0 files IH]; intros k n w w' Hq HP Hnd H c Hin;
    [destruct Hin|].
  simpl in H. unfold bind in H.
  destruct (move_dcm_file c0 P k w) as [[n1|e] w1] eqn:E1; [|discriminate].
  inversion Hnd as [|? ? Hc0 Hrest]; subst.
  pose proof (move_dcm_file_quiet _ _ _ _ _ _ Hq E1) as Hq1.
  assert (HP1 : stat (fs w1) P = Some KDir).
  { destruct (move_dcm_file_effect _ _ _ _ _ _ Hc0 E1) as [F|Hm].
    - now rewrite F.
    - now apply (relocated_keeps_dir _ _ _ _ _ Hm). }
  assert (Hnd1 : Forall (fun q => os_path_isdir (fs w1) q = false) files).
  { destruct (move_dcm_file_effect _ _ _ _ _ _ Hc0 E1) as [F|Hm].
    - now rewrite F.
    - eapply Forall_impl; [|exact Hrest]. intros q Hq0.
      now rewrite (relocated_isdir _ _ _ _ q Hm). }
  destruct Hin as [<-|Hin].
  - apply (move_dcm_files_from_invariant (fun t => resting t P c0) P files)
      with (k := n1) (w := w1) (n := n); try assumption.
    + intros t c' t' _ R Hm. now apply (relocated_resting _ _ _ _ _ Hm).
    + now apply (move_dcm_file_rests c0 P k n1 w w1).
  - now apply (IH n1 n w1 w').
Qed.

Lemma is_prefix_dirname_below (P r : path) :
  r <> [] -> is_prefix P (os_path_dirname (P ++ r)) = true.
Proof.
  intros Hr. unfold os_path_dirname. rewrite removelast_app by exact Hr.
  apply is_prefix_app.
Qed.

(** The moves of a batch whose candidates lie below [P] stay below [P]. *)
Lemma move_dcm_files_from_frame (files : list path) (P : path)
    (k n : nat) (w w' : world) :
  Forall (fun c => exists r, r <> [] /\ c = P ++ r) files ->
  Forall (fun q => os_path_isdir (fs w) q = false) files ->
  move_dcm_files_from files P k w = (Ok n, w') ->
  (well_formed (fs w) = true -> well_formed (fs w') = true) /\
  stat (fs w') P = stat (fs w) P /\
  (forall q, is_prefix P q = false -> stat (fs w') q = stat (fs w) q) /\
  (forall q, is_prefix P q = false -> listdir_on (fs w') q = listdir_on (fs w) q) /\
  (forall r, r <> [] -> is_regular (fs w') (P ++ r) = true ->
             is_regular (fs w) (P ++ r) = true \/ exists name, r = [name]) /\
  (no_links (fs w) = true -> no_links (fs w') = true).
Proof.
  intros Hunder Hnd H.
  apply (move_dcm_files_from_invariant
           (fun t =>
              (well_formed (fs w) = true -> well_formed t = true) /\
              stat t P = stat (fs w) P /\
              (forall q, is_prefix P q = false -> stat t q = stat (fs w) q) /\
              (forall q, is_prefix P q = false ->
                         listdir_on t q = listdir_on (fs w) q) /\
              (forall r, r <> [] -> is_regular t (P ++ r) = true ->
                         is_regular (fs w) (P ++ r) = true \/
                         exists name, r = [name]) /\
              (no_links (fs w) = true -> no_links t = true))
           P files) with (k := k) (w := w) (n := n); try assumption.
  - intros t c t' Hin (I1 & I2 & I3 & I4 & I5 & I6) Hm.
    rewrite Forall_forall in Hunder. destruct (Hunder c Hin) as (r0 & Hr0 & ->).
    pose proof (relocated_target_dir _ _ _ _ Hm) as HPdir.
    split; [|split; [|split; [|split; [|split]]]].
    + intros Hwf. apply (relocated_well_formed _ _ _ _ Hm). now apply I1.
    + rewrite <- I2. rewrite HPdir. now apply (relocated_keeps_dir _ _ _ _ _ Hm).
    + intros q Hq0. rewrite <- (I3 q Hq0).
      apply (relocated_elsewhere _ _ _ _ q Hm).
      * intros ->. now rewrite is_prefix_app in Hq0.
      * intros ->. unfold os_path_join in Hq0. now rewrite is_prefix_app in Hq0.
    + intros q Hq0. rewrite <- (I4 q Hq0).
      apply (relocated_listdir _ _ _ _ q Hm); [|exact Hq0].
      destruct (is_prefix (os_path_dirname (P ++ r0)) q) eqn:E; [|reflexivity].
      rewrite (is_prefix_weaken P _ q (is_prefix_dirname_below P r0 Hr0) E) in Hq0.
      discriminate.
    + intros r Hr Hf.
      destruct (list_eq_dec string_dec (P ++ r)
                  (os_path_join P (os_path_basename (P ++ r0)))) as [E|N1].
      * right. unfold os_path_join in E. apply app_inv_head in E.
        exists (os_path_basename (P ++ r0)). exact E.
      * apply (I5 r Hr). rewrite stat_is_regular in Hf |- *.
        destruct (list_eq_dec string_dec (P ++ r) (P ++ r0)) as [E|N2].
        -- rewrite E in Hf |- *.
           destruct (relocated_at_source _ _ _ _ Hm) as [Es|Es]; rewrite Es in Hf;
             [exact Hf | discriminate].
        -- now rewrite (relocated_elsewhere _ _ _ _ _ Hm N2 N1) in Hf.
    + intros Hl. apply (relocated_no_links _ _ _ _ Hm). now apply I6.
  - repeat split; auto.
Qed.

Lemma is_file_below_dir (t : node) (P r : path) :
  r <> [] -> is_file t (P ++ r) = true -> stat t P = Some KDir.
Proof.
  intros Hr Hf. unfold is_file in Hf. unfold stat, lstat. rewrite resolve_app in Hf.
  destruct (resolve t P) as [[d|es|tg]|]; [|reflexivity| |discriminate];
    (destruct r; [congruence | discriminate]).
Qed.

Lemma os_listdir_quiet (P : path) (w : world) :
  oracle w = [] -> stat (fs w) P = Some KDir ->
  exists names, os_listdir P w = (Ok names, emit (EvListdir P) w).
Proof.
  intros Hq HP. unfold os_listdir. rewrite (next_fault_quiet w Hq).
  destruct (stat_dir_resolve _ _ HP) as [es Hes]. unfold listdir_on. simpl.
  rewrite Hes. now eexists.
Qed.

(** One patient directory, without external failure, on unique names: the
    call returns, the patient directory is settled afterwards, and nothing
    outside the patient directory has changed. *)
Lemma process_patient_directory_settles (disk : path) (pdir ext : string)
    (w : world) :
  let P := os_path_join disk pdir in
  oracle w = [] ->
  well_formed (fs w) = true ->
  exists n w',
    process_patient_directory disk pdir ext w = (Ok n, w') /\
    oracle w' = [] /\
    well_formed (fs w') = true /\
    settled (fs w') P ext /\
    stat (fs w') P = stat (fs w) P /\
    (forall q, is_prefix P q = false -> stat (fs w') q = stat (fs w) q) /\
    (forall q, is_prefix P q = false -> listdir_on (fs w') q = listdir_on (fs w) q) /\
    (no_links (fs w) = true -> no_links (fs w') = true).
Proof.
  intros P Hq Hwf.
  destruct (list_dcm_files_correct P ext w) as (files & w0 & E & F & _ & Snd & Cmp).
  specialize (Snd Hwf). destruct (Cmp Hq) as [Hq0 C]. clear Cmp.
  unfold process_patient_directory, bind. fold P. rewrite E.
  destruct files as [|c files].
  - unfold log, ret. eexists _, _. split; [reflexivity|]. simpl.
    rewrite F. repeat split; try assumption; try reflexivity.
    + intros r Hr Hf Hext. destruct (C r Hr (is_regular_is_file _ _ Hf) Hext).
    + auto.
  - set (files0 := c :: files) in *.
    set (w0' := emit (EvLog INFO (MsgBefore pdir (List.length files0))) w0).
    unfold log at 1. fold w0'.
    assert (Hunder : Forall (fun c => exists r, r <> [] /\ c = P ++ r) files0).
    { apply Forall_forall. intros p Hp. destruct (Snd p Hp) as (r & Hr & -> & _).
      now exists r. }
    assert (Hnd : Forall (fun q => os_path_isdir (fs w0') q = false) files0).
    { apply is_file_not_dir. apply Forall_forall. intros p Hp.
      destruct (Snd p Hp) as (r & _ & _ & Hf & _). simpl. now rewrite F. }
    assert (HP : stat (fs w0') P = Some KDir).
    { destruct (Snd c (or_introl eq_refl)) as (r & Hr & -> & Hf & _). simpl.
      rewrite F. now apply (is_file_below_dir _ P r). }
    destruct (move_dcm_files_from_total files0 P 0 w0') as (n & w1 & Em).
    unfold move_dcm_files. rewrite Em.
    destruct (move_dcm_files_from_frame _ _ _ _ _ _ Hunder Hnd Em)
      as (G1 & G2 & G3 & G4 & G5 & G6).
    pose proof (move_dcm_files_from_quiet files0 P 0 n w0' w1 Hq0 Em) as Hq1.
    pose proof (move_dcm_files_from_rest files0 P 0 n w0' w1 Hq0 HP Hnd Em) as Hrest.
    simpl in G1, G2, G3, G4, G5, G6. rewrite F in G1, G2, G3, G4, G5, G6.
    assert (HP1 : stat (fs w1) P = Some KDir) by (rewrite G2; simpl in HP; congruence).
    destruct (os_listdir_quiet P w1 Hq1 HP1) as (names & ->).
    unfold log, ret. eexists _, _. split; [reflexivity|]. simpl.
    repeat split; auto.
    intros r Hr Hf Hext. destruct (G5 r Hr Hf) as [Hf0|[name ->]].
    + apply Hrest; [|exact Hf]. apply C; [exact Hr | | exact Hext].
      now apply is_regular_is_file.
    + unfold os_path_basename. rewrite last_last. fold (os_path_join P name).
      rewrite stat_exists. rewrite stat_is_regular in Hf. unfold os_path_join.
      now destruct (stat (fs w1) (P ++ [name])) as [[| |]|].
Qed.

(** A settled patient directory: the second visit moves nothing. *)
Lemma process_patient_directory_settled (disk : path) (pdir ext : string)
    (w : world) :
  oracle w = [] ->
  well_formed (fs w) = true ->
  no_links (fs w) = true ->
  settled (fs w) (os_path_join disk pdir) ext ->
  exists w',
    process_patient_directory disk pdir ext w = (Ok 0, w') /\
    fs w' = fs w /\ oracle w' = [].
Proof.
  set (P := os_path_join disk pdir). intros Hq Hwf Hnl Hs.
  destruct (list_dcm_files_correct P ext w) as (files & w0 & E & F & _ & Snd & Cmp).
  specialize (Snd Hwf). destruct (Cmp Hq) as [Hq0 _]. clear Cmp.
  unfold process_patient_directory, bind. fold P. rewrite E.
  destruct files as [|c files].
  - unfold log, ret. eexists. split; [reflexivity|]. now split.
  - set (files0 := c :: files) in *.
    set (w0' := emit (EvLog INFO (MsgBefore pdir (List.length files0))) w0).
    unfold log at 1. fold w0'.
    assert (Hall : Forall (fun c => os_path_exists (fs w0')
                     (os_path_join P (os_path_basename c)) = true) files0).
    { apply Forall_forall. intros p Hp. destruct (Snd p Hp) as (r & Hr & -> & Hf & Hx).
      simpl. rewrite F. apply Hs; [exact Hr | | exact Hx].
      now rewrite <- (no_links_is_file _ _ Hnl). }
    destruct (move_dcm_files_from_all_skipped files0 P 0 w0' Hall) as (w1 & Em & F1 & O1).
    unfold move_dcm_files. rewrite Em.
    assert (HP1 : stat (fs w1) P = Some KDir).
    { destruct (Snd c (or_introl eq_refl)) as (r & Hr & -> & Hf & _).
      rewrite F1. simpl. rewrite F. now apply (is_file_below_dir _ P r). }
    assert (Hq1 : oracle w1 = []) by (rewrite O1; exact Hq0).
    destruct (os_listdir_quiet P w1 Hq1 HP1) as (names & ->).
    unfold log, ret. eexists. split; [reflexivity|]. simpl.
    split; [now rewrite F1; simpl; rewrite F | exact Hq1].
Qed.

Lemma is_prefix_sibling (disk : path) (p0 p : string) (r : path) :
  p <> p0 -> is_prefix (os_path_join disk p0) (os_path_join disk p ++ r) = false.
Proof.
  intros Hne. unfold os_path_join at 2. rewrite <- app_assoc. simpl.
  rewrite is_prefix_join_below. apply String.eqb_neq. congruence.
Qed.

Lemma is_prefix_join_self (P : path) (x : string) :
  is_prefix (os_path_join P x) P = false.
Proof.
  rewrite <- (app_nil_r P) at 2. now rewrite is_prefix_join_below.
Qed.

Lemma settled_frame (t t' : node) (disk : path) (p0 p ext : string) :
  (forall q, is_prefix (os_path_join disk p0) q = false -> stat t' q = stat t q) ->
  p <> p0 ->
  settled t (os_path_join disk p) ext -> settled t' (os_path_join disk p) ext.
Proof.
  intros Hfr Hne Hs r Hr Hf Hx.
  rewrite stat_is_regular, (Hfr _ (is_prefix_sibling disk p0 p r Hne)),
    <- stat_is_regular in Hf.
  specialize (Hs r Hr Hf Hx). rewrite stat_exists in Hs |- *.
  unfold os_path_join at 1. unfold os_path_join at 1 in Hs.
  now rewrite (Hfr _ (is_prefix_sibling disk p0 p _ Hne)).
Qed.

(** The first pass over the patients settles each of them and keeps the
    listing of the disk. *)
Lemma main_loop_settles (disk : path) (ext : string) (patients : list string) :
  forall k w,
  oracle w = [] ->
  well_formed (fs w) = true ->
  exists n w',
    main_loop disk patients ext k w = (Ok n, w') /\
    oracle w' = [] /\
    well_formed (fs w') = true /\
    (forall p, In p patients \/ settled (fs w) (os_path_join disk p) ext ->
               settled (fs w') (os_path_join disk p) ext) /\
    listdir_on (fs w') disk = listdir_on (fs w) disk /\
    (forall name, stat (fs w') (os_path_join disk name) =
                  stat (fs w) (os_path_join disk name)) /\
    (no_links (fs w) = true -> no_links (fs w') = true).
Proof.
  induction patients as [|p0 patients IH]; intros k w Hq Hwf; simpl.
  - unfold ret. exists k, w. repeat split; try assumption; [|auto].
    intros p [[]|Hs]. exact Hs.
  - unfold bind.
    destruct (process_patient_directory_settles disk p0 ext w Hq Hwf)
      as (m & w1 & -> & Hq1 & Hwf1 & S1 & G2 & G3 & G4 & G5).
    destruct (IH (k + m) w1 Hq1 Hwf1)
      as (n & w' & -> & Hq' & Hwf' & S' & L' & T' & N').
    exists n, w'. repeat split; try assumption; [| | |auto].
    + intros p Hp. apply S'.
      destruct (String.eqb_spec p p0) as [->|Hne]; [now right|].
      destruct Hp as [[E|Hin]|Hs]; [congruence | now left | right].
      now apply (settled_frame (fs w) (fs w1) disk p0 p ext G3 Hne).
    + rewrite L'. apply G4. apply is_prefix_join_self.
    + intros name. rewrite T'.
      destruct (String.eqb_spec name p0) as [->|Hne]; [exact G2|].
      apply G3. rewrite <- (app_nil_r (os_path_join disk name)).
      now apply is_prefix_sibling.
Qed.

Lemma main_loop_settled (disk : path) (ext : string) (patients : list string) :
  forall k w,
  oracle w = [] ->
  well_formed (fs w) = true ->
  no_links (fs w) = true ->
  (forall p, In p patients -> settled (fs w) (os_path_join disk p) ext) ->
  exists w',
    main_loop disk patients ext k w = (Ok k, w') /\ fs w' = fs w /\ oracle w' = [].
Proof.
  induction patients as [|p0 patients IH]; intros k w Hq Hwf Hnl Hs; simpl.
  - unfold ret. now exists w.
  - unfold bind.
    destruct (process_patient_directory_settled disk p0 ext w Hq Hwf Hnl
                (Hs p0 (or_introl eq_refl))) as (w1 & -> & F1 & Hq1).
    rewrite Nat.add_0_r.
    destruct (IH k w1 Hq1) as (w' & -> & F' & Hq').
    + now rewrite F1.
    + now rewrite F1.
    + intros p Hp. rewrite F1. apply Hs. now right.
    + exists w'. repeat split; [congruence | exact Hq'].
Qed.

Lemma list_patient_directories_quiet (disk : path) (w : world) :
  oracle w = [] ->
  exists w',
    list_patient_directories disk true w =
      (Ok match listdir_on (fs w) disk with
          | inr names =>
              list_sort (filter (fun d => os_path_isdir (fs w) (os_path_join disk d))
                                names)
          | inl _ => []
          end, w') /\
    fs w' = fs w /\ oracle w' = [].
Proof.
  intros Hq.
  unfold list_patient_directories, try_except, bind, gets, log, ret, os_listdir.
  rewrite (next_fault_quiet w Hq). simpl.
  destruct (listdir_on (fs w) disk) as [e|names]; eexists; now repeat split.
Qed.

Lemma main_unfold (disk : path) (ext : string) (w wb wc : world)
    (patients : list string) (n : nat) :
  list_patient_directories disk true (emit (EvLog INFO (MsgStart disk ext)) w) =
    (Ok patients, wb) ->
  main_loop disk patients ext 0 wb = (Ok n, wc) ->
  main disk ext w =
  (Ok n, emit (EvLog INFO (MsgTotal n)) (emit (EvLog INFO MsgExecutionTime) wc)).
Proof.
  intros H1 H2. unfold main, bind. unfold log at 1. rewrite H1, H2. reflexivity.
Qed.

(** C9, the claim as stated fails.  A link named like a match whose target
    is missing is no existing destination for [os.path.exists]: at the top of
    a patient directory it is moved onto itself and counted in every run, so
    the second run reports 1 on a tree that no run has changed.  And a move
    that fails for an external cause in the first run, here an I/O error
    that does not come back, is done by the second run. *)
Lemma C9_a_second_run_can_move_again :
  (let run1 := main [] ".dcm" dangling_world in
   let run2 := main [] ".dcm" (snd run1) in
   fst run1 = Ok 1 /\ fs (snd run1) = dangling_disk /\
   fst run2 = Ok 1 /\ fs (snd run2) = dangling_disk) /\
  (let run1 := main [] ".dcm" io_fault_world in
   let run2 := main [] ".dcm" (snd run1) in
   fst run1 = Ok 0 /\ fs (snd run1) = dcm_dir_disk /\
   oracle (snd run1) = [] /\
   fst run2 = Ok 1).
Proof. vm_compute. repeat split. Qed.

(** C9, amended: on a tree of regular files and directories with unique
    names, two runs of the pipeline in succession without external failure:
    the first returns its total, and the second returns a total of 0 and
    leaves the tree as the first left it. *)
Theorem C9_second_run_moves_nothing :
  forall (disk : path) (ext : string) (w : world),
    well_formed (fs w) = true ->
    no_links (fs w) = true ->
    oracle w = [] ->
    exists n1 w1 w2,
      main disk ext w = (Ok n1, w1) /\
      main disk ext w1 = (Ok 0, w2) /\
      fs w2 = fs w1.
Proof.
  intros disk ext w Hwf Hnl Hq.
  (* the first run *)
  set (wa := emit (EvLog INFO (MsgStart disk ext)) w).
  destruct (list_patient_directories_quiet disk wa Hq) as (wb & E1 & Fb & Qb).
  simpl fs in E1, Fb.
  set (patients := match listdir_on (fs w) disk with
                   | inr names =>
                       list_sort (filter (fun d => os_path_isdir (fs w)
                                            (os_path_join disk d)) names)
                   | inl _ => []
                   end) in *.
  assert (Hwfb : well_formed (fs wb) = true) by (rewrite Fb; exact Hwf).
  destruct (main_loop_settles disk ext patients 0 wb Qb Hwfb)
    as (n1 & wc & Eloop & Qc & Hwfc & Sc & Lc & Tc & Nc).
  assert (Hnlc : no_links (fs wc) = true) by (apply Nc; now rewrite Fb).
  pose proof (main_unfold disk ext w wb wc patients n1 E1 Eloop) as Erun1.
  set (w1 := emit (EvLog INFO (MsgTotal n1))
               (emit (EvLog INFO MsgExecutionTime) wc)) in *.
  (* the second run lists the same patients *)
  set (wa2 := emit (EvLog INFO (MsgStart disk ext)) w1).
  assert (Qa2 : oracle wa2 = []) by exact Qc.
  destruct (list_patient_directories_quiet disk wa2 Qa2) as (wb2 & E2 & Fb2 & Qb2).
  simpl fs in E2, Fb2.
  assert (Hsame : match listdir_on (fs wc) disk with
                  | inr names =>
                      list_sort (filter (fun d => os_path_isdir (fs wc)
                                           (os_path_join disk d)) names)
                  | inl _ => []
                  end = patients).
  { rewrite Lc, Fb. unfold patients.
    destruct (listdir_on (fs w) disk) as [e|names]; [reflexivity|].
    f_equal. apply filter_ext. intros d. rewrite !stat_isdir, Tc, Fb. reflexivity. }
  rewrite Hsame in E2.
  assert (Hwfb2 : well_formed (fs wb2) = true) by (rewrite Fb2; exact Hwfc).
  assert (Hnlb2 : no_links (fs wb2) = true) by (rewrite Fb2; exact Hnlc).
  destruct (main_loop_settled disk ext patients 0 wb2 Qb2 Hwfb2 Hnlb2)
    as (wc2 & E3 & F3 & Q3).
  { intros p Hp. rewrite Fb2. apply Sc. now left. }
  pose proof (main_unfold disk ext w1 wb2 wc2 patients 0 E2 E3) as Erun2.
  eexists n1, w1, _. split; [exact Erun1|]. split; [exact Erun2|].
  simpl. now rewrite F3, Fb2.
Qed.

Lemma C9_second_run_moves_nothing_witness :
  exists n1 w1 w2,
    main [] ".dcm" demo_world = (Ok n1, w1) /\
    main [] ".dcm" w1 = (Ok 0, w2) /\
    fs w2 = fs w1.
Proof.
  apply (C9_second_run_moves_nothing [] ".dcm"%string demo_world); reflexivity.
Defined.
(** * The count after the moves *)

Lemma filter_map_fst_length (f : string -> bool) (es : list (string * node)) :
  List.length (filter f (map fst es)) =
  List.length (filter (fun e => f (fst e)) es).
Proof.
  induction es as [|[n x] es IH]; simpl; [reflexivity|].
  destruct (f n); simpl; now rewrite IH.
Qed.

Lemma matching_entries_split (t : node) (P : path) (ext : string) :
  matching_entries t P ext = matching_files t P ext + matching_dirs t P ext.
Proof.
  unfold matching_entries, matching_files, matching_dirs, count_in.
  destruct (resolve t P) as [[d|es|tg]|]; try reflexivity.
  induction es as [|[n x] es IH]; simpl; [reflexivity|].
  destruct (endswith n ext); simpl; [|exact IH].
  destruct (is_dir_node x); simpl; rewrite IH; lia.
Qed.

(** What the source does where the patient directory is listed again: a
    listing that raises leaves the function by the exception. *)
Lemma process_patient_directory_recount (disk : path) (pdir ext : string)
    (w w0 w1 : world) (c : path) (files : list path) (n : nat) :
  let P := os_path_join disk pdir in
  list_dcm_files P ext w = (Ok (c :: files), w0) ->
  move_dcm_files (c :: files) P
    (emit (EvLog INFO (MsgBefore pdir (List.length (c :: files)))) w0) = (Ok n, w1) ->
  process_patient_directory disk pdir ext w =
  match os_listdir P w1 with
  | (Ok names, w2) =>
      (Ok n,
       emit (EvLog INFO (MsgMoved pdir n))
         (emit (EvLog INFO (MsgAfter pdir
                  (List.length (filter (fun name => endswith name ext) names)))) w2))
  | (Raise e, w2) => (Raise e, w2)
  end.
Proof.
  intros P E Em. unfold process_patient_directory, bind. fold P. rewrite E.
  unfold log at 1. rewrite Em.
  now destruct (os_listdir P w1) as [[names|e] w2].
Qed.

(** The count logged after the moves, for a patient directory with at least
    one candidate, when the call returns: it comes from a new listing of the
    patient directory and is the number of entries directly inside it, files
    and subdirectories alike, whose name ends with the extension, in the tree
    the moves left; it is the number of matching files there when no matching
    name belongs to a subdirectory. *)
Lemma process_patient_directory_count_after (disk : path) (pdir ext : string)
    (w w0 w' : world) (c : path) (files : list path) (n : nat) :
  let P := os_path_join disk pdir in
  list_dcm_files P ext w = (Ok (c :: files), w0) ->
  process_patient_directory disk pdir ext w = (Ok n, w') ->
  exists evs k,
    events w' =
      evs ++ [EvListdir P; EvLog INFO (MsgAfter pdir k); EvLog INFO (MsgMoved pdir n)] /\
    k = matching_entries (fs w') P ext /\
    k = matching_files (fs w') P ext + matching_dirs (fs w') P ext /\
    (matching_dirs (fs w') P ext = 0 -> k = matching_files (fs w') P ext).
Proof.
  intros P E Hrun.
  destruct (move_dcm_files_from_total (c :: files) P 0
              (emit (EvLog INFO (MsgBefore pdir (List.length (c :: files)))) w0))
    as (m & w1 & Em).
  rewrite (process_patient_directory_recount disk pdir ext w w0 w1 c files m E Em)
    in Hrun. fold P in Hrun.
  destruct (os_listdir P w1) as [[names|e] w2] eqn:El; [|discriminate].
  injection Hrun as <- <-.
  apply os_listdir_ok in El as (_ & -> & es & Hes & ->).
  exists (events w1). eexists. simpl. rewrite next_fault_events, next_fault_fs.
  split; [now rewrite <- !app_assoc|].
  assert (K : List.length (filter (fun name => endswith name ext) (map fst es)) =
              matching_entries (fs w1) P ext).
  { unfold matching_entries, count_in. rewrite Hes. apply filter_map_fst_length. }
  split; [exact K|]. rewrite K, matching_entries_split.
  split; [reflexivity | lia].
Qed.

(** C8 on the code: the count after moving is taken from a new listing of
    the patient directory, but the listing is filtered by name only.  With a
    subdirectory [old.dcm] at the top of patient [P1] holding [a.dcm], the
    run moves one file and logs 2 as the count after moving, while one
    matching file and one matching subdirectory are directly inside [P1]. *)
Theorem C8_count_after_moving_includes_directories :
  let run := process_patient_directory [] "P1" ".dcm" dcm_dir_world in
  fst run = Ok 1 /\
  In (EvLog INFO (MsgBefore "P1" 1)) (events (snd run)) /\
  In (EvLog INFO (MsgAfter "P1" 2)) (events (snd run)) /\
  matching_files (fs (snd run)) ["P1"%string] ".dcm" = 1 /\
  matching_dirs (fs (snd run)) ["P1"%string] ".dcm" = 1 /\
  stat (fs (snd run)) ["P1"; "a.dcm"]%string = Some (KFile "A").
Proof. vm_compute. intuition. Qed.

(** * A listing that fails after the moves *)

(** C3 on the code: the listing of the patient directory after the moves is
    not inside any [try]; when it raises, here with an I/O error after the
    move of [P1], the exception leaves [process_patient_directory] and
    [main], no error record is logged, and the patient [P2] is never
    processed: its file stays in its subdirectory. *)
Theorem C3_recount_failure_ends_the_run :
  let run := main [] ".dcm" recount_fault_world in
  fst run = Raise (OSError "EIO") /\
  existsb is_error_record (events (snd run)) = false /\
  existsb (fun ev => match ev with
                     | EvScandir ("P2"%string :: _) => true
                     | _ => false
                     end) (events (snd run)) = false /\
  stat (fs (snd run)) ["P1"; "a.dcm"]%string = Some (KFile "A") /\
  stat (fs (snd run)) ["P2"; "sub"; "b.dcm"]%string = Some (KFile "B") /\
  stat (fs (snd run)) ["P2"; "b.dcm"]%string = None.
Proof. vm_compute. repeat split. Qed.

(** * Further properties of the code *)

(** ** Every candidate is accounted for *)

Lemma count_events_app (f : event -> bool) (a b : list event) :
  count_events f (a ++ b) = count_events f a + count_events f b.
Proof. unfold count_events. now rewrite filter_app, length_app. Qed.

Lemma move_dcm_file_accounting (c P : path) (k : nat) (w : world) :
  exists n w' tr,
    move_dcm_file c P k w = (Ok n, w') /\
    events w' = events w ++ tr /\
    n = k + count_events is_successful_move tr /\
    count_events is_successful_move tr + count_events is_skip_record tr
      + count_events is_move_error_record tr = 1 /\
    count_events is_sleep tr = count_events is_successful_move tr /\
    count_events is_listdir tr = 0.
Proof.
  set (d := os_path_join P (os_path_basename c)).
  destruct (os_path_exists (fs w) d) eqn:E.
  - rewrite move_dcm_file_skip by exact E. fold d.
    eexists k, _, [EvLog WARNING (MsgAlreadyExists d)].
    split; [reflexivity|]. unfold count_events. simpl. repeat split; lia.
  - rewrite move_dcm_file_attempt by exact E. fold d.
    destruct (shutil_move c d w) as [[rd|e] w1] eqn:Em.
    + apply shutil_move_record in Em as [Ev _].
      eexists (k + 1), _, [EvMove c d None; EvSleep].
      split; [reflexivity|]. unfold count_events. simpl. rewrite Ev, <- app_assoc.
      repeat split; lia.
    + apply shutil_move_record in Em as [Ev _].
      eexists k, _, [EvMove c d (Some e); EvLog ERROR (MsgErrorMoving c e)].
      split; [reflexivity|]. unfold count_events. simpl.
      rewrite Ev, <- app_assoc. repeat split; lia.
Qed.

Lemma move_dcm_files_from_accounting (files : list path) (P : path) :
  forall k w,
  exists n w' tr,
    move_dcm_files_from files P k w = (Ok n, w') /\
    events w' = events w ++ tr /\
    n = k + count_events is_successful_move tr /\
    count_events is_successful_move tr + count_events is_skip_record tr
      + count_events is_move_error_record tr = List.length files /\
    count_events is_sleep tr = count_events is_successful_move tr /\
    count_events is_listdir tr = 0.
Proof.
  induction files as [|c files IH]; intros k w; simpl.
  - exists k, w, []. unfold ret, count_events. rewrite app_nil_r. simpl.
    repeat split; lia.
  - unfold bind.
    destruct (move_dcm_file_accounting c P k w)
      as (n1 & w1 & tr1 & -> & Ev1 & Hn1 & H1 & S1 & L1).
    destruct (IH n1 w1) as (n & w' & tr2 & -> & Ev2 & Hn2 & H2 & S2 & L2).
    exists n, w', (tr1 ++ tr2). rewrite !count_events_app.
    split; [reflexivity|]. split; [now rewrite Ev2, Ev1, app_assoc|].
    repeat split; lia.
Qed.

(** X1: in a batch, each candidate ends in exactly one of three ways, so the
    returned count, the skip warnings and the move error records add up to
    the number of candidates; the pause follows the successful moves and
    only them. *)
Theorem X1_every_candidate_is_moved_skipped_or_failed :
  forall (files : list path) (P : path) (w : world),
    exists n w' tr,
      move_dcm_files files P w = (Ok n, w') /\
      events w' = events w ++ tr /\
      n = count_events is_successful_move tr /\
      n + count_events is_skip_record tr + count_events is_move_error_record tr
        = List.length files /\
      count_events is_sleep tr = n.
Proof.
  intros files P w.
  destruct (move_dcm_files_from_accounting files P 0 w)
    as (n & w' & tr & E & Ev & Hn & H & S & _).
  exists n, w', tr. unfold move_dcm_files. simpl in Hn.
  repeat split; try assumption; lia.
Qed.

(** ** Nothing is lost, nothing is overwritten *)






(** ** A target that is not a directory *)

Lemma rename_on_no_target (t : node) (c P : path) (name : string) :
  os_path_isdir t P = false ->
  exists e, rename_on c (os_path_join P name) t = inl e.
Proof.
  intros HP. set (d := os_path_join P name).
  assert (Hd : resolve t d = None).
  { unfold d, os_path_join. rewrite resolve_app. unfold os_path_isdir in HP.
    now destruct (resolve t P) as [[x|es|tg]|]. }
  unfold rename_on. destruct (resolve t c) as [x|] eqn:Ec; [|(eexists; reflexivity)].
  destruct (path_eqb c d) eqn:E.
  { apply path_eqb_eq in E. congruence. }
  destruct (is_prefix c d); [(eexists; reflexivity)|].
  destruct (parent_error t d) as [e|] eqn:Ep; [(eexists; reflexivity)|].
  apply parent_error_join in Ep. rewrite lstat_isdir, Ep in HP. discriminate.
Qed.

(** [shutil.move] of a candidate that is not a directory into a target that
    is not a directory raises and leaves the tree as it was: neither the
    renaming nor the copy finds the parent of the destination. *)
Lemma shutil_move_no_target (c P : path) (w w' : world) (r : result path) :
  os_path_isdir (fs w) c = false ->
  os_path_isdir (fs w) P = false ->
  shutil_move c (os_path_join P (os_path_basename c)) w = (r, w') ->
  (exists e, r = Raise e) /\ fs w' = fs w.
Proof.
  intros Hc HP H.
  assert (Hd : os_path_exists (fs w) (os_path_join P (os_path_basename c)) = false).
  { unfold os_path_exists, os_path_join. rewrite resolve_app.
    unfold os_path_isdir in HP.
    now destruct (resolve (fs w) P) as [[x|es|tg]|]. }
  assert (Hno : lstat (fs w) P <> Some KDir).
  { intros E. rewrite lstat_isdir, E in HP. discriminate. }
  apply (shutil_move_nondir c P) in H as [_ H]; try assumption.
  destruct r as [rd|e].
  - exfalso. destruct H as (_ & _ & [(E & _ & L)|Hm]).
    + unfold os_path_islink in L. rewrite E in L.
      unfold os_path_exists in Hd. unfold os_path_join in L.
      rewrite resolve_app in L. unfold os_path_isdir in HP.
      now destruct (resolve (fs w) P) as [[x|es|tg]|].
    + now destruct Hm as (x & _ & _ & _ & HPd & _).
  - split; [now exists e|]. destruct H as (_ & [F|Hl]); [exact F|].
    exfalso. now destruct Hl as (x & y & _ & _ & _ & HPd & _).
Qed.

Lemma move_dcm_files_from_no_target (files : list path) (P : path) :
  forall (k : nat) (w : world),
    os_path_isdir (fs w) P = false ->
    Forall (fun q => os_path_isdir (fs w) q = false) files ->
    exists w' tr,
      move_dcm_files_from files P k w = (Ok k, w') /\
      fs w' = fs w /\
      events w' = events w ++ tr /\
      count_events is_move_error_record tr = List.length files /\
      count_events is_skip_record tr = 0 /\
      count_events is_successful_move tr = 0.
Proof.
  induction files as [|c files IH]; intros k w HP Hnd; simpl.
  - exists w, []. unfold ret. rewrite app_nil_r. now repeat split.
  - unfold bind. inversion Hnd as [|? ? Hc Hnd']; subst.
    assert (Hd : os_path_exists (fs w) (os_path_join P (os_path_basename c)) = false).
    { unfold os_path_exists, os_path_join. rewrite resolve_app.
      unfold os_path_isdir in HP.
      now destruct (resolve (fs w) P) as [[x|es|tg]|]. }
    rewrite move_dcm_file_attempt by exact Hd.
    destruct (shutil_move c (os_path_join P (os_path_basename c)) w)
      as [[rd|e] w1] eqn:Em.
    + exfalso. apply (shutil_move_no_target c P) in Em as [[e He] _];
        [discriminate | assumption | assumption].
    + pose proof (shutil_move_record _ _ _ _ _ Em) as [Ev1 _].
      apply (shutil_move_no_target c P) in Em as [_ F1]; try assumption.
      destruct (IH k (emit (EvLog ERROR (MsgErrorMoving c e)) w1))
        as (w' & tr & -> & F & Ev & C1 & C2 & C3).
      { simpl. now rewrite F1. }
      { simpl. now rewrite F1. }
      exists w', ([EvMove c (os_path_join P (os_path_basename c)) (Some e);
                   EvLog ERROR (MsgErrorMoving c e)] ++ tr).
      rewrite !count_events_app, C1, C2, C3.
      split; [reflexivity|]. split; [simpl in F; congruence|].
      split; [|now repeat split].
      rewrite Ev. simpl. rewrite Ev1, <- !app_assoc. reflexivity.
Qed.

(** X3: when the target is not an existing directory and no candidate is a
    directory, the batch moves nothing: every candidate is tried, fails and
    is logged as an error, the count is 0 and the tree is unchanged. *)
Theorem X3_no_target_directory_nothing_moves :
  forall (files : list path) (P : path) (w : world),
    os_path_isdir (fs w) P = false ->
    Forall (fun q => os_path_isdir (fs w) q = false) files ->
    exists w' tr,
      move_dcm_files files P w = (Ok 0, w') /\
      fs w' = fs w /\
      events w' = events w ++ tr /\
      count_events is_move_error_record tr = List.length files /\
      count_events is_skip_record tr = 0 /\
      count_events is_successful_move tr = 0.
Proof.
  intros files P w HP Hnd. now apply move_dcm_files_from_no_target.
Qed.

Lemma X3_no_target_directory_nothing_moves_witness :
  exists w',
    move_dcm_files [["P1"; "b.dcm"]%string] ["nowhere"%string] demo_world = (Ok 0, w') /\
    fs w' = fs demo_world.
Proof.
  destruct (X3_no_target_directory_nothing_moves
              [["P1"; "b.dcm"]%string] ["nowhere"%string] demo_world eq_refl)
    as (w' & tr & E & F & _).
  - repeat constructor.
  - now exists w'.
Defined.

(** ** The walk when calls fail, and a directory without candidates *)

(** X4: [list_dcm_files] never raises and never changes the tree, whatever
    fails: a failing [scandir] leaves no log record and only makes the result
    smaller.  On a tree with unique names the result has no duplicate, every
    path in it is a file strictly below the directory with a matching name,
    it is included in the result of the walk without failure, and it is empty
    when the path is missing or is not a directory. *)
Theorem X4_list_dcm_files_under_failures :
  forall (P : path) (ext : string) (w : world),
    well_formed (fs w) = true ->
    exists files w' tr,
      list_dcm_files P ext w = (Ok files, w') /\
      fs w' = fs w /\
      events w' = events w ++ tr /\
      Forall (fun ev => is_scandir ev = true) tr /\
      NoDup files /\
      (forall p, In p files ->
         (exists r, r <> [] /\ p = P ++ r) /\
         is_file (fs w) p = true /\
         endswith (os_path_basename p) ext = true) /\
      (forall files0 w0,
         list_dcm_files P ext (mkWorld (fs w) [] (events w)) = (Ok files0, w0) ->
         incl files files0) /\
      (os_path_isdir (fs w) P = false -> files = []).
Proof.
  intros P ext w Hwf.
  destruct (list_dcm_files_correct P ext w)
    as (files & w' & E & F & (tr & T & S) & Snd & _).
  specialize (Snd Hwf).
  exists files, w', tr. split; [exact E|]. split; [exact F|]. split; [exact T|].
  split; [exact S|]. split; [now apply (list_dcm_files_NoDup P ext w w')|].
  split; [|split].
  - intros p Hp. destruct (Snd p Hp) as (r & Hr & -> & Hf & Hx).
    split; [now exists r | now split].
  - intros files0 w0 E0 p Hp.
    destruct (list_dcm_files_correct P ext (mkWorld (fs w) [] (events w)))
      as (files1 & w1 & E1 & _ & _ & _ & Cmp).
    rewrite E0 in E1. injection E1 as <- <-.
    destruct (Cmp eq_refl) as [_ C].
    destruct (Snd p Hp) as (r & Hr & -> & Hf & Hx). now apply C.
  - intros HP. destruct files as [|p files]; [reflexivity|]. exfalso.
    destruct (Snd p (or_introl eq_refl)) as (r & Hr & -> & Hf & _).
    rewrite stat_isdir, (is_file_below_dir _ P r Hr Hf) in HP. discriminate.
Qed.

Lemma X4_list_dcm_files_under_failures_witness :
  exists files w',
    list_dcm_files ["P1"%string] ".dcm"
      (mkWorld demo_disk [None; Some PermissionError] []) = (Ok files, w') /\
    NoDup files.
Proof.
  destruct (X4_list_dcm_files_under_failures ["P1"%string] ".dcm"%string
              (mkWorld demo_disk [None; Some PermissionError] []) eq_refl)
    as (files & w' & tr & E & _ & _ & _ & N & _).
  now exists files, w'.
Defined.

(** X5: a patient directory below which no file has a matching name (also a
    patient path that is missing or is a file) is left at once: the call
    returns 0 after the walk, logs that no file was found, attempts no move,
    lists nothing again and leaves the tree as it was, whatever fails
    during the walk. *)
Theorem X5_no_candidate_returns_zero :
  forall (disk : path) (pdir ext : string) (w : world),
    let P := os_path_join disk pdir in
    well_formed (fs w) = true ->
    (forall r, r <> [] -> is_file (fs w) (P ++ r) = true ->
               endswith (os_path_basename (P ++ r)) ext = false) ->
    exists w' tr,
      process_patient_directory disk pdir ext w = (Ok 0, w') /\
      fs w' = fs w /\
      events w' = events w ++ tr ++ [EvLog INFO (MsgNoFiles pdir)] /\
      Forall (fun ev => is_scandir ev = true) tr.
Proof.
  intros disk pdir ext w P Hwf Hnone.
  destruct (list_dcm_files_correct P ext w)
    as (files & w0 & E & F & (tr & T & S) & Snd & _).
  specialize (Snd Hwf).
  assert (files = []) as ->.
  { destruct files as [|p files]; [reflexivity|]. exfalso.
    destruct (Snd p (or_introl eq_refl)) as (r & Hr & -> & Hf & Hx).
    rewrite (Hnone r Hr Hf) in Hx. discriminate. }
  unfold process_patient_directory, bind. fold P. rewrite E.
  unfold log, ret. eexists _, tr. split; [reflexivity|]. simpl.
  split; [exact F|]. split; [now rewrite T, app_assoc | exact S].
Qed.

Lemma X5_no_candidate_returns_zero_witness :
  exists w',
    process_patient_directory [] "P2" ".dcm" demo_world = (Ok 0, w') /\
    fs w' = fs demo_world.
Proof.
  destruct (X5_no_candidate_returns_zero [] "P2"%string ".dcm"%string demo_world
              eq_refl) as (w' & tr & E & F & _).
  - intros r Hr Hf. destruct r as [|a [|b r]]; [congruence| |].
    + unfold is_file in Hf. simpl in Hf.
      destruct (String.eqb a "notes.txt") eqn:Ea; [|discriminate].
      apply String.eqb_eq in Ea. subst a. reflexivity.
    + unfold is_file in Hf. simpl in Hf.
      destruct (String.eqb a "notes.txt"); discriminate.
  - now exists w'.
Defined.

(** ** What a patient directory and a whole run can change *)











(** ** The count after moving is the count before at the top plus the moves *)

Lemma remove_entry_absent (n : string) (es : list (string * node)) :
  entry_lookup n es = None -> remove_entry n es = es.
Proof.
  induction es as [|[k x] es IH]; simpl; [reflexivity|].
  destruct (String.eqb n k); [discriminate|]. intros H. simpl. now rewrite IH.
Qed.

Lemma is_prefix_length (a b : path) :
  is_prefix a b = true -> List.length a <= List.length b.
Proof.
  intros H. apply is_prefix_iff in H as [r ->]. rewrite length_app. lia.
Qed.

Lemma listdir_on_inr (t : node) (P : path) (names : list string) :
  listdir_on t P = inr names <->
  exists es, resolve t P = Some (Dir es) /\ names = map fst es.
Proof.
  unfold listdir_on. destruct (resolve t P) as [[d|es|tg]|]; split;
    try discriminate; try (intros (es0 & H & _); discriminate).
  - intros [= <-]. now exists es.
  - intros (es0 & [= <-] & ->). reflexivity.
Qed.

Lemma matching_entries_listdir (t : node) (P : path) (ext : string)
    (names : list string) :
  listdir_on t P = inr names ->
  matching_entries t P ext =
  List.length (filter (fun name => endswith name ext) names).
Proof.
  intros H. apply listdir_on_inr in H as (es & Hes & ->).
  unfold matching_entries, count_in. rewrite Hes. symmetry.
  apply filter_map_fst_length.
Qed.

Lemma attach_listing (t : node) (P : path) (name : string) (x : node)
    (names : list string) :
  listdir_on t P = inr names ->
  resolve t (os_path_join P name) = None ->
  listdir_on (attach t (os_path_join P name) x) P = inr (names ++ [name]).
Proof.
  intros Hl Hd. apply listdir_on_inr in Hl as (es & Hes & ->).
  assert (Hn : entry_lookup name es = None).
  { unfold os_path_join in Hd. rewrite resolve_app, Hes in Hd. simpl in Hd.
    now destruct (entry_lookup name es). }
  apply listdir_on_inr. exists (es ++ [(name, x)]).
  split; [|now rewrite map_app].
  unfold attach. rewrite dirname_join, basename_join.
  rewrite <- (app_nil_r P) at 2.
  rewrite (resolve_update_dir_below _ P [] _ _ Hes). simpl.
  unfold put_entry. now rewrite (remove_entry_absent _ _ Hn).
Qed.

(** On a tree without links, an entry that leaves a subdirectory of [P], or
    whose copy is left, adds its name at the end of the listing of [P]. *)
Lemma relocated_listing (t : node) (c P : path) (t' : node) (names : list string) :
  relocated t c P t' ->
  no_links t = true ->
  is_prefix (os_path_dirname c) P = false ->
  listdir_on t P = inr names ->
  listdir_on t' P = inr (names ++ [os_path_basename c]).
Proof.
  intros Hm Hnl Hout Hl.
  destruct (relocated_source _ _ _ _ Hm) as (cd & cn & es & Ec & Hcd & HcP & Hcdst).
  set (d := os_path_join P (os_path_basename c)) in *.
  assert (Hout' : is_prefix cd P = false).
  { rewrite Ec, dirname_join in Hout. exact Hout. }
  assert (Hfree : forall tg, resolve t d <> Some (Link tg)).
  { intros tg E. now pose proof (no_links_resolve _ _ _ Hnl E). }
  destruct Hm as [(x & Hc & Hx & Hne & HP & [[Hd ->]|[Hd ->]])
                 |(x & y & Hc & Hx & Hne & HP & Hd & Hy & ->)]; fold d in Hd |- *.
  - destruct Hd as [Hd|[tg Hd]]; [|now destruct (Hfree tg)].
    apply attach_listing.
    + rewrite <- Hl. replace (detach t c) with (detach t (os_path_join cd cn))
        by (now rewrite <- Ec). now apply listdir_detach_off.
    + assert (L : lstat (detach t c) d = None).
      { replace (detach t c) with (detach t (os_path_join cd cn))
          by (now rewrite <- Ec).
        rewrite (lstat_detach cd cn t es d Hcd), <- Ec, Hcdst.
        unfold lstat. now rewrite Hd. }
      unfold lstat in L. fold d.
      destruct (resolve (detach t c) d); [discriminate L | reflexivity].
  - replace (detach (attach t d x) c)
      with (detach (attach t d x) (os_path_join cd cn)) by (now rewrite <- Ec).
    rewrite (listdir_detach_off cd cn _ P Hout'). now apply attach_listing.
  - now apply attach_listing.
Qed.

Lemma relocated_below_leaves_subdirectory (t : node) (P r : path) (t' : node) :
  relocated t (P ++ r) P t' ->
  is_prefix (os_path_dirname (P ++ r)) P = false.
Proof.
  intros Hm.
  assert (H : exists x, resolve t (P ++ r) = Some x /\ is_dir_node x = false /\
                        P ++ r <> os_path_join P (os_path_basename (P ++ r)) /\
                        lstat t P = Some KDir).
  { destruct Hm as [(x & Hc & Hx & Hne & HP & _)|(x & y & Hc & Hx & Hne & HP & _)];
      now exists x. }
  destruct H as (x & Hc & Hx & Hne & HP).
  destruct r as [|a [|b r]].
  - rewrite app_nil_r in Hc. apply lstat_dir_resolve in HP as [es HP].
    rewrite HP in Hc. injection Hc as <-. discriminate.
  - exfalso. apply Hne. change (P ++ [a]) with (os_path_join P a).
    now rewrite basename_join.
  - destruct (is_prefix (os_path_dirname (P ++ a :: b :: r)) P) eqn:E; [|reflexivity].
    apply is_prefix_length in E. unfold os_path_dirname in E.
    rewrite removelast_app in E by discriminate. rewrite length_app in E.
    simpl in E. lia.
Qed.

Lemma relocated_matching (t : node) (P r : path) (ext : string) (t' : node) :
  relocated t (P ++ r) P t' ->
  no_links t = true ->
  endswith (os_path_basename (P ++ r)) ext = true ->
  matching_entries t' P ext = matching_entries t P ext + 1.
Proof.
  intros Hm Hnl Hx.
  destruct (stat_dir_resolve _ _ (relocated_target_dir _ _ _ _ Hm)) as [es Hes].
  assert (L : listdir_on t P = inr (map fst es))
    by (apply listdir_on_inr; now exists es).
  pose proof (relocated_listing _ _ _ _ _ Hm Hnl
                (relocated_below_leaves_subdirectory _ _ _ _ Hm) L) as L1.
  rewrite (matching_entries_listdir _ _ ext _ L1).
  rewrite (matching_entries_listdir _ _ ext _ L).
  rewrite filter_app, length_app. simpl. now rewrite Hx.
Qed.

(** One candidate and the number of matching entries at the top of [P]: a
    move adds one, and so does a copy left by a move that failed. *)
Lemma move_dcm_file_listing (P r : path) (ext : string) (k n : nat) (w w' : world) :
  os_path_isdir (fs w) (P ++ r) = false ->
  endswith (os_path_basename (P ++ r)) ext = true ->
  no_links (fs w) = true ->
  move_dcm_file (P ++ r) P k w = (Ok n, w') ->
  exists tr,
    events w' = events w ++ tr /\
    (fs w' = fs w \/ relocated (fs w) (P ++ r) P (fs w')) /\
    matching_entries (fs w) P ext + n <= matching_entries (fs w') P ext + k /\
    matching_entries (fs w') P ext + k <=
      matching_entries (fs w) P ext + n + count_events is_move_error_record tr.
Proof.
  set (c := P ++ r). set (d := os_path_join P (os_path_basename c)).
  intros Hc Hx Hnl.
  destruct (os_path_exists (fs w) d) eqn:E.
  - rewrite move_dcm_file_skip by exact E. intros [= <- <-].
    exists [EvLog WARNING (MsgAlreadyExists d)]. simpl.
    split; [reflexivity|]. split; [now left | lia].
  - rewrite move_dcm_file_attempt by exact E. fold d.
    destruct (shutil_move c d w) as [[rd|e] w1] eqn:Em; intros [= <- <-];
      apply (shutil_move_nondir c P) in Em as [_ Em]; try assumption.
    + destruct Em as (_ & Ev & [(_ & _ & L)|Hm]).
      * exfalso. unfold os_path_islink in L.
        destruct (resolve (fs w) c) as [[| |tg]|] eqn:Ec; try discriminate.
        now pose proof (no_links_resolve _ _ _ Hnl Ec).
      * exists [EvMove c d None; EvSleep]. simpl. rewrite Ev, <- app_assoc.
        split; [reflexivity|]. split; [right; now left|].
        rewrite (relocated_matching (fs w) P r ext (fs w1)); try assumption;
          [lia | now left].
    + destruct Em as (Ev & [F|Hl]);
        exists [EvMove c d (Some e); EvLog ERROR (MsgErrorMoving c e)];
        simpl; rewrite Ev, <- app_assoc; (split; [reflexivity|]).
      * rewrite F. split; [now left | lia].
      * split; [right; now right|].
        rewrite (relocated_matching (fs w) P r ext (fs w1)); try assumption;
          [unfold count_events; simpl; lia | now right].
Qed.

Lemma move_dcm_files_from_listing (files : list path) (P : path) (ext : string) :
  forall (k n : nat) (w w' : world),
    Forall (fun c => exists r, r <> [] /\ c = P ++ r) files ->
    Forall (fun q => os_path_isdir (fs w) q = false) files ->
    Forall (fun c => endswith (os_path_basename c) ext = true) files ->
    no_links (fs w) = true ->
    move_dcm_files_from files P k w = (Ok n, w') ->
    exists tr,
      events w' = events w ++ tr /\
      matching_entries (fs w) P ext + n <= matching_entries (fs w') P ext + k /\
      matching_entries (fs w') P ext + k <=
        matching_entries (fs w) P ext + n + count_events is_move_error_record tr.
Proof.
  induction files as [|c files IH]; intros k n w w' Hunder Hnd Hext Hnl H; simpl in H.
  - unfold ret in H. injection H as <- <-. exists []. rewrite app_nil_r.
    unfold count_events. simpl. repeat split; lia.
  - unfold bind in H. destruct (move_dcm_file c P k w) as [[n1|e] w1] eqn:E1;
      [|discriminate].
    inversion Hunder as [|? ? (r & Hr & Hcr) Hunder']; subst.
    inversion Hnd as [|? ? Hc Hnd']; subst.
    inversion Hext as [|? ? Hx Hext']; subst.
    destruct (move_dcm_file_listing P r ext k n1 w w1 Hc Hx Hnl E1)
      as (tr1 & Ev1 & Heff & Lo1 & Hi1).
    assert (Hnd1 : Forall (fun q => os_path_isdir (fs w1) q = false) files).
    { destruct Heff as [F|Hm]; [now rewrite F|].
      eapply Forall_impl; [|exact Hnd']. intros q Hq0.
      now rewrite (relocated_isdir _ _ _ _ q Hm). }
    assert (Hnl1 : no_links (fs w1) = true).
    { destruct Heff as [F|Hm]; [now rewrite F|].
      now apply (relocated_no_links _ _ _ _ Hm). }
    destruct (IH n1 n w1 w' Hunder' Hnd1 Hext' Hnl1 H) as (tr2 & Ev2 & Lo2 & Hi2).
    exists (tr1 ++ tr2). rewrite count_events_app.
    split; [now rewrite Ev2, Ev1, app_assoc|]. split; lia.
Qed.

Lemma scandir_trace_no_error (tr : list event) :
  Forall (fun ev => is_scandir ev = true) tr ->
  count_events is_move_error_record tr = 0.
Proof.
  unfold count_events. induction 1 as [|ev tr Hev _ IH]; [reflexivity|].
  destruct ev; try discriminate. exact IH.
Qed.

(** X8: when a patient directory of a tree with unique names and without
    symbolic links has candidates and the call returns, the count logged
    after moving is at least the number of matching entries that were at the
    top of the patient directory before plus the number of files moved, and
    exceeds that sum by at most the number of moves that failed and were
    logged as errors: every move adds one name to the top, a failed move can
    leave a copy there, and nothing leaves the top.  So the count is exactly
    that sum when no move failed. *)
Theorem X8_count_after_is_bounded_by_moves_and_failures :
  forall (disk : path) (pdir ext : string) (w w0 w' : world)
         (c : path) (files : list path) (n : nat),
    let P := os_path_join disk pdir in
    well_formed (fs w) = true ->
    no_links (fs w) = true ->
    list_dcm_files P ext w = (Ok (c :: files), w0) ->
    process_patient_directory disk pdir ext w = (Ok n, w') ->
    exists tr k,
      events w' =
        events w ++ tr ++
        [EvListdir P; EvLog INFO (MsgAfter pdir k); EvLog INFO (MsgMoved pdir n)] /\
      matching_entries (fs w) P ext + n <= k /\
      k <= matching_entries (fs w) P ext + n
             + count_events is_move_error_record tr /\
      n <= List.length (c :: files).
Proof.
  intros disk pdir ext w w0 w' c files n P Hwf Hnl E Hrun.
  destruct (list_dcm_files_correct P ext w)
    as (files1 & w1 & E1 & F & (tr0 & Ev0 & Hs0) & Snd & _).
  rewrite E in E1. injection E1 as <- <-. specialize (Snd Hwf).
  set (w0' := emit (EvLog INFO (MsgBefore pdir (List.length (c :: files)))) w0).
  destruct (move_dcm_files_from_total (c :: files) P 0 w0') as (m & w1 & Em).
  rewrite (process_patient_directory_recount disk pdir ext w w0 w1 c files m E Em)
    in Hrun. fold P in Hrun.
  destruct (os_listdir P w1) as [[names|e] w2] eqn:El; [|discriminate].
  injection Hrun as <- <-.
  apply os_listdir_ok in El as (_ & -> & es & Hes & ->).
  assert (Hunder : Forall (fun c => exists r, r <> [] /\ c = P ++ r) (c :: files)).
  { apply Forall_forall. intros p Hp. destruct (Snd p Hp) as (r & Hr & -> & _).
    now exists r. }
  assert (Hnd : Forall (fun q => os_path_isdir (fs w0') q = false) (c :: files)).
  { apply is_file_not_dir. apply Forall_forall. intros p Hp.
    destruct (Snd p Hp) as (r & _ & _ & Hf & _). simpl. now rewrite F. }
  assert (Hext : Forall (fun c => endswith (os_path_basename c) ext = true) (c :: files)).
  { apply Forall_forall. intros p Hp. now destruct (Snd p Hp) as (r & _ & _ & _ & Hx). }
  assert (Hnl0 : no_links (fs w0') = true) by (simpl; now rewrite F).
  destruct (move_dcm_files_from_listing (c :: files) P ext 0 m w0' w1
              Hunder Hnd Hext Hnl0 Em) as (tr1 & Ev1 & Lo & Hi).
  simpl fs in Lo, Hi. rewrite F in Lo, Hi.
  assert (K : List.length (filter (fun name => endswith name ext) (map fst es)) =
              matching_entries (fs w1) P ext).
  { unfold matching_entries, count_in. rewrite Hes. apply filter_map_fst_length. }
  destruct (move_dcm_files_from_accounting (c :: files) P 0 w0')
    as (m' & w1' & tr' & Em' & _ & Hm' & Hsum & _).
  rewrite Em in Em'. injection Em' as <- <-.
  exists (tr0 ++ [EvLog INFO (MsgBefore pdir (List.length (c :: files)))] ++ tr1).
  eexists. split.
  { simpl events. rewrite next_fault_events, Ev1. unfold w0'. simpl events.
    rewrite Ev0. rewrite <- !app_assoc. reflexivity. }
  rewrite K, !count_events_app, (scandir_trace_no_error tr0 Hs0).
  unfold count_events at 1. simpl. simpl in Hsum. subst P. repeat split; lia.
Qed.

Lemma X8_count_after_is_bounded_by_moves_and_failures_witness :
  exists tr k,
    events (snd (process_patient_directory [] "P1" ".dcm" demo_world)) =
    tr ++ [EvListdir ["P1"%string]; EvLog INFO (MsgAfter "P1" k);
           EvLog INFO (MsgMoved "P1" 1)] /\
    2 <= k.
Proof.
  destruct (X8_count_after_is_bounded_by_moves_and_failures
              [] "P1"%string ".dcm"%string demo_world
              (snd (list_dcm_files ["P1"%string] ".dcm" demo_world))
              (snd (process_patient_directory [] "P1" ".dcm" demo_world))
              ["P1"; "b.dcm"]%string [["P1"; "sub"; "deep"; "a.dcm"]%string] 1
              eq_refl eq_refl eq_refl eq_refl) as (tr & k & Hev & Hlo & _).
  exists tr, k. split; [exact Hev | exact Hlo].
Defined.

(** ** A run without external failure *)

Lemma stat_join_listed (t : node) (disk : path) (p : string) (k : kind) :
  stat t (os_path_join disk p) = Some k ->
  exists names, listdir_on t disk = inr names /\ In p names.
Proof.
  unfold stat, lstat, os_path_join, listdir_on. rewrite resolve_app.
  destruct (resolve t disk) as [[d|es|tg]|]; simpl; try discriminate.
  destruct (entry_lookup p es) as [x|] eqn:E; [|discriminate]. intros _.
  exists (map fst es). split; [reflexivity|].
  apply entry_lookup_In in E. now apply (in_map fst) in E.
Qed.

(** X9: on a tree with unique names and without external failure the whole
    run returns its total, although the listing after the moves is not
    guarded: the moves of the program itself never make it fail.  The tree
    keeps unique names, and below every directory that was an immediate
    child of the disk path each file whose name ends with the extension now
    has an entry of its name at the top of that directory. *)
Theorem X9_failure_free_run_returns_and_settles :
  forall (disk : path) (ext : string) (w : world),
    well_formed (fs w) = true ->
    oracle w = [] ->
    exists n w',
      main disk ext w = (Ok n, w') /\
      oracle w' = [] /\
      well_formed (fs w') = true /\
      forall p, os_path_isdir (fs w) (os_path_join disk p) = true ->
                settled (fs w') (os_path_join disk p) ext.
Proof.
  intros disk ext w Hwf Hq.
  set (wa := emit (EvLog INFO (MsgStart disk ext)) w).
  destruct (list_patient_directories_quiet disk wa Hq) as (wb & E1 & Fb & Qb).
  simpl fs in E1, Fb.
  set (patients := match listdir_on (fs w) disk with
                   | inr names =>
                       list_sort (filter (fun d => os_path_isdir (fs w)
                                            (os_path_join disk d)) names)
                   | inl _ => []
                   end) in *.
  assert (Hwfb : well_formed (fs wb) = true) by (rewrite Fb; exact Hwf).
  destruct (main_loop_settles disk ext patients 0 wb Qb Hwfb)
    as (n & wc & Eloop & Qc & Hwfc & Sc & _).
  exists n, (emit (EvLog INFO (MsgTotal n)) (emit (EvLog INFO MsgExecutionTime) wc)).
  split; [exact (main_unfold disk ext w wb wc patients n E1 Eloop)|].
  simpl. repeat split; try assumption.
  intros p Hp. apply Sc. left.
  pose proof Hp as Hs. rewrite stat_isdir in Hs.
  destruct (stat (fs w) (os_path_join disk p)) as [k|] eqn:Es; [|discriminate].
  destruct (stat_join_listed _ _ _ _ Es) as (names & El & Hin).
  unfold patients. rewrite El.
  apply (Permutation_in p (Permutation_sym (list_sort_perm _))).
  apply filter_In. now split.
Qed.

Lemma X9_failure_free_run_returns_and_settles_witness :
  exists n w',
    main [] ".dcm" demo_world = (Ok n, w') /\
    settled (fs w') ["P1"%string] ".dcm".
Proof.
  destruct (X9_failure_free_run_returns_and_settles [] ".dcm"%string demo_world
              eq_refl eq_refl) as (n & w' & E & _ & _ & Hs).
  exists n, w'. split; [exact E|]. now apply (Hs "P1"%string).
Defined.

(** ** The total of a run *)

Lemma moved_reports_app (a b : list event) :
  moved_reports (a ++ b) = moved_reports a ++ moved_reports b.
Proof.
  induction a as [|ev a IH]; [reflexivity|]. simpl.
  destruct ev as [l m|?|?|? ? ?|]; try exact IH.
  destruct l; try exact IH. destruct m; try exact IH. simpl. now rewrite IH.
Qed.

Lemma scandir_trace_silent (tr : list event) :
  Forall (fun ev => is_scandir ev = true) tr ->
  count_events is_successful_move tr = 0 /\ moved_reports tr = [].
Proof.
  unfold count_events. induction 1 as [|ev tr Hev _ [IH1 IH2]]; [now split|].
  destruct ev; try discriminate. simpl. now split.
Qed.

Lemma move_dcm_file_reports (c P : path) (k : nat) (w : world) :
  exists n w' tr,
    move_dcm_file c P k w = (Ok n, w') /\
    events w' = events w ++ tr /\
    n = k + count_events is_successful_move tr /\
    moved_reports tr = [].
Proof.
  set (d := os_path_join P (os_path_basename c)).
  destruct (os_path_exists (fs w) d) eqn:E.
  - rewrite move_dcm_file_skip by exact E. fold d.
    eexists k, _, [EvLog WARNING (MsgAlreadyExists d)].
    split; [reflexivity|]. unfold count_events. simpl. repeat split; lia.
  - rewrite move_dcm_file_attempt by exact E. fold d.
    destruct (shutil_move c d w) as [[rd|e] w1] eqn:Em.
    + apply shutil_move_record in Em as [Ev _].
      eexists (k + 1), _, [EvMove c d None; EvSleep].
      split; [reflexivity|]. unfold count_events. simpl. rewrite Ev, <- app_assoc.
      repeat split; lia.
    + apply shutil_move_record in Em as [Ev _].
      eexists k, _, [EvMove c d (Some e); EvLog ERROR (MsgErrorMoving c e)].
      split; [reflexivity|]. unfold count_events. simpl.
      rewrite Ev, <- app_assoc. repeat split; lia.
Qed.

Lemma move_dcm_files_from_reports (files : list path) (P : path) :
  forall k w,
  exists n w' tr,
    move_dcm_files_from files P k w = (Ok n, w') /\
    events w' = events w ++ tr /\
    n = k + count_events is_successful_move tr /\
    moved_reports tr = [].
Proof.
  induction files as [|c files IH]; intros k w; simpl.
  - exists k, w, []. unfold ret, count_events. rewrite app_nil_r. simpl.
    repeat split; lia.
  - unfold bind.
    destruct (move_dcm_file_reports c P k w) as (n1 & w1 & tr1 & -> & Ev1 & Hn1 & R1).
    destruct (IH n1 w1) as (n & w' & tr2 & -> & Ev2 & Hn2 & R2).
    exists n, w', (tr1 ++ tr2). rewrite count_events_app, moved_reports_app, R1, R2.
    split; [reflexivity|]. split; [now rewrite Ev2, Ev1, app_assoc|].
    split; [lia | reflexivity].
Qed.

(** A call for one patient that returns has made as many successful moves
    as it returns, and has reported that number at most once. *)
Lemma process_patient_directory_reports (disk : path) (pdir ext : string)
    (w w' : world) (n : nat) :
  process_patient_directory disk pdir ext w = (Ok n, w') ->
  exists tr,
    events w' = events w ++ tr /\
    count_events is_successful_move tr = n /\
    list_sum (moved_reports tr) = n.
Proof.
  set (P := os_path_join disk pdir). intros Hrun.
  destruct (list_dcm_files_correct P ext w)
    as (files & w0 & E & _ & (tr0 & Ev0 & Hs0) & _).
  destruct (scandir_trace_silent tr0 Hs0) as [C0 R0].
  destruct files as [|c files].
  - unfold process_patient_directory, bind in Hrun. fold P in Hrun.
    rewrite E in Hrun. unfold log, ret in Hrun. injection Hrun as <- <-.
    exists (tr0 ++ [EvLog INFO (MsgNoFiles pdir)]). simpl.
    rewrite Ev0, <- app_assoc, count_events_app, moved_reports_app, C0, R0.
    now repeat split.
  - set (w0' := emit (EvLog INFO (MsgBefore pdir (List.length (c :: files)))) w0).
    destruct (move_dcm_files_from_reports (c :: files) P 0 w0')
      as (m & w1 & tr1 & Em & Ev1 & Hm & R1).
    rewrite (process_patient_directory_recount disk pdir ext w w0 w1 c files m E Em)
      in Hrun. fold P in Hrun.
    destruct (os_listdir P w1) as [[names|e] w2] eqn:El; [|discriminate].
    injection Hrun as <- <-.
    apply os_listdir_ok in El as (_ & -> & _).
    set (k := List.length (filter (fun name => endswith name ext) names)).
    exists (tr0 ++ [EvLog INFO (MsgBefore pdir (List.length (c :: files)))] ++ tr1 ++
            [EvListdir P; EvLog INFO (MsgAfter pdir k); EvLog INFO (MsgMoved pdir m)]).
    split.
    + simpl events. rewrite next_fault_events, Ev1. unfold w0'. simpl events.
      rewrite Ev0. rewrite <- !app_assoc. reflexivity.
    + rewrite !count_events_app, !moved_reports_app, C0, R0, R1.
      unfold count_events at 1 3. simpl. lia.
Qed.

Lemma main_loop_reports (disk : path) (ext : string) (patients : list string) :
  forall k w n w',
    main_loop disk patients ext k w = (Ok n, w') ->
    exists tr,
      events w' = events w ++ tr /\
      n = k + count_events is_successful_move tr /\
      n = k + list_sum (moved_reports tr).
Proof.
  induction patients as [|p patients IH]; intros k w n w' H; simpl in H.
  - unfold ret in H. injection H as <- <-. exists []. rewrite app_nil_r.
    unfold count_events. simpl. repeat split; lia.
  - unfold bind in H.
    destruct (process_patient_directory disk p ext w) as [[m|e] w1] eqn:E1;
      [|discriminate].
    apply process_patient_directory_reports in E1 as (tr1 & Ev1 & C1 & R1).
    apply IH in H as (tr2 & Ev2 & C2 & R2).
    exists (tr1 ++ tr2).
    rewrite count_events_app, moved_reports_app, list_sum_app.
    split; [now rewrite Ev2, Ev1, app_assoc|]. split; lia.
Qed.

Lemma list_patient_directories_reports (disk : path) (srt : bool) (w : world) :
  exists tr,
    events (snd (list_patient_directories disk srt w)) = events w ++ tr /\
    count_events is_successful_move tr = 0 /\ moved_reports tr = [].
Proof.
  destruct (os_listdir disk w) as [[names|e] w1] eqn:H.
  - rewrite (list_patient_directories_listing disk srt _ _ _ H).
    apply os_listdir_ok in H as (_ & -> & _). simpl.
    rewrite next_fault_events, <- app_assoc. eexists. split; [reflexivity|].
    now split.
  - rewrite (list_patient_directories_failing disk srt _ _ _ H).
    apply os_listdir_raise in H as ->. simpl.
    rewrite next_fault_events, <- app_assoc. eexists. split; [reflexivity|].
    now split.
Qed.

(** X10: when a run returns, its last two records are the execution time
    and the total; the total it returns and logs is the number of
    successful moves made during the run, and it is the sum of the numbers
    reported for the patient directories.  This holds under any external
    failures that let the run return. *)
Theorem X10_total_is_the_number_of_moves :
  forall (disk : path) (ext : string) (w w' : world) (n : nat),
    main disk ext w = (Ok n, w') ->
    exists tr,
      events w' =
        events w ++ tr ++ [EvLog INFO MsgExecutionTime; EvLog INFO (MsgTotal n)] /\
      count_events is_successful_move tr = n /\
      list_sum (moved_reports tr) = n.
Proof.
  intros disk ext w w' n H.
  unfold main, bind in H. unfold log at 1 in H.
  set (wa := emit (EvLog INFO (MsgStart disk ext)) w) in H.
  destruct (list_patient_directories_reports disk true wa) as (tr1 & Ev1 & C1 & R1).
  destruct (list_patient_directories disk true wa) as [[patients|e] wb];
    [|discriminate].
  simpl in Ev1.
  destruct (main_loop disk patients ext 0 wb) as [[m|e] wc] eqn:El; [|discriminate].
  unfold log, ret in H. injection H as <- <-.
  apply main_loop_reports in El as (tr2 & Ev2 & C2 & R2).
  exists ([EvLog INFO (MsgStart disk ext)] ++ tr1 ++ tr2).
  rewrite !count_events_app, !moved_reports_app, !list_sum_app, C1, R1.
  split; [|unfold count_events at 1; simpl; lia].
  simpl events. rewrite Ev2, Ev1. rewrite <- !app_assoc. reflexivity.
Qed.

Lemma X10_total_is_the_number_of_moves_witness :
  exists tr,
    events (snd (main [] ".dcm" demo_world)) =
      tr ++ [EvLog INFO MsgExecutionTime; EvLog INFO (MsgTotal 1)] /\
    count_events is_successful_move tr = 1 /\
    list_sum (moved_reports tr) = 1.
Proof.
  destruct (X10_total_is_the_number_of_moves [] ".dcm"%string demo_world
              (snd (main [] ".dcm" demo_world)) 1 eq_refl) as (tr & Ev & C & R).
  exists tr. split; [exact Ev | now split].
Defined.
